(** * insider-signal-trader: scoring engine and recommendation lifecycle

    A shallow embedding of the parts of the repository that the
    specification makes claims about:

    - [src/tools/scoring]    : [scoreRole], [scoreValue], [scoreRecency],
                               [detectClusters], [buildSignal], [scoreSignals];
    - [src/tools/db.ts]      : [getRecommendation], [updateRecommendationStatus],
                               [logTrade];
    - [src/routes/approval.ts] : [validatePending], [handleApprove],
                               [handleReject];
    - [src/agents/formScanner.ts] : the guard loop of [DecisionAgent.decide]
                               and [DecisionAgent.expireRecommendation];

    and of their neighbours: [insertRecommendation] and the creating half of
    the loop of [decide], [FormScannerAgent.run] with the clock reads of
    [fetchForm4s], [batchedSettle], [escapeMd], [parseScheduleCommand].

    Conventions.  A JavaScript string is the list of its UTF-16 code units.
    An amount of money or a quantity of shares is a JavaScript number, an
    IEEE 754 double ([Double.number]), and is computed with as the code
    computes with it.  A number that the code only compares with integer
    constants (a transaction value, the hours of the expiry window) is the
    rational it stands for ([Q]), [NaN] being [None]; a time value is an
    integer number of milliseconds ([Z]); [undefined] and [null] are
    [None].  Every read of the wall clock and every call of an external
    collaborator is explicit. *)

From Stdlib Require Import ZArith NArith QArith Qround Qpower String Ascii List Bool.
From Stdlib Require Import Lia Lqa Permutation Sorted.
From Stdlib Require Floats.
Import ListNotations.
Open Scope Z_scope.

(* ===================================================================== *)
(** * The JavaScript host: strings, RegExp character classes, Date       *)
(* ===================================================================== *)

Module Js.

(** A string value: its sequence of UTF-16 code units. *)
Definition jstring := list N.

(** An ASCII literal as a [jstring]. *)
Definition str (s : string) : jstring :=
  map N_of_ascii (list_ascii_of_string s).

(** [a === b] on strings. *)
Fixpoint eqb (a b : jstring) : bool :=
  match a, b with
  | [], [] => true
  | x :: a', y :: b' => N.eqb x y && eqb a' b'
  | _, _ => false
  end.

(** [a.slice(0, e)] for an integer [e]: a negative [e] counts from the end. *)
Definition slice0 {A} (e : Z) (a : list A) : list A :=
  let len := Z.of_nat (length a) in
  let final := if e <? 0 then Z.max (len + e) 0 else Z.min e len in
  firstn (Z.to_nat final) a.

(** RegExp [IsWordChar] without the [u] flag: [A-Za-z0-9_]. *)
Definition isWordChar (c : N) : bool :=
  ((48 <=? c) && (c <=? 57) || (65 <=? c) && (c <=? 90) ||
   (c =? 95) || (97 <=? c) && (c <=? 122))%N.

(** The class [\s]: WhiteSpace and LineTerminator code points. *)
Definition isWhiteSpace (c : N) : bool :=
  ((9 <=? c) && (c <=? 13) || (c =? 32) || (c =? 160) || (c =? 5760) ||
   (8192 <=? c) && (c <=? 8202) || (c =? 8232) || (c =? 8233) ||
   (c =? 8239) || (c =? 8287) || (c =? 12288) || (c =? 65279))%N.

(** [Canonicalize] under flag [i] (no [u] flag), on the code units where it
    can reach an ASCII letter: [a-z] maps to [A-Z]; a code unit of 128 or
    more never canonicalizes to an ASCII one, so leaving it in place decides
    the comparison with an ASCII pattern character correctly. *)
Definition Canonicalize (c : N) : N :=
  if ((97 <=? c) && (c <=? 122))%N then (c - 32)%N else c.

(** ** Numbers *)

(** [a > b] and [a < b] on numbers that are not [NaN]. *)
Definition gtb (a b : Q) : bool := negb (Qle_bool a b).
Definition ltb (a b : Q) : bool := negb (Qle_bool b a).

(** [Number(x) || d]: [d] replaces [NaN] and zero. *)
Definition orDefault (n : option Q) (d : Q) : Q :=
  match n with
  | Some q => if Qeq_bool q 0 then d else q
  | None => d
  end.

(** ** Date *)

Definition msPerDay : Z := 86400000.

(** [Day(t)], the day number of a time value. *)
Definition Day (t : Z) : Z := t / msPerDay.

(** Year, month (1..12) and day of month (1..31) of a day number, in the
    proleptic Gregorian calendar that [YearFromTime], [MonthFromTime] and
    [DateFromTime] define. *)
Definition civil (day : Z) : Z * Z * Z :=
  let z := day + 719468 in
  let era := z / 146097 in
  let doe := z - era * 146097 in
  let yoe := (doe - doe / 1460 + doe / 36524 - doe / 146096) / 365 in
  let doy := doe - (365 * yoe + yoe / 4 - yoe / 100) in
  let mp := (5 * doy + 2) / 153 in
  let d := doy - (153 * mp + 2) / 5 + 1 in
  let m := if mp <? 10 then mp + 3 else mp - 9 in
  let y := yoe + era * 400 + (if m <=? 2 then 1 else 0) in
  (y, m, d).

(** The last [w] decimal digits of [n], zero padded. *)
Fixpoint digits (w : nat) (n : Z) : jstring :=
  match w with
  | O => []
  | S w' => digits w' (n / 10) ++ [Z.to_N (48 + n mod 10)]
  end.

(** [new Date(t).toISOString()]: [YYYY-MM-DDTHH:mm:ss.sssZ], with the
    expanded year [+YYYYYY] or [-YYYYYY] outside 0..9999. *)
Definition toISOString (t : Z) : jstring :=
  let '(y, m, d) := civil (Day t) in
  let ms := t mod msPerDay in
  let year :=
    if (0 <=? y) && (y <=? 9999) then digits 4 y
    else (if y <? 0 then str "-" else str "+") ++ digits 6 (Z.abs y) in
  year ++ str "-" ++ digits 2 m ++ str "-" ++ digits 2 d ++ str "T" ++
  digits 2 (ms / 3600000) ++ str ":" ++ digits 2 (ms / 60000 mod 60) ++
  str ":" ++ digits 2 (ms / 1000 mod 60) ++ str "." ++ digits 3 (ms mod 1000) ++
  str "Z".

(** The calendar date that [toISOString] prints: its first ten code units
    (see [slice_toISOString]). *)
Definition datePart (day : Z) : jstring :=
  let '(y, m, d) := civil day in
  let year :=
    if (0 <=? y) && (y <=? 9999) then digits 4 y
    else (if y <? 0 then str "-" else str "+") ++ digits 6 (Z.abs y) in
  firstn 10 (year ++ str "-" ++ digits 2 m ++ str "-" ++ digits 2 d).

(** What the program needs from its host and cannot compute itself.

    - [Date_parse s] is [Date.parse(s)]: a time value, or [None] for [NaN].
      Its result on strings outside the ISO format is implementation
      defined, so it stays a parameter.
    - [clock n] is the time value returned by the [n]-th read of the wall
      clock ([new Date()], [Date.now()]) since the run started. *)
Class Host := {
  Date_parse : jstring -> option Z;
  clock : nat -> Z
}.

(** A reference [Date.parse] for examples: on a valid calendar date written
    [YYYY-MM-DD] it is UTC midnight of that day, as the standard prescribes
    for date-only forms; every other string is [NaN] here. *)
Definition digitVal (c : N) : option Z :=
  if ((48 <=? c) && (c <=? 57))%N then Some (Z.of_N c - 48) else None.

Fixpoint number (acc : Z) (s : jstring) : option Z :=
  match s with
  | [] => Some acc
  | c :: s' =>
      match digitVal c with
      | Some v => number (10 * acc + v) s'
      | None => None
      end
  end.

(** Day number of a civil date (the inverse of [civil]). *)
Definition daysFromCivil (y m d : Z) : Z :=
  let y' := if m <=? 2 then y - 1 else y in
  let era := y' / 400 in
  let yoe := y' - era * 400 in
  let mp := if m <=? 2 then m + 9 else m - 3 in
  let doy := (153 * mp + 2) / 5 + d - 1 in
  let doe := yoe * 365 + yoe / 4 - yoe / 100 + doy in
  era * 146097 + doe - 719468.

Definition parseDateOnly (s : jstring) : option Z :=
  match s with
  | [y1; y2; y3; y4; 45%N; m1; m2; 45%N; d1; d2] =>
      match number 0 [y1; y2; y3; y4], number 0 [m1; m2], number 0 [d1; d2] with
      | Some y, Some m, Some d =>
          let '(y', m', d') := civil (daysFromCivil y m d) in
          if (1 <=? m) && (m <=? 12) && (y' =? y) && (m' =? m) && (d' =? d)
          then Some (daysFromCivil y m d * msPerDay) else None
      | _, _, _ => None
      end
  | _ => None
  end.

End Js.

(* ===================================================================== *)
(** * The JavaScript host: numbers                                       *)
(* ===================================================================== *)

(** The Number type is IEEE 754 binary64: the kernel's primitive floats,
    whose operations the standard library specifies in [SpecFloat] (every
    result is the exact one rounded to the nearest double, ties to even;
    [NaN], the infinities and the signed zeros are values like the
    others). *)
Module Double.
Import SpecFloat.

Definition number := PrimFloat.float.

Definition NaN : number := PrimFloat.nan.

(** The Number value of an integer literal. *)
Definition ofZ (z : Z) : number :=
  FloatOps.SF2Prim (binary_normalize FloatOps.prec FloatOps.emax z 0 false).

(** [a - b], [a * b], [a / b] *)
Definition sub : number -> number -> number := PrimFloat.sub.
Definition mul : number -> number -> number := PrimFloat.mul.
Definition div : number -> number -> number := PrimFloat.div.

(** [a < b] and [a > b]: false when either side is [NaN]. *)
Definition ltb (a b : number) : bool := PrimFloat.ltb a b.
Definition gtb (a b : number) : bool := PrimFloat.ltb b a.

(** [ToBoolean]: zero of either sign and [NaN] are falsy. *)
Definition truthy (x : number) : bool :=
  match FloatOps.Prim2SF x with
  | S754_zero _ | S754_nan => false
  | _ => true
  end.

(** [x || d] *)
Definition orDefault (x d : number) : number := if truthy x then x else d.

(** [Math.floor(x)].  A finite double with a negative exponent has fewer
    than 2^53 units before the binary point, so the integer below it is a
    double. *)
Definition floor (x : number) : number :=
  match FloatOps.Prim2SF x with
  | S754_finite s m e =>
      if 0 <=? e then x
      else
        match Z.shiftr (if s then Z.neg m else Z.pos m) (- e) with
        | Z0 => FloatOps.SF2Prim (S754_zero s)
        | z => ofZ z
        end
  | _ => x
  end.

(** The double nearest to the decimal [n / d], for [n] and [d] that are
    doubles themselves: what [parseFloat] and a numeric literal give for
    a short decimal such as [100.1] = [decimal 1001 10]. *)
Definition decimal (n d : Z) : number := div (ofZ n) (ofZ d).

(** The rational that a finite double is, exactly: its signed mantissa
    times the power of two of its exponent, in lowest terms. *)
Definition toQ (x : number) : option Q :=
  match FloatOps.Prim2SF x with
  | S754_zero _ => Some 0%Q
  | S754_finite s m e =>
      Some (Qred (inject_Z (cond_Zopp s (Z.pos m)) * 2 ^ e))
  | _ => None
  end.

(** The same value counted in units of 2^-1074, the spacing of the
    smallest doubles: every finite double is a whole number of them. *)
Definition units (x : spec_float) : option Z :=
  match x with
  | S754_zero _ => Some 0
  | S754_finite s m e => Some (cond_Zopp s (Z.pos m * 2 ^ (e + 1074)))
  | _ => None
  end.

#[global] Arguments ofZ : simpl never.
#[global] Arguments sub : simpl never.
#[global] Arguments mul : simpl never.
#[global] Arguments div : simpl never.
#[global] Arguments ltb : simpl never.
#[global] Arguments gtb : simpl never.
#[global] Arguments floor : simpl never.
#[global] Arguments truthy : simpl never.

End Double.

(* ===================================================================== *)
(** * src/tools/scoring                                                  *)
(* ===================================================================== *)

Module Scoring.
Import Js.

(** ** Role scoring *)

(** The regular expressions of [ROLE_PATTERNS] all have the shape
    [/\b(w1|w2|...)\b/i], each alternative a sequence of pattern
    characters and [\s+]. *)
Inductive Atom :=
| AChar (c : N)        (* a pattern character, compared under flag [i] *)
| ASpaces.             (* [\s+] *)

Definition Alternative := list Atom.

Definition lit (s : string) : Alternative := map AChar (str s).

(** Matching [\s*] and then the rest [k]: every way to consume a run of
    white space (backtracking explores them all).  [prev] is the code unit
    before the position, if any. *)
Fixpoint spacesThen (k : option N -> jstring -> bool) (prev : option N)
    (s : jstring) : bool :=
  k prev s ||
  match s with
  | c :: s' => isWhiteSpace c && spacesThen k (Some c) s'
  | [] => false
  end.

(** [matchAlt alt k prev s]: [alt] matches a prefix of [s], and the
    continuation [k] accepts the position where the match ends. *)
Fixpoint matchAlt (alt : Alternative) (k : option N -> jstring -> bool)
    (prev : option N) (s : jstring) : bool :=
  match alt with
  | [] => k prev s
  | AChar p :: alt' =>
      match s with
      | c :: s' =>
          N.eqb (Canonicalize c) (Canonicalize p) && matchAlt alt' k (Some c) s'
      | [] => false
      end
  | ASpaces :: alt' =>
      match s with
      | c :: s' => isWhiteSpace c && spacesThen (matchAlt alt' k) (Some c) s'
      | [] => false
      end
  end.

(** The assertion [\b] between the code unit before the position (if any)
    and the one after it (if any). *)
Definition wordBoundary (prev : option N) (s : jstring) : bool :=
  xorb (match prev with Some c => isWordChar c | None => false end)
       (match s with c :: _ => isWordChar c | [] => false end).

(** The pattern [\b(alts)\b] matches at the current position. *)
Definition matchHere (alts : list Alternative) (prev : option N) (s : jstring)
    : bool :=
  wordBoundary prev s &&
  existsb (fun alt => matchAlt alt wordBoundary prev s) alts.

(** [re.test(s)]: the pattern matches at some position of [s]. *)
Fixpoint testFrom (alts : list Alternative) (prev : option N) (s : jstring)
    : bool :=
  matchHere alts prev s ||
  match s with
  | c :: s' => testFrom alts (Some c) s'
  | [] => false
  end.

Definition test (alts : list Alternative) (s : jstring) : bool :=
  testFrom alts None s.

Definition ROLE_PATTERNS : list (list Alternative * Z) :=
  [ ([ lit "CEO"; lit "CHIEF" ++ [ASpaces] ++ lit "EXECUTIVE";
       lit "CFO"; lit "CHIEF" ++ [ASpaces] ++ lit "FINANCIAL";
       lit "PRESIDENT";
       lit "COO"; lit "CHIEF" ++ [ASpaces] ++ lit "OPERATING";
       lit "CTO"; lit "CHIEF" ++ [ASpaces] ++ lit "TECHNOLOGY";
       lit "CSO"; lit "CRO"; lit "CHAIRMAN" ], 40);
    ([ lit "director" ], 25);
    ([ lit "VP"; lit "VICE" ++ [ASpaces] ++ lit "PRES"; lit "SVP"; lit "EVP";
       lit "OFFICER"; lit "TREASURER"; lit "SECRETARY"; lit "CONTROLLER";
       lit "COMPTROLLER" ], 15) ].

Fixpoint firstMatch (pats : list (list Alternative * Z)) (role : jstring) : Z :=
  match pats with
  | [] => 5
  | (re, pts) :: pats' => if test re role then pts else firstMatch pats' role
  end.

Definition scoreRole (role : jstring) : Z := firstMatch ROLE_PATTERNS role.

(** ** Value scoring *)

Definition scoreValue (transactionValue : Q) : Z :=
  if gtb transactionValue 1000000 then 20
  else if gtb transactionValue 100000 then 10
  else if gtb transactionValue 10000 then 5
  else 0.

(** ** Reading the clock

    A computation that reads the wall clock: it is given the number of
    reads made so far and returns the number made after it. *)
Definition Clk (A : Type) : Type := nat -> A * nat.

Definition ret {A} (a : A) : Clk A := fun n => (a, n).

Definition bind {A B} (c : Clk A) (f : A -> Clk B) : Clk B :=
  fun n => let '(a, n') := c n in f a n'.

#[local] Notation "x <- c ;; k" := (bind c (fun x => k))
  (at level 61, c at next level, right associativity).

Fixpoint mapM {A B} (f : A -> Clk B) (l : list A) : Clk (list B) :=
  match l with
  | [] => ret []
  | a :: l' => b <- f a ;; bs <- mapM f l' ;; ret (b :: bs)
  end.

Section WithHost.
Context {host : Host}.

(** [new Date()] *)
Definition newDate : Clk Z := fun n => (clock n, S n).

(** ** Recency scoring *)

(** [d.setUTCDate(d.getUTCDate() + offsetDays)] moves the time value by whole
    days; the clock is taken to be more than a day inside the range of time
    values, so the result is a valid date. *)
Definition utcDateString (offsetDays : Z) : Clk jstring :=
  d <- newDate ;;
  ret (slice0 10 (toISOString (d + offsetDays * msPerDay))).

Definition scoreRecency (transactionDate : jstring) : Clk Z :=
  today <- utcDateString 0 ;;
  if eqb transactionDate today then ret 20
  else
    yesterday <- utcDateString (-1) ;;
    if eqb transactionDate yesterday then ret 10 else ret 0.

(** ** Cluster detection *)

Inductive TransactionType := TxP | TxS | TxA | TxD.

Definition isP (t : TransactionType) : bool :=
  match t with TxP => true | _ => false end.

Record Filing := {
  ticker : jstring;
  insiderName : jstring;
  insiderRole : jstring;
  transactionDate : jstring;
  transactionType : TransactionType;
  transactionValue : Q;
  sharesTraded : Q;
  pricePerShare : Q;
  rawXml : jstring
}.

(** The quotient is [NaN] ([None]) when either date does not parse. *)
Definition calendarDayDiff (a b : jstring) : option Q :=
  match Date_parse a, Date_parse b with
  | Some x, Some y => Some (Z.abs (x - y) # 86400000)
  | _, _ => None
  end.

(** [n <= q] on numbers: false on [NaN]. *)
Definition leNum (n : option Q) (q : Q) : bool :=
  match n with Some x => Qle_bool x q | None => false end.

Definition filingKey (f : Filing) : jstring :=
  ticker f ++ [0%N] ++ insiderName f ++ [0%N] ++ transactionDate f.

(** [Map<string, Filing[]>], in insertion order. *)
Definition Groups := list (jstring * list Filing).

(** [const g = byTicker.get(f.ticker); if (g) g.push(f); else byTicker.set(f.ticker, [f])] *)
Fixpoint addToGroup (f : Filing) (byTicker : Groups) : Groups :=
  match byTicker with
  | [] => [(ticker f, [f])]
  | (k, g) :: rest =>
      if eqb k (ticker f) then (k, g ++ [f]) :: rest
      else (k, g) :: addToGroup f rest
  end.

Definition groupByTicker (filings : list Filing) : Groups :=
  fold_left (fun byTicker f => addToGroup f byTicker) filings [].

(** [Set<string>] *)
Definition has (set : list jstring) (k : jstring) : bool :=
  existsb (eqb k) set.

Definition add (k : jstring) (set : list jstring) : list jstring :=
  if has set k then set else set ++ [k].

Definition pairQualifies (a b : Filing) : bool :=
  negb (eqb (insiderName a) (insiderName b)) &&
  leNum (calendarDayDiff (transactionDate a) (transactionDate b)) 5.

(** The inner loop: [a = group[i]] against every [b = group[j]], [j > i]. *)
Definition scanRow (a : Filing) (later : list Filing) (clustered : list jstring)
    : list jstring :=
  fold_left (fun acc b =>
               if pairQualifies a b
               then add (filingKey b) (add (filingKey a) acc) else acc)
            later clustered.

(** The outer loop over [i]. *)
Fixpoint scanGroup (group : list Filing) (clustered : list jstring)
    : list jstring :=
  match group with
  | [] => clustered
  | a :: later => scanGroup later (scanRow a later clustered)
  end.

Definition detectClusters (filings : list Filing) : list jstring :=
  fold_left (fun clustered kg =>
               let group := snd kg in
               if (length group <? 2)%nat then clustered
               else scanGroup group clustered)
            (groupByTicker filings) [].

(** ** Core signal builder *)

Record ScoreBreakdown := {
  roleFactor : Z;
  valueFactor : Z;
  clusterBonus : Z;
  recencyFactor : Z
}.

(** The clauses that [breakdownSummary] joins with [" | "]; their rendering
    as text is not modelled.  [sumCappedFrom] is [Some raw] when the total
    clause carries the note ["(capped from raw)"]. *)
Record BreakdownSummary := {
  sumRole : jstring * Z;
  sumValue : Q * Z;
  sumCluster : bool;
  sumRecency : jstring * Z;
  sumTotal : Z;
  sumCappedFrom : option Z
}.

Record ScoredSignal := {
  filing : Filing;
  score : Z;
  scoreBreakdown : ScoreBreakdown;
  breakdownSummary : BreakdownSummary
}.

Definition buildSignal (f : Filing) (inCluster : bool) : Clk ScoredSignal :=
  let roleFactor := scoreRole (insiderRole f) in
  let valueFactor := scoreValue (transactionValue f) in
  let clusterBonus := if inCluster then 20 else 0 in
  recencyFactor <- scoreRecency (transactionDate f) ;;
  let raw := roleFactor + valueFactor + clusterBonus + recencyFactor in
  let score := Z.min raw 100 in
  let capped := raw >? 100 in
  ret {| filing := f;
         score := score;
         scoreBreakdown :=
           {| roleFactor := roleFactor; valueFactor := valueFactor;
              clusterBonus := clusterBonus; recencyFactor := recencyFactor |};
         breakdownSummary :=
           {| sumRole := (insiderRole f, roleFactor);
              sumValue := (transactionValue f, valueFactor);
              sumCluster := inCluster;
              sumRecency := (transactionDate f, recencyFactor);
              sumTotal := score;
              sumCappedFrom := if capped then Some raw else None |} |}.

(** ** Public API *)

(** [Array.prototype.sort] is stable; with the comparator
    [(a, b) => b.score - a.score] an element stays in front of every later
    element whose score is not strictly greater. *)
Fixpoint insertByScore (x : ScoredSignal) (l : list ScoredSignal)
    : list ScoredSignal :=
  match l with
  | [] => [x]
  | y :: l' =>
      if score y - score x >? 0 then y :: insertByScore x l' else x :: y :: l'
  end.

Definition sortByScore (l : list ScoredSignal) : list ScoredSignal :=
  fold_right insertByScore [] l.

Definition scoreSignals (filings : list Filing) (limit : Z)
    : Clk (list ScoredSignal) :=
  let purchases := filter (fun f => isP (transactionType f)) filings in
  if (length purchases =? 0)%nat then ret []
  else
    let clustered := detectClusters purchases in
    scored <- mapM (fun f => buildSignal f (has clustered (filingKey f)))
                   purchases ;;
    ret (slice0 limit (sortByScore scored)).

(** The default [limit = 10]. *)
Definition scoreSignalsDefault (filings : list Filing) : Clk (list ScoredSignal) :=
  scoreSignals filings 10.

(** The deprecated single-filing entry point: no cluster, no gate. *)
Definition scoreFiling (f : Filing) : Clk ScoredSignal := buildSignal f false.

End WithHost.

End Scoring.

(* ===================================================================== *)
(** * src/tools/db.ts                                                    *)
(* ===================================================================== *)

Module Db.
Import Js.
Import Double (number).

(** Modelled from the spec: [db/schema.sql] is not among the sources.  The
    column [recommendations.status] holds one of the five states that the
    specification and the comment of [updateRecommendationStatus] name; a
    CHECK constraint sees the new row only, so it restricts the value
    written, not the state written over. *)
Inductive Status := PENDING | APPROVED | REJECTED | EXPIRED | EXECUTED.

Inductive Action := BUY | SELL | HOLD.

Definition status_eqb (a b : Status) : bool :=
  match a, b with
  | PENDING, PENDING | APPROVED, APPROVED | REJECTED, REJECTED
  | EXPIRED, EXPIRED | EXECUTED, EXECUTED => true
  | _, _ => false
  end.

Record RecommendationRow := {
  id : jstring;
  ticker : jstring;
  action : Action;
  reasoning : jstring;
  signal_id : Z;
  status : Status;
  notional : number;
  stop_price : option number;
  take_profit_price : option number;
  created_at : jstring;
  resolved_at : option jstring
}.

Inductive Side := long | short.

Record TradeLog := {
  tl_ticker : jstring;
  tl_side : Side;
  tl_qty : number;
  tl_price : number;
  tl_notional : number;
  tl_alpacaOrderId : jstring;
  tl_recommendationId : jstring
}.

(** The two tables that the approval path touches. *)
Record D1Database := {
  recommendations : list RecommendationRow;
  positions : list TradeLog
}.

Record D1Result := {
  success : bool;
  changes : nat
}.

Inductive Error :=
| D1WriteFailed                     (* assertSuccess *)
| NoRowFound (id : jstring)         (* updateRecommendationStatus, changes = 0 *)
| AlpacaError (code : Z).           (* alpacaFetch: network, HTTP or shape error *)

(** [SELECT * FROM recommendations WHERE id = ?], [.first()] *)
Definition getRecommendation (db : D1Database) (i : jstring)
    : option RecommendationRow :=
  find (fun r => eqb (id r) i) (recommendations db).

Definition setStatus (st : Status) (resolvedAt : jstring) (r : RecommendationRow)
    : RecommendationRow :=
  {| id := id r; ticker := ticker r; action := action r;
     reasoning := reasoning r; signal_id := signal_id r;
     status := st;
     notional := notional r; stop_price := stop_price r;
     take_profit_price := take_profit_price r; created_at := created_at r;
     resolved_at := Some resolvedAt |}.

(** [UPDATE recommendations SET status = ?, resolved_at = ? WHERE id = ?] *)
Definition runUpdate (db : D1Database) (i : jstring) (st : Status)
    (resolvedAt : jstring) : D1Database * D1Result :=
  let hit r := eqb (id r) i in
  ({| recommendations :=
        map (fun r => if hit r then setStatus st resolvedAt r else r)
            (recommendations db);
      positions := positions db |},
   {| success := true;
      changes := length (filter hit (recommendations db)) |}).

Definition assertSuccess (result : D1Result) : option Error :=
  if success result then None else Some D1WriteFailed.

(** The database after the statement, and the error thrown, if any. *)
Definition updateRecommendationStatus (db : D1Database) (i : jstring)
    (st : Status) (resolvedAt : jstring) : D1Database * option Error :=
  let '(db', result) := runUpdate db i st resolvedAt in
  match assertSuccess result with
  | Some e => (db', Some e)
  | None =>
      if (changes result =? 0)%nat then (db', Some (NoRowFound i))
      else (db', None)
  end.

(** [INSERT INTO positions ...] *)
Definition logTrade (db : D1Database) (trade : TradeLog)
    : D1Database * option Error :=
  let result := {| success := true; changes := 1 |} in
  let db' := {| recommendations := recommendations db;
                positions := positions db ++ [trade] |} in
  match assertSuccess result with
  | Some e => (db', Some e)
  | None => (db', None)
  end.

End Db.

(* ===================================================================== *)
(** * Handlers: the world they run in                                    *)
(* ===================================================================== *)

Module Handler.
Import Js Db.
Import Double (number).

Inductive OrderRequest :=
| MarketBuyQty (symbol : jstring) (qty : number)
| BracketBuy (symbol : jstring) (qty : number) (stopPrice takeProfitPrice : number)
| MarketSell (symbol : jstring) (qty : number).

(** The fields of an order confirmation that [orderToTradeLog] reads.  A
    decimal field is what [parseFloat] makes of its string; [None] is a
    field that is [null] or the empty string, which the code tests
    before it parses. *)
Record AlpacaOrder := {
  o_id : jstring;
  o_status : jstring;
  o_qty : option number;
  o_filled_avg_price : option number;
  o_filled_qty : option number
}.

Record AlpacaPosition := {
  symbol : jstring;
  qty : number;            (* parseFloat(position.qty) *)
  market_value : number    (* parseFloat(position.market_value) *)
}.

(** The worker environment: configuration and the brokerage behind
    [alpacaFetch].  A numeric variable holds [Number(env.X)]; for the hours
    of the expiry window [None] is [NaN]. *)
Record Env := {
  APPROVAL_EXPIRY_HOURS : option Q;
  POSITION_SIZE_USD : number;
  getPositionPrices : list jstring -> Error + (jstring -> option number);
  getPortfolio : Error + list AlpacaPosition;
  postOrder : OrderRequest -> Error + AlpacaOrder
}.

(** What a handler did to the outside, each with the database as it stood
    when the call was made. *)
Inductive Event :=
| OrderSubmitted (req : OrderRequest)
| StatusWritten (i : jstring) (st : Status)
| TradeLogged (t : TradeLog).

Record World := {
  db : D1Database;
  ticks : nat;                                   (* clock reads so far *)
  pendingRecommendationIds : list jstring;       (* DecisionAgent state *)
  trace : list (Event * D1Database)
}.

(** A handler step: it may throw, and it changes the world.  One handler
    runs from its first step to its last with no other handler in between;
    the store executes every statement it is given. *)
Definition M (A : Type) : Type := World -> (Error + A) * World.

Definition ret {A} (a : A) : M A := fun w => (inr a, w).

Definition throw {A} (e : Error) : M A := fun w => (inl e, w).

Definition bind {A B} (c : M A) (f : A -> M B) : M B :=
  fun w => match c w with
           | (inr a, w') => f a w'
           | (inl e, w') => (inl e, w')
           end.

(** [try { c } catch (err) { h err }] *)
Definition tryCatch {A} (c : M A) (h : Error -> M A) : M A :=
  fun w => match c w with
           | (inr a, w') => (inr a, w')
           | (inl e, w') => h e w'
           end.

Notation "x <- c ;; k" := (bind c (fun x => k))
  (at level 61, c at next level, right associativity).
Notation "c ;;; k" := (bind c (fun _ => k))
  (at level 61, right associativity).

Definition emit (e : Event) : M unit :=
  fun w => (inr tt,
            {| db := db w; ticks := ticks w;
               pendingRecommendationIds := pendingRecommendationIds w;
               trace := trace w ++ [(e, db w)] |}).

Definition liftResult {A} (r : Error + A) : M A :=
  fun w => (r, w).

(** A write statement of [Db]: the database moves on, and the statement's
    error, if any, is thrown. *)
Definition runStatement (f : D1Database -> D1Database * option Error) : M unit :=
  fun w =>
    let '(d, err) := f (db w) in
    (match err with Some e => inl e | None => inr tt end,
     {| db := d; ticks := ticks w;
        pendingRecommendationIds := pendingRecommendationIds w;
        trace := trace w |}).

Definition setPending (ids : list jstring) : M unit :=
  fun w => (inr tt,
            {| db := db w; ticks := ticks w;
               pendingRecommendationIds := ids;
               trace := trace w |}).

Section WithHost.
Context {host : Host}.

(** [Date.now()], and the time value of [new Date()] *)
Definition now : M Z :=
  fun w => (inr (clock (ticks w)),
            {| db := db w; ticks := S (ticks w);
               pendingRecommendationIds := pendingRecommendationIds w;
               trace := trace w |}).

Definition getRecommendation (i : jstring) : M (option RecommendationRow) :=
  fun w => (inr (Db.getRecommendation (db w) i), w).

Definition updateRecommendationStatus (i : jstring) (st : Status)
    (resolvedAt : jstring) : M unit :=
  emit (StatusWritten i st) ;;;
  runStatement (fun d => Db.updateRecommendationStatus d i st resolvedAt).

Definition logTrade (t : TradeLog) : M unit :=
  emit (TradeLogged t) ;;;
  runStatement (fun d => Db.logTrade d t).

(** [paperBuyQty], [paperBuyBracket], [paperSell]: one POST to
    [/v2/orders] each. *)
Definition submit (env : Env) (req : OrderRequest) : M AlpacaOrder :=
  emit (OrderSubmitted req) ;;; liftResult (postOrder env req).

Definition paperBuyQty (env : Env) (sym : jstring) (q : number) : M AlpacaOrder :=
  submit env (MarketBuyQty sym q).

Definition paperBuyBracket (env : Env) (sym : jstring) (q : number)
    (stopPrice takeProfitPrice : number) : M AlpacaOrder :=
  submit env (BracketBuy sym q stopPrice takeProfitPrice).

Definition paperSell (env : Env) (sym : jstring) (q : number) : M AlpacaOrder :=
  submit env (MarketSell sym q).

End WithHost.

End Handler.

(* ===================================================================== *)
(** * src/routes/approval.ts                                             *)
(* ===================================================================== *)

Module Approval.
Import Js Db Handler.
Import Double (number).

(** The bodies of the plain-text responses; their wording is not modelled. *)
Inductive Message :=
| NotFound (i : jstring)
| AlreadyResolved (st : Status)
| Expired (expiryHours : Q)
| HoldNotExecutable
| PriceUnavailable (sym : jstring)
| NotionalTooSmall (sym : jstring) (notional price : number)
| NoOpenPosition (sym : jstring)
| OrderSubmissionFailed (e : Error)
| TradeExecuted (a : Action) (sym : jstring)
| RecommendationRejected
| RejectionNotRecorded (e : Error).

Record Response := {
  body : Message;
  statusCode : Z
}.

Definition text (b : Message) (st : Z) : Response :=
  {| body := b; statusCode := st |}.

Definition MS_PER_HOUR : Q := 3600000.

(** [toRecommendation] renames the columns of a row; the row stands for the
    domain object. *)
Record ValidationResult := {
  rec : RecommendationRow;
  resolvedAt : jstring
}.

Definition nonEmpty (s : jstring) : bool :=
  match s with [] => false | _ => true end.

(** [ageMs >= limit], false when [ageMs] is [NaN]. *)
Definition ageAtLeast (nowMs : Z) (created : option Z) (limit : Q) : bool :=
  match created with
  | Some c => Qle_bool limit (inject_Z (nowMs - c))
  | None => false
  end.

Section WithHost.
Context {host : Host}.

Definition validatePending (env : Env) (i : jstring) (checkExpiry : bool)
    : M (Response + ValidationResult) :=
  r <- getRecommendation i ;;
  match r with
  | None => ret (inl (text (NotFound i) 400))
  | Some rec =>
      if negb (status_eqb (status rec) PENDING)
      then ret (inl (text (AlreadyResolved (status rec)) 400))
      else
        t <- now ;;
        let resolvedAt := toISOString t in
        if checkExpiry && nonEmpty (created_at rec) then
          let expiryHours := orDefault (APPROVAL_EXPIRY_HOURS env) 23 in
          dateNow <- now ;;
          if ageAtLeast dateNow (Date_parse (created_at rec))
                        (expiryHours * MS_PER_HOUR)
          then
            tryCatch (updateRecommendationStatus i EXPIRED resolvedAt)
                     (fun _ => ret tt) ;;;
            ret (inl (text (Expired expiryHours) 400))
          else ret (inr {| rec := rec; resolvedAt := resolvedAt |})
        else ret (inr {| rec := rec; resolvedAt := resolvedAt |})
  end.

Definition orderToTradeLog (order : AlpacaOrder) (rec : RecommendationRow)
    : TradeLog :=
  let side := match action rec with BUY => long | _ => short end in
  let filledPrice :=
    match o_filled_avg_price order with
    | Some p => p
    | None => Double.ofZ 0
    end in
  let filledQty :=
    match o_filled_qty order with
    | Some q => q
    | None => match o_qty order with Some q => q | None => Double.ofZ 0 end
    end in
  let effectiveNotional :=
    if Double.gtb filledPrice (Double.ofZ 0) && Double.gtb filledQty (Double.ofZ 0)
    then Double.mul filledPrice filledQty else notional rec in
  {| tl_ticker := Db.ticker rec; tl_side := side; tl_qty := filledQty;
     tl_price := filledPrice; tl_notional := effectiveNotional;
     tl_alpacaOrderId := o_id order; tl_recommendationId := id rec |}.

(** Step 5 of [handleApprove], the body of its [try] block: an early
    [return] of a response, or the order that was placed. *)
Definition submitOrder (env : Env) (rec : RecommendationRow)
    : M (Response + AlpacaOrder) :=
  match action rec with
  | BUY =>
      prices <- liftResult (getPositionPrices env [Db.ticker rec]) ;;
      match prices (Db.ticker rec) with
      | None => ret (inl (text (PriceUnavailable (Db.ticker rec)) 500))
      | Some currentPrice =>
          if negb (Double.truthy currentPrice)
          then ret (inl (text (PriceUnavailable (Db.ticker rec)) 500))
          else
            let wholeQty :=
              Double.floor (Double.div (notional rec) currentPrice) in
            if Double.ltb wholeQty (Double.ofZ 1)
            then ret (inl (text (NotionalTooSmall (Db.ticker rec)
                                   (notional rec) currentPrice) 400))
            else
              match stop_price rec, take_profit_price rec with
              | Some stopPrice, Some takeProfitPrice =>
                  let bracketValid :=
                    Double.ltb stopPrice currentPrice &&
                    Double.gtb takeProfitPrice currentPrice in
                  if bracketValid then
                    order <- paperBuyBracket env (Db.ticker rec) wholeQty
                                             stopPrice takeProfitPrice ;;
                    ret (inr order)
                  else
                    order <- paperBuyQty env (Db.ticker rec) wholeQty ;;
                    ret (inr order)
              | _, _ =>
                  order <- paperBuyQty env (Db.ticker rec) wholeQty ;;
                  ret (inr order)
              end
      end
  | _ =>
      positions <- liftResult (getPortfolio env) ;;
      match find (fun p => eqb (symbol p) (Db.ticker rec)) positions with
      | None => ret (inl (text (NoOpenPosition (Db.ticker rec)) 400))
      | Some position =>
          order <- paperSell env (Db.ticker rec) (qty position) ;;
          ret (inr order)
      end
  end.

Definition handleApprove (i : jstring) (env : Env) : M Response :=
  (* 1-4: validate *)
  validated <- validatePending env i true ;;
  match validated with
  | inl response => ret response
  | inr v =>
      match action (rec v) with
      | HOLD => ret (text HoldNotExecutable 400)
      | _ =>
          (* 5: submit order to Alpaca *)
          placed <- tryCatch (submitOrder env (rec v))
                      (fun err => ret (inl (text (OrderSubmissionFailed err) 500))) ;;
          match placed with
          | inl response => ret response
          | inr order =>
              (* 6: write position record to D1 *)
              tryCatch (logTrade (orderToTradeLog order (rec v)))
                       (fun _ => ret tt) ;;;
              (* 7: transition recommendation to APPROVED *)
              tryCatch (updateRecommendationStatus i APPROVED (resolvedAt v))
                       (fun _ => ret tt) ;;;
              ret (text (TradeExecuted (action (rec v)) (Db.ticker (rec v))) 200)
          end
      end
  end.

Definition handleReject (i : jstring) (env : Env) : M Response :=
  validated <- validatePending env i false ;;
  match validated with
  | inl response => ret response
  | inr v =>
      tryCatch
        (updateRecommendationStatus i REJECTED (resolvedAt v) ;;;
         ret (text RecommendationRejected 200))
        (fun err => ret (text (RejectionNotRecorded err) 500))
  end.

End WithHost.

End Approval.

(* ===================================================================== *)
(** * src/agents/formScanner.ts: DecisionAgent                           *)
(* ===================================================================== *)

Module DecisionAgent.
Import Js Db Handler.
Import Double (number).

Section WithHost.
Context {host : Host}.

(** The scheduled callback for auto-expiry. *)
Definition expireRecommendation (payloadId : jstring) : M unit :=
  tryCatch
    (t <- now ;;
     updateRecommendationStatus payloadId EXPIRED (toISOString t) ;;;
     fun w =>
       setPending (filter (fun i => negb (eqb i payloadId))
                          (pendingRecommendationIds w)) w)
    (fun _ => ret tt).

End WithHost.

(** ** The guard loop of [decide] (step 4) *)

Record LlmDecision := {
  d_action : Action;
  d_ticker : jstring;
  d_reasoning : jstring;
  d_notional : option number;
  d_qty : option number;
  d_stopPrice : option number;
  d_takeProfitPrice : option number
}.

(** [Omit<Recommendation, "id">], as handed to [insertRecommendation]. *)
Record NewRecommendation := {
  r_ticker : jstring;
  r_action : Action;
  r_reasoning : jstring;
  r_signalId : Z;
  r_status : Status;
  r_notional : number;
  r_stopPrice : option number;
  r_takeProfitPrice : option number
}.

(** What is fixed before the loop starts. *)
Record RunContext := {
  env : Env;
  positions : list AlpacaPosition;
  prices : jstring -> option number;
  signalIdByTicker : jstring -> option Z;
  fallbackSignalId : Z
}.

(** The loop state: the counter, and the recommendations that passed every
    guard, in order.  Each of them is then persisted, announced and given an
    expiry timer; none of that reads or writes the counter (a failed insert
    skips the announcement with [continue], after the decrement).  The
    counter starts at the number [getBuyingPower] parsed from the account,
    or at 0 when that fetch failed. *)
Record LoopState := {
  remainingBuyingPower : number;
  accepted : list NewRecommendation
}.

Definition held (ctx : RunContext) (t : jstring) : bool :=
  existsb (fun p => eqb (symbol p) t) (positions ctx).

Definition isBuy (a : Action) : bool := match a with BUY => true | _ => false end.
Definition isSell (a : Action) : bool := match a with SELL => true | _ => false end.
Definition isHold (a : Action) : bool := match a with HOLD => true | _ => false end.

(** [n ?? 0] *)
Definition orZero (n : option number) : number :=
  match n with Some q => q | None => Double.ofZ 0 end.

Definition resolveNotional (ctx : RunContext) (d : LlmDecision) : number :=
  if isBuy (d_action d) then
    match d_notional d with
    | Some n => n
    | None => Double.orDefault (POSITION_SIZE_USD (env ctx)) (Double.ofZ 10000)
    end
  else
    match find (fun p => eqb (symbol p) (d_ticker d)) (positions ctx) with
    | Some position => market_value position
    | None => Double.mul (orZero (d_qty d)) (orZero (prices ctx (d_ticker d)))
    end.

Definition mkRecommendation (ctx : RunContext) (d : LlmDecision) (notional : number)
    : NewRecommendation :=
  {| r_ticker := d_ticker d; r_action := d_action d;
     r_reasoning := d_reasoning d;
     r_signalId := match signalIdByTicker ctx (d_ticker d) with
                   | Some s => s
                   | None => fallbackSignalId ctx
                   end;
     r_status := PENDING; r_notional := notional;
     r_stopPrice := d_stopPrice d; r_takeProfitPrice := d_takeProfitPrice d |}.

(** One iteration of [for (const decision of decisions)]. *)
Definition decideStep (ctx : RunContext) (st : LoopState) (d : LlmDecision)
    : LoopState :=
  if isHold (d_action d) then st
  else if isBuy (d_action d) && held ctx (d_ticker d) then st
  else if isSell (d_action d) && negb (held ctx (d_ticker d)) then st
  else
    let notional := resolveNotional ctx d in
    if isBuy (d_action d) then
      if Double.ltb (remainingBuyingPower st) notional then st
      else
        {| remainingBuyingPower := Double.sub (remainingBuyingPower st) notional;
           accepted := accepted st ++ [mkRecommendation ctx d notional] |}
    else
      {| remainingBuyingPower := remainingBuyingPower st;
         accepted := accepted st ++ [mkRecommendation ctx d notional] |}.

Definition decideLoop (ctx : RunContext) (buyingPower : number)
    (decisions : list LlmDecision) : LoopState :=
  fold_left (decideStep ctx) decisions
            {| remainingBuyingPower := buyingPower; accepted := [] |}.

End DecisionAgent.

(* ===================================================================== *)
(** * src/agents/formScanner.ts and src/tools/db.ts: creating the
      recommendations                                                    *)
(* ===================================================================== *)

Module Creation.
Import Js Db Handler DecisionAgent.

(** Modelled from the spec: [db/schema.sql] is not among the sources.  The
    column [id] is the primary key of [recommendations] (the comment of
    [insertRecommendation] says so), so an INSERT with a stored id fails;
    [created_at] is not among the inserted columns and takes the default
    of the column, here [createdAt]; [resolved_at] starts as NULL. *)
Definition newRow (uuid createdAt : jstring) (rec : NewRecommendation)
    : RecommendationRow :=
  {| id := uuid; ticker := r_ticker rec; action := r_action rec;
     reasoning := r_reasoning rec; signal_id := r_signalId rec;
     status := r_status rec; notional := r_notional rec;
     stop_price := r_stopPrice rec;
     take_profit_price := r_takeProfitPrice rec;
     created_at := createdAt; resolved_at := None |}.

(** [insertRecommendation], with the UUID that [crypto.randomUUID()] drew:
    the database after the statement, and the id returned or the error
    thrown. *)
Definition insertRecommendation (db : D1Database) (uuid createdAt : jstring)
    (rec : NewRecommendation) : D1Database * (Error + jstring) :=
  if existsb (fun r => eqb (id r) uuid) (recommendations db)
  then (db, inl D1WriteFailed)
  else
    let result := {| success := true; changes := 1 |} in
    let db' := {| recommendations :=
                    recommendations db ++ [newRow uuid createdAt rec];
                  Db.positions := Db.positions db |} in
    match assertSuccess result with
    | Some e => (db', inl e)
    | None => (db', inr uuid)
    end.

(** What a run of [decide] draws from outside while it creates the
    recommendations: the [n]-th UUID, the [n]-th default of [created_at],
    and whether [sendApprovalMessage] delivers the card of a recommendation
    ([false]: it throws). *)
Record Outside := {
  randomUUID : nat -> jstring;
  createdAtDefault : nat -> jstring;
  cardDelivered : jstring -> bool
}.

(** What the run does, in order. *)
Inductive RunEvent :=
| InsertFailed (ticker : jstring)
| RowInserted (recId : jstring)
| CardSent (recId : jstring) (delivered : bool)
| TimerScheduled (hours : Q) (recId : jstring).

Record RunState := {
  store : D1Database;
  drawn : nat;                      (* UUIDs drawn so far *)
  newPendingIds : list jstring;
  journal : list RunEvent
}.

(** [Number(env.APPROVAL_EXPIRY_HOURS) || 23]: the hours of which
    [expirySeconds] is the multiple by 3600.  The timer is recorded with
    its hours. *)
Definition expiryHours (env : Env) : Q :=
  orDefault (APPROVAL_EXPIRY_HOURS env) 23.

(** The rest of one iteration of the loop of [decide], for a recommendation
    that passed the guards: persist it, send the approval card, schedule
    the expiry, note the id.  A failed insert ends the iteration; a failed
    card does not.  [this.schedule] is taken to succeed. *)
Definition createStep (out : Outside) (env : Env) (st : RunState)
    (rec : NewRecommendation) : RunState :=
  let uuid := randomUUID out (drawn st) in
  match insertRecommendation (store st) uuid (createdAtDefault out (drawn st)) rec with
  | (db', inl _) =>
      {| store := db'; drawn := S (drawn st);
         newPendingIds := newPendingIds st;
         journal := journal st ++ [InsertFailed (r_ticker rec)] |}
  | (db', inr recId) =>
      {| store := db'; drawn := S (drawn st);
         newPendingIds := newPendingIds st ++ [recId];
         journal := journal st ++
                    [RowInserted recId; CardSent recId (cardDelivered out recId);
                     TimerScheduled (expiryHours env) recId] |}
  end.

(** Step 4 of [decide]: the guards select the recommendations, and each of
    them is created in turn.  The guards neither see nor change what the
    creation does, so running them first gives the same journal and the
    same store as the loop that alternates them. *)
Definition createAll (out : Outside) (ctx : RunContext)
    (buyingPower : Double.number)
    (decisions : list LlmDecision) (st : RunState) : RunState :=
  fold_left (createStep out (env ctx))
            (accepted (decideLoop ctx buyingPower decisions)) st.

(** [this.setState({ pendingRecommendationIds: [...old, ...newPendingIds] })] *)
Definition pendingAfter (old : list jstring) (st : RunState) : list jstring :=
  old ++ newPendingIds st.

End Creation.

(* ===================================================================== *)
(** * src/tools/edgar                                                    *)
(* ===================================================================== *)

Module Edgar.
Import Js Scoring.

Section BatchedSettle.
Context {T : Type}.

(** How the promise [fn(item)] settles: fulfilled with filings, or
    rejected ([None]). *)
Variable fn : T -> option (list Filing).

(** [for (const r of settled) if (r.status === "fulfilled") results.push(...r.value)] *)
Definition fulfilled (settled : list (option (list Filing))) : list Filing :=
  flat_map (fun r => match r with Some value => value | None => [] end) settled.

(** The loop [for (let i = 0; i < items.length; i += concurrency)], for a
    [concurrency] that is a non-negative integer.  The loop need not end,
    so it runs on [fuel]: [None] when the fuel is used up before the loop
    condition fails. *)
Fixpoint batchedSettleLoop (fuel : nat) (items : list T) (concurrency : nat)
    (i : nat) (results : list Filing) : option (list Filing) :=
  match fuel with
  | O => None
  | S fuel' =>
      if (i <? length items)%nat then
        let settled := map fn (firstn concurrency (skipn i items)) in
        batchedSettleLoop fuel' items concurrency (i + concurrency)
                          (results ++ fulfilled settled)
      else Some results
  end.

Definition batchedSettle (fuel : nat) (items : list T) (concurrency : nat)
    : option (list Filing) :=
  batchedSettleLoop fuel items concurrency 0 [].

End BatchedSettle.

(** The places at which [fetchForm4s] throws: the search request does not
    get through, is answered with a status that is not 2xx, with a body
    that is not JSON, or with JSON of another shape. *)
Inductive FetchError :=
| EftsUnreachable
| EftsStatus (status : Z)
| EftsNotJson
| EftsShape.

Section WithHost.
Context {host : Host}.

(** [d.setUTCDate(d.getUTCDate() - 1)] moves the time value back by one
    day; the clock is taken to be more than the lookback inside the range
    of time values. *)
Definition getYesterday : Clk jstring :=
  bind newDate (fun d => ret (slice0 10 (toISOString (d - 1 * msPerDay)))).

(** [daysAgo(n)], for an integer [n]. *)
Definition daysAgo (n : Z) : Clk jstring :=
  bind newDate (fun d => ret (slice0 10 (toISOString (d - n * msPerDay)))).

(** [fetchForm4s].  It reads the clock for the end of the window, and once
    more for its start when the lookback exceeds one day.  What follows
    (the search request for that window, the validation of the answer, the
    fetch and parse of every hit through [batchedSettle]) reads no clock
    and is the exchange [search]: it throws, or gives the filings.  The
    exchange is told apart by the number of clock reads before it, as two
    requests for the same window need not be answered alike. *)
Definition fetchForm4s
    (search : nat -> jstring -> jstring -> FetchError + list Filing)
    (lookbackDays : Z) : Clk (FetchError + list Filing) :=
  bind getYesterday (fun endDate =>
  bind (if 1 <? lookbackDays then daysAgo lookbackDays else ret endDate)
       (fun startDate =>
  fun n => (search n startDate endDate, n))).

End WithHost.

End Edgar.

(* ===================================================================== *)
(** * src/tools/telegram                                                 *)
(* ===================================================================== *)

Module Telegram.
Import Js.

(** The class [[*_`[]]. *)
Definition isMdSpecial (c : N) : bool :=
  ((c =? 42) || (c =? 95) || (c =? 96) || (c =? 91))%N.

(** [text.replace(/([*_`[])/g, "\\$1")]: every code unit of the class is
    replaced by a backslash and itself. *)
Definition escapeMd (text : jstring) : jstring :=
  flat_map (fun c => if isMdSpecial c then [92%N; c] else [c]) text.

End Telegram.

(* ===================================================================== *)
(** * src/agents/formScanner.ts: FormScannerAgent                        *)
(* ===================================================================== *)

Module FormScanner.
Import Js Scoring Edgar.

Section WithHost.
Context {host : Host}.

(** [filings.some((f) => f.transactionType === "P")] *)
Definition hadPurchases (filings : list Filing) : bool :=
  existsb (fun f => isP (transactionType f)) filings.

(** Steps 1, 1b and 2 of [run]: what it throws, or the signals it goes on
    to persist and return.  Step 3 stores the signals and writes the row
    ids into them; it does not add, drop or reorder signals, and is not
    modelled. *)
Definition run (search : nat -> jstring -> jstring -> FetchError + list Filing)
    : Clk (FetchError + list ScoredSignal) :=
  bind newDate (fun runStartedAt =>
  bind (fetchForm4s search 1) (fun fetched =>
  match fetched with
  | inl err => ret (inl err)
  | inr filings =>
      bind (if negb (hadPurchases filings) then
              bind (fetchForm4s search 3) (fun wider =>
              match wider with
              | inr filings' => ret filings'
              | inl _ => ret filings   (* fall through with whatever we have *)
              end)
            else ret filings)
           (fun filings =>
      bind (scoreSignals filings 10) (fun signals => ret (inr signals)))
  end)).

End WithHost.

End FormScanner.

(* ===================================================================== *)
(** * The worker entry point: parseScheduleCommand                       *)
(* ===================================================================== *)

Module Worker.
Import Js.

(** What the two time patterns find in the text: the groups of the first
    match of [ampmRe], read by [parseInt], or else those of [h24Re], or
    nothing.  Group 1 of [ampmRe] is one or two digits, group 2 two digits
    when present. *)
Inductive TimeMatch :=
| AmPm (h : N) (m : option N) (pm : bool)
| H24 (h m : N).

(** The day-of-week field of the cron string. *)
Inductive CronDays := EveryDay | DayRange (first last : N).

(** The numbers and choices from which [cron] and [label] are printed. *)
Record Schedule := {
  cronMinutes : N;
  cronHours : N;
  cronDays : CronDays;
  labelH12 : N;
  labelMinutes : N;
  labelPM : bool;
  labelWeekdays : bool
}.

(** [parseScheduleCommand], after the patterns have been applied:
    [isWeekdays] is the result of the third pattern's [test]. *)
Definition parseScheduleCommand (timeMatch : option TimeMatch)
    (isWeekdays : bool) : option Schedule :=
  (let parsed :=
    match timeMatch with
    | Some (AmPm h m pm) =>
        let hours := h in
        let minutes := match m with Some m => m | None => 0 end in
        let hours := if pm && negb (hours =? 12) then hours + 12 else hours in
        let hours := if negb pm && (hours =? 12) then 0 else hours in
        Some (hours, minutes)
    | Some (H24 h m) => Some (h, m)
    | None => None
    end in
  match parsed with
  | None => None
  | Some (hours, minutes) =>
      if (23 <? hours) || (59 <? minutes) then None
      else
        let utcHours := hours + 6 in
        let rollsOver := 24 <=? utcHours in
        let utcHours := if rollsOver then utcHours - 24 else utcHours in
        let days :=
          if isWeekdays
          then (if rollsOver then DayRange 2 6 else DayRange 1 5)
          else EveryDay in
        let h12 := if 12 <? hours then hours - 12
                   else if hours =? 0 then 12 else hours in
        Some {| cronMinutes := minutes; cronHours := utcHours;
                cronDays := days; labelH12 := h12; labelMinutes := minutes;
                labelPM := 12 <=? hours; labelWeekdays := isWeekdays |}
  end)%N.

End Worker.

(* ===================================================================== *)
(** * Vocabulary of the properties                                       *)
(* ===================================================================== *)

Section ScoringVocabulary.
Import Js Scoring.
Context {host : Host}.

(** The sum of the four factors of a signal. *)
Definition rawTotal (s : ScoredSignal) : Z :=
  roleFactor (scoreBreakdown s) + valueFactor (scoreBreakdown s) +
  clusterBonus (scoreBreakdown s) + recencyFactor (scoreBreakdown s).

(** What [buildSignal] guarantees of the signal it returns. *)
Record Built (f : Filing) (inCluster : bool) (s : ScoredSignal) : Prop := {
  built_filing : filing s = f;
  built_cluster : clusterBonus (scoreBreakdown s) = if inCluster then 20 else 0;
  built_score : score s = Z.min (rawTotal s) 100;
  built_raw : 5 <= rawTotal s <= 100;
  built_total : sumTotal (breakdownSummary s) = score s;
  built_capped :
    sumCappedFrom (breakdownSummary s) =
    if rawTotal s >? 100 then Some (rawTotal s) else None
}.

(** [a] may stand before [b] in a list sorted by score, highest first. *)
Definition geScore (a b : ScoredSignal) : Prop := score b <= score a.

(** The purchases of the batch, in order. *)
Definition purchasesOf (filings : list Filing) : list Filing :=
  filter (fun f => isP (transactionType f)) filings.

(** The signals before sorting and slicing. *)
Definition scoredOf (filings : list Filing) (n : nat) : list ScoredSignal :=
  fst (mapM (fun f => buildSignal f
                        (has (detectClusters (purchasesOf filings)) (filingKey f)))
            (purchasesOf filings) n).

(** [a] stands before [b] in [l]. *)
Definition Before (a b : Filing) (l : list Filing) : Prop :=
  exists l1 l2 l3, l = l1 ++ a :: l2 ++ b :: l3.

(** [f] is a filing on ticker [t]. *)
Definition onTicker (t : jstring) (f : Filing) : bool := eqb t (ticker f).

(** The loop over the groups, from any set accumulated so far. *)
Definition clusterGroups (groups : Groups) (acc : list jstring) : list jstring :=
  fold_left (fun clustered kg =>
               let group := snd kg in
               if (length group <? 2)%nat then clustered
               else scanGroup group clustered)
            groups acc.

(** The invariant of the grouping loop: after the filings [seen], the map has
    one entry per ticker seen, holding the filings on that ticker in the
    order met. *)
Record GroupsOk (seen : list Filing) (groups : Groups) : Prop := {
  groups_nodup : NoDup (map fst groups);
  groups_filter :
    forall t g, In (t, g) groups -> g = filter (onTicker t) seen;
  groups_cover :
    forall f, In f seen -> In (ticker f) (map fst groups)
}.

End ScoringVocabulary.

Section DecisionVocabulary.
Import Js Db Handler DecisionAgent.
Import Double (number).

(** The exact sum of the notionals of the BUY recommendations of a list;
    [None] when one of them is not a finite number. *)
Fixpoint buyNotional (l : list NewRecommendation) : option Q :=
  match l with
  | [] => Some 0%Q
  | r :: l' =>
      match (if isBuy (r_action r) then Double.toQ (r_notional r)
             else Some 0%Q), buyNotional l' with
      | Some n, Some rest => Some (n + rest)%Q
      | _, _ => None
      end
  end.

(** The counter goes from [before] to [after] along the recommendations:
    each BUY among them passed the test [remaining < notional] against the
    counter that the BUYs before it had left, and lowered that counter by
    its notional, in double arithmetic; the others leave the counter
    alone. *)
Inductive Earmarked : number -> list NewRecommendation -> number -> Prop :=
| Earmarked_none before : Earmarked before [] before
| Earmarked_BUY before r l after :
    r_action r = BUY ->
    Double.ltb before (r_notional r) = false ->
    Earmarked (Double.sub before (r_notional r)) l after ->
    Earmarked before (r :: l) after
| Earmarked_other before r l after :
    r_action r <> BUY ->
    Earmarked before l after ->
    Earmarked before (r :: l) after.

End DecisionVocabulary.

Section ApprovalVocabulary.
Import Js Db Handler Approval.
Context {host : Host}.

(** The recommendation [i] is stored with status [st]. *)
Definition statusIs (d : D1Database) (i : jstring) (st : Status) : Prop :=
  exists r, Db.getRecommendation d i = Some r /\ status r = st.

(** The responses with which step 5 gives up. *)
Definition gaveUp (m : Message) : Prop :=
  match m with
  | PriceUnavailable _ | NotionalTooSmall _ _ _ | NoOpenPosition _ => True
  | _ => False
  end.

(** Step 5 does not touch the store.  It returns early without an order,
    or it submits exactly one order, which the brokerage accepts or
    refuses; before the submission it can only fail in a brokerage read. *)
Definition StepFive (env : Env) (w : World)
    (out : (Error + (Response + AlpacaOrder)) * World) : Prop :=
  let '(res, w') := out in
  db w' = db w /\
  match res with
  | inr (inl resp) =>
      trace w' = trace w /\ gaveUp (body resp) /\ 400 <= statusCode resp
  | inr (inr order) =>
      exists req, postOrder env req = inr order /\
                  trace w' = trace w ++ [(OrderSubmitted req, db w)]
  | inl e =>
      trace w' = trace w \/
      exists req, postOrder env req = inl e /\
                  trace w' = trace w ++ [(OrderSubmitted req, db w)]
  end.

(** Every way in which [handleApprove] can end. *)
Inductive ApproveOutcome (i : jstring) (env : Env) (w : World)
    (resp : Response) (w' : World) : Prop :=
| NotActionable :
    ~ statusIs (db w) i PENDING ->
    body resp = NotFound i \/ (exists st, body resp = AlreadyResolved st) ->
    statusCode resp = 400 -> w' = w ->
    ApproveOutcome i env w resp w'
| FoundExpired :
    statusIs (db w) i PENDING ->
    (exists h, body resp = Expired h) -> statusCode resp = 400 ->
    db w' = fst (runUpdate (db w) i EXPIRED (toISOString (clock (ticks w)))) ->
    trace w' = trace w ++ [(StatusWritten i EXPIRED, db w)] ->
    ApproveOutcome i env w resp w'
| HoldRefused :
    statusIs (db w) i PENDING ->
    body resp = HoldNotExecutable -> statusCode resp = 400 ->
    db w' = db w -> trace w' = trace w ->
    ApproveOutcome i env w resp w'
| GaveUp :
    statusIs (db w) i PENDING ->
    gaveUp (body resp) -> 400 <= statusCode resp ->
    db w' = db w -> trace w' = trace w ->
    ApproveOutcome i env w resp w'
| SubmissionFailed (e : Error) :
    statusIs (db w) i PENDING ->
    body resp = OrderSubmissionFailed e -> statusCode resp = 500 ->
    db w' = db w ->
    (trace w' = trace w \/
     exists req, postOrder env req = inl e /\
                 trace w' = trace w ++ [(OrderSubmitted req, db w)]) ->
    ApproveOutcome i env w resp w'
| Executed (r : RecommendationRow) (req : OrderRequest) (order : AlpacaOrder) :
    Db.getRecommendation (db w) i = Some r -> status r = PENDING ->
    postOrder env req = inr order ->
    body resp = TradeExecuted (action r) (Db.ticker r) -> statusCode resp = 200 ->
    trace w' =
      trace w ++
      [(OrderSubmitted req, db w);
       (TradeLogged (orderToTradeLog order r), db w);
       (StatusWritten i APPROVED,
        fst (Db.logTrade (db w) (orderToTradeLog order r)))] ->
    statusIs (db w') i APPROVED ->
    ApproveOutcome i env w resp w'.

(** The responses of a failure in step 5. *)
Definition failedInStepFive (m : Message) : Prop :=
  match m with
  | PriceUnavailable _ | NotionalTooSmall _ _ _ | NoOpenPosition _
  | OrderSubmissionFailed _ => True
  | _ => False
  end.

End ApprovalVocabulary.

Section DecisionGuardVocabulary.
Import Js Db Handler DecisionAgent.

(** [sub] is [l] with some elements left out, the others in order. *)
Inductive Subseq {A} : list A -> list A -> Prop :=
| Subseq_nil : Subseq [] []
| Subseq_skip x sub l : Subseq sub l -> Subseq sub (x :: l)
| Subseq_keep x sub l : Subseq sub l -> Subseq (x :: sub) (x :: l).

(** The recommendation that the loop builds for decision [d]. *)
Definition recommendationFor (ctx : RunContext) (d : LlmDecision)
    : NewRecommendation :=
  mkRecommendation ctx d (resolveNotional ctx d).

(** Decision [d] passes the guards on action and holdings. *)
Definition passesHoldingGuards (ctx : RunContext) (d : LlmDecision) : Prop :=
  d_action d <> HOLD /\
  (d_action d = BUY -> held ctx (d_ticker d) = false) /\
  (d_action d = SELL -> held ctx (d_ticker d) = true).

End DecisionGuardVocabulary.

Section ApprovalOrderVocabulary.
Import Js Db Handler Approval.

(** The one order that step 5 of [handleApprove] can submit for the
    recommendation [r].  A BUY needs a quote that is neither missing, zero
    nor [NaN]; it is for [Math.floor(notional / quote)] shares, computed on
    doubles, a number that is not below 1; it is a bracket order when both
    levels are stored and enclose the quote, else a plain market order.  A
    SELL is for the quantity of the first held position on the ticker. *)
Definition orderFor (env : Env) (r : RecommendationRow) (req : OrderRequest)
    : Prop :=
  match action r with
  | BUY =>
      exists prices p,
        getPositionPrices env [Db.ticker r] = inr prices /\
        prices (Db.ticker r) = Some p /\ Double.truthy p = true /\
        let wholeQty := Double.floor (Double.div (notional r) p) in
        Double.ltb wholeQty (Double.ofZ 1) = false /\
        ((exists sp tp,
            stop_price r = Some sp /\ take_profit_price r = Some tp /\
            Double.ltb sp p = true /\ Double.gtb tp p = true /\
            req = BracketBuy (Db.ticker r) wholeQty sp tp) \/
         (req = MarketBuyQty (Db.ticker r) wholeQty /\
          ~ (exists sp tp,
               stop_price r = Some sp /\ take_profit_price r = Some tp /\
               Double.ltb sp p = true /\ Double.gtb tp p = true)))
  | _ =>
      exists held position,
        getPortfolio env = inr held /\
        find (fun x => eqb (symbol x) (Db.ticker r)) held = Some position /\
        req = MarketSell (Db.ticker r) (qty position)
  end.

(** The orders in the trace of [w'] are those in the trace of [w], or
    satisfy [P]. *)
Definition OrdersGrowBy (w w' : World) (P : OrderRequest -> Prop) : Prop :=
  forall req d, In (OrderSubmitted req, d) (trace w') ->
                In (OrderSubmitted req, d) (trace w) \/ P req.

End ApprovalOrderVocabulary.

Section CreationVocabulary.
Import Js Db Handler DecisionAgent Creation.

(** How one iteration of the creating loop ends. *)
Inductive Outcome :=
| NotCreated (ticker : jstring)
| Created (recId : jstring) (cardDelivered : bool).

(** What an iteration with that outcome does, in order: nothing but the
    failed insert, or the insert, then the card, then the timer. *)
Definition eventsOf (hours : Q) (o : Outcome) : list RunEvent :=
  match o with
  | NotCreated t => [InsertFailed t]
  | Created i delivered =>
      [RowInserted i; CardSent i delivered; TimerScheduled hours i]
  end.

Definition createdIds (os : list Outcome) : list jstring :=
  flat_map (fun o => match o with
                     | NotCreated _ => []
                     | Created i _ => [i]
                     end) os.

End CreationVocabulary.

Section TelegramVocabulary.
Import Js Telegram.

(** Reading an escaped text back: a backslash in front of a code unit of
    the class stands for that code unit. *)
Fixpoint unescapeMd (s : jstring) : jstring :=
  match s with
  | [] => []
  | c :: rest =>
      match rest with
      | d :: rest' =>
          if ((c =? 92)%N && isMdSpecial d)%bool then d :: unescapeMd rest'
          else c :: unescapeMd rest
      | [] => [c]
      end
  end.

(** No code unit of the class stands without a backslash right before it;
    [prev] is the code unit before [s]. *)
Fixpoint noBareSpecial (prev : option N) (s : jstring) : bool :=
  match s with
  | [] => true
  | c :: rest =>
      (negb (isMdSpecial c) ||
       match prev with Some p => (p =? 92)%N | None => false end) &&
      noBareSpecial (Some c) rest
  end.

End TelegramVocabulary.

Section ApprovalFailureVocabulary.
Import Js Db Handler Approval.

(** The ways in which step 5 of [handleApprove] fails for the
    recommendation [r], each with the body of the answer: a BUY with the
    quote unavailable (missing, zero or [NaN]), or with
    [Math.floor(notional / quote)] below 1; a SELL with no position on the
    ticker; a brokerage read that throws; the order refused. *)
Inductive StepFiveFails (env : Env) (r : RecommendationRow) : Message -> Prop :=
| QuoteFetchThrows e :
    action r = BUY ->
    getPositionPrices env [Db.ticker r] = inl e ->
    StepFiveFails env r (OrderSubmissionFailed e)
| QuoteUnavailable prices :
    action r = BUY ->
    getPositionPrices env [Db.ticker r] = inr prices ->
    (prices (Db.ticker r) = None \/
     exists p, prices (Db.ticker r) = Some p /\ Double.truthy p = false) ->
    StepFiveFails env r (PriceUnavailable (Db.ticker r))
| BelowOneShare prices p :
    action r = BUY ->
    getPositionPrices env [Db.ticker r] = inr prices ->
    prices (Db.ticker r) = Some p -> Double.truthy p = true ->
    Double.ltb (Double.floor (Double.div (notional r) p)) (Double.ofZ 1) = true ->
    StepFiveFails env r (NotionalTooSmall (Db.ticker r) (notional r) p)
| PortfolioFetchThrows e :
    action r = SELL ->
    getPortfolio env = inl e ->
    StepFiveFails env r (OrderSubmissionFailed e)
| NothingToSell held :
    action r = SELL ->
    getPortfolio env = inr held ->
    find (fun x => eqb (symbol x) (Db.ticker r)) held = None ->
    StepFiveFails env r (NoOpenPosition (Db.ticker r))
| OrderRefused req e :
    action r <> HOLD ->
    orderFor env r req ->
    postOrder env req = inl e ->
    StepFiveFails env r (OrderSubmissionFailed e).

End ApprovalFailureVocabulary.

Section CreationOutcomeVocabulary.
Import Js Db Handler DecisionAgent Creation.

(** Outcome [o] is that of the iteration which drew the [k]-th UUID for the
    recommendation [rec], in a run that ends with the store [final]: the
    insert failed because that UUID is the id of a stored row; or the row
    of [rec] is stored under that UUID, and the card went out or did not as
    the channel had it. *)
Definition OutcomeAt (out : Outside) (final : D1Database)
    (at_ : nat * NewRecommendation) (o : Outcome) : Prop :=
  let '(k, rec) := at_ in
  match o with
  | NotCreated t =>
      t = r_ticker rec /\
      In (randomUUID out k) (map id (recommendations final))
  | Created i delivered =>
      i = randomUUID out k /\ delivered = cardDelivered out i /\
      In (newRow i (createdAtDefault out k) rec) (recommendations final)
  end.

(** No outcome is a failed insert. *)
Definition allCreated (os : list Outcome) : Prop :=
  Forall (fun o => match o with Created _ _ => True | NotCreated _ => False end) os.

End CreationOutcomeVocabulary.

(* ===================================================================== *)
(** * Concrete scenarios                                                 *)
(* ===================================================================== *)

Module Scenario.
Import Js Scoring Db Handler Approval DecisionAgent.

(** 2024-11-01T18:00:00.123Z *)
Definition t0 : Z := 1730484000123.

(** A host whose clock stands still on 2024-11-01. *)
Definition frozen : Host :=
  {| Date_parse := parseDateOnly; clock := fun _ => t0 |}.

(** A host whose clock shows 2024-11-01 at its first read and 2024-11-03 at
    every later one. *)
Definition passing : Host :=
  {| Date_parse := parseDateOnly;
     clock := fun n => if (n <? 1)%nat then t0 else t0 + 2 * msPerDay |}.

Definition mkFiling (t name role date : string) (ty : TransactionType) (v : Q)
    : Filing :=
  {| Scoring.ticker := str t; insiderName := str name; insiderRole := str role;
     transactionDate := str date; transactionType := ty;
     transactionValue := v; sharesTraded := 1; pricePerShare := v;
     rawXml := [] |}.

(** The mock filings of the scoring test, with today = 2024-11-01. *)
Definition mockFilings : list Filing :=
  [ mkFiling "MEGA" "Jane Doe" "Chief Executive Officer (CEO)" "2024-11-01"
             TxP 1500000;
    mkFiling "CLUSTER" "Alice Smith" "Director" "2024-10-31" TxP 200000;
    mkFiling "CLUSTER" "Bob Jones" "Director" "2024-11-01" TxP 75000;
    mkFiling "SMALL" "Carol White" "Vice President of Operations" "2024-10-22"
             TxP 8500;
    mkFiling "OPTS" "Dave Black" "CEO" "2024-11-01" TxA 2000000;
    mkFiling "SELL" "Eve Green" "CFO" "2024-11-01" TxS 500000 ].

(** One purchase, dated 2024-11-01. *)
Definition onePurchase : list Filing :=
  [ mkFiling "MEGA" "Jane Doe" "CEO" "2024-11-01" TxP 1500000 ].

(** A whole number of dollars, or of shares. *)
Definition dollars (n : Z) : Double.number := Double.ofZ n.

Definition mkRow (i : string) (a : Action) (st : Status) (n : Double.number)
    (created : string) (resolved : option jstring) : RecommendationRow :=
  {| id := str i; Db.ticker := str "AAPL"; action := a;
     reasoning := str "insider cluster"; signal_id := 1; status := st;
     notional := n; stop_price := None; take_profit_price := None;
     created_at := str created; resolved_at := resolved |}.

Definition worldWith (row : RecommendationRow) : World :=
  {| db := {| recommendations := [row]; Db.positions := [] |};
     ticks := 0;
     pendingRecommendationIds := [id row];
     trace := [] |}.

(** A BUY of $500 created on the day of the clock: 18 hours old. *)
Definition freshBuy : RecommendationRow :=
  mkRow "rec-1" BUY PENDING (dollars 500) "2024-11-01" None.

(** The same, created two days earlier: 66 hours old. *)
Definition staleBuy : RecommendationRow :=
  mkRow "rec-1" BUY PENDING (dollars 500) "2024-10-30" None.

(** The same, approved at noon. *)
Definition approvedBuy : RecommendationRow :=
  mkRow "rec-1" BUY APPROVED (dollars 500) "2024-11-01"
        (Some (str "2024-11-01T12:00:00.000Z")).

Definition filled : AlpacaOrder :=
  {| o_id := str "order-1"; o_status := str "accepted"; o_qty := Some (dollars 5);
     o_filled_avg_price := None; o_filled_qty := None |}.

(** A brokerage that quotes every symbol at [price] and accepts every
    order. *)
Definition brokerage (price : option Double.number) : Env :=
  {| APPROVAL_EXPIRY_HOURS := None; POSITION_SIZE_USD := Double.NaN;
     getPositionPrices := fun _ => inr (fun _ => price);
     getPortfolio := inr [];
     postOrder := fun _ => inr filled |}.

(** A brokerage that quotes at $100 and refuses every order. *)
Definition refusing : Env :=
  {| APPROVAL_EXPIRY_HOURS := None; POSITION_SIZE_USD := Double.NaN;
     getPositionPrices := fun _ => inr (fun _ => Some (dollars 100));
     getPortfolio := inr [];
     postOrder := fun _ => inl (AlpacaError 403) |}.

Definition runContext : RunContext :=
  {| env := brokerage (Some (dollars 100)); DecisionAgent.positions := [];
     prices := fun _ => None; signalIdByTicker := fun _ => None;
     fallbackSignalId := 1 |}.

Definition buy (t : string) (n : Double.number) : LlmDecision :=
  {| d_action := BUY; d_ticker := str t; d_reasoning := str "cluster";
     d_notional := Some n; d_qty := None; d_stopPrice := None;
     d_takeProfitPrice := None |}.

(** A fetch that is fulfilled with one purchase for an even item and
    rejected for an odd one. *)
Definition settles (item : nat) : option (list Filing) :=
  if Nat.even item then Some onePurchase else None.

(** Loop state with $1000 of buying power and nothing accepted yet. *)
Definition funded : LoopState :=
  {| remainingBuyingPower := dollars 1000; accepted := [] |}.

(** "schedule 6:30 PM weekdays": 18:30 CST is 00:30 UTC on the next day. *)
Definition eveningWeekdays : Worker.Schedule :=
  {| Worker.cronMinutes := 30; Worker.cronHours := 0;
     Worker.cronDays := Worker.DayRange 2 6; Worker.labelH12 := 6;
     Worker.labelMinutes := 30; Worker.labelPM := true;
     Worker.labelWeekdays := true |}.

(** An EDGAR exchange that answers every window with the one purchase. *)
Definition onePurchaseFound
    : nat -> jstring -> jstring -> Edgar.FetchError + list Filing :=
  fun _ _ _ => inr onePurchase.

End Scenario.

(* ===================================================================== *)
(** * Properties                                                         *)
(* ===================================================================== *)


(** ** Numbers: comparing and subtracting doubles exactly *)

Section DoubleFacts.
Import SpecFloat Double.

Lemma digits2_pos_bounds m :
  2 ^ (Z.pos (digits2_pos m) - 1) <= Z.pos m < 2 ^ Z.pos (digits2_pos m).
Proof.
  induction m as [p IH|p IH|]; simpl digits2_pos.
  - rewrite Pos2Z.inj_succ.
    replace (Z.succ (Z.pos (digits2_pos p)) - 1) with (Z.succ (Z.pos (digits2_pos p) - 1)) by lia.
    rewrite !Z.pow_succ_r by lia. lia.
  - rewrite Pos2Z.inj_succ.
    replace (Z.succ (Z.pos (digits2_pos p)) - 1) with (Z.succ (Z.pos (digits2_pos p) - 1)) by lia.
    rewrite !Z.pow_succ_r by lia. lia.
  - simpl. lia.
Qed.

Lemma digits2_pos_unique m d :
  2 ^ (d - 1) <= Z.pos m < 2 ^ d -> Z.pos (digits2_pos m) = d.
Proof.
  intros [Hl Hu]. pose proof (digits2_pos_bounds m) as [Bl Bu].
  assert (0 < d).
  { destruct (Z_lt_le_dec 0 d) as [|Hd]; [assumption|].
    destruct (Z.eq_dec d 0) as [->|]; [simpl in Hu; lia|].
    rewrite Z.pow_neg_r in Hu by lia. lia. }
  destruct (Z_lt_le_dec (Z.pos (digits2_pos m)) d) as [Hlt|Hge].
  - assert (2 ^ Z.pos (digits2_pos m) <= 2 ^ (d - 1)) by (apply Z.pow_le_mono_r; lia). lia.
  - destruct (Z_lt_le_dec d (Z.pos (digits2_pos m))) as [Hlt|Hle]; [|lia].
    assert (2 ^ d <= 2 ^ (Z.pos (digits2_pos m) - 1)) by (apply Z.pow_le_mono_r; lia). lia.
Qed.

Lemma bounded_inv m e :
  bounded FloatOps.prec FloatOps.emax m e = true ->
  -1074 <= e <= 971 /\ Z.pos (digits2_pos m) <= 53 /\
  (-1074 < e -> Z.pos (digits2_pos m) = 53).
Proof.
  unfold bounded, canonical_mantissa, fexp, emin, FloatOps.prec, FloatOps.emax.
  rewrite andb_true_iff, Z.eqb_eq, Z.leb_le. lia.
Qed.

Lemma bounded_intro m e :
  -1074 <= e <= 971 -> Z.pos (digits2_pos m) <= 53 ->
  (-1074 < e -> Z.pos (digits2_pos m) = 53) ->
  bounded FloatOps.prec FloatOps.emax m e = true.
Proof.
  unfold bounded, canonical_mantissa, fexp, emin, FloatOps.prec, FloatOps.emax.
  rewrite andb_true_iff, Z.eqb_eq, Z.leb_le. lia.
Qed.

Lemma pow2_pos k : 0 <= k -> 0 < 2 ^ k.
Proof. intros. apply Z.pow_pos_nonneg; lia. Qed.

Lemma pow2_split a b : 0 <= a -> 0 <= b -> 2 ^ (a + b) = 2 ^ a * 2 ^ b.
Proof. intros. now rewrite Z.pow_add_r. Qed.

(** Two canonical positive doubles compare as [SFcompare] compares them:
    by exponent first, by mantissa at equal exponents. *)
Lemma compare_canonical m1 e1 m2 e2 :
  bounded FloatOps.prec FloatOps.emax m1 e1 = true -> bounded FloatOps.prec FloatOps.emax m2 e2 = true ->
  match e1 ?= e2 with
  | Lt => Lt
  | Gt => Gt
  | Eq => Pos.compare_cont Eq m1 m2
  end = (Z.pos m1 * 2 ^ (e1 + 1074) ?= Z.pos m2 * 2 ^ (e2 + 1074)).
Proof.
  intros B1 B2.
  destruct (bounded_inv _ _ B1) as [R1 [D1 N1]].
  destruct (bounded_inv _ _ B2) as [R2 [D2 N2]].
  pose proof (digits2_pos_bounds m1) as [L1 U1].
  pose proof (digits2_pos_bounds m2) as [L2 U2].
  assert (forall m e m' e', -1074 <= e -> e < e' ->
            Z.pos m < 2 ^ 53 -> 2 ^ 52 <= Z.pos m' ->
            Z.pos m * 2 ^ (e + 1074) < Z.pos m' * 2 ^ (e' + 1074)) as Hlt.
  { intros m e m' e' He Hee Hm Hm'.
    replace (e' + 1074) with ((e' - e - 1) + 1 + (e + 1074)) by lia.
    rewrite (pow2_split (e' - e - 1 + 1) (e + 1074)) by lia.
    rewrite (pow2_split (e' - e - 1) 1) by lia.
    pose proof (pow2_pos (e + 1074) ltac:(lia)).
    pose proof (pow2_pos (e' - e - 1) ltac:(lia)).
    change (2 ^ 1) with 2.
    set (A := 2 ^ (e + 1074)) in *. set (P := 2 ^ (e' - e - 1)) in *.
    assert (Z.pos m * A < 2 ^ 53 * A) by (apply Z.mul_lt_mono_pos_r; lia).
    change (2 ^ 53) with (2 ^ 52 * 2) in *.
    assert (2 ^ 52 * 2 * A <= Z.pos m' * 2 * A).
    { apply Z.mul_le_mono_nonneg_r; [lia|]. apply Z.mul_le_mono_nonneg_r; lia. }
    assert (Z.pos m' * 2 * A <= Z.pos m' * (P * 2 * A)).
    { rewrite <- !Z.mul_assoc. apply Z.mul_le_mono_nonneg_l; [lia|].
      replace (2 * A) with (1 * (2 * A)) at 1 by lia.
      apply Z.mul_le_mono_nonneg_r; lia. }
    lia. }
  assert (forall m, Z.pos (digits2_pos m) <= 53 -> Z.pos m < 2 ^ 53) as Hu.
  { intros m Hd. pose proof (digits2_pos_bounds m) as [_ U].
    assert (2 ^ Z.pos (digits2_pos m) <= 2 ^ 53) by (apply Z.pow_le_mono_r; lia). lia. }
  assert (forall m, Z.pos (digits2_pos m) = 53 -> 2 ^ 52 <= Z.pos m) as Hl.
  { intros m Hd. pose proof (digits2_pos_bounds m) as [L _].
    rewrite Hd in L. exact L. }
  destruct (Z.compare_spec e1 e2) as [->|Hc|Hc].
  - change (Pos.compare_cont Eq m1 m2) with (Z.pos m1 ?= Z.pos m2).
    apply Zmult_compare_compat_r. pose proof (pow2_pos (e2 + 1074)). lia.
  - symmetry. apply Z.compare_lt_iff. apply Hlt; auto; try lia. apply Hl, N2. lia.
  - symmetry. apply Z.compare_gt_iff. apply Hlt; auto; try lia. apply Hl, N1. lia.
Qed.

Lemma Some_eq {A} (a b : A) : Some a = Some b -> a = b.
Proof. congruence. Qed.

Lemma SFcompare_units x y ux uy :
  valid_binary FloatOps.prec FloatOps.emax x = true -> valid_binary FloatOps.prec FloatOps.emax y = true ->
  units x = Some ux -> units y = Some uy ->
  SFcompare x y = Some (ux ?= uy).
Proof.
  intros Vx Vy Ux Uy.
  destruct x as [sx|sx| |sx mx ex]; try discriminate;
  destruct y as [sy|sy| |sy my ey]; try discriminate;
  cbn [units] in Ux, Uy; cbn [valid_binary] in Vx, Vy;
  apply Some_eq in Ux, Uy; subst ux uy; cbn [SFcompare].
  - reflexivity.
  - destruct (bounded_inv _ _ Vy) as [R _].
    assert (0 < Z.pos my * 2 ^ (ey + 1074))
      by (apply Z.mul_pos_pos; [lia | apply pow2_pos; lia]).
    f_equal. destruct sy; cbn [cond_Zopp]; symmetry.
    + apply Z.compare_gt_iff. lia.
    + apply Z.compare_lt_iff. lia.
  - destruct (bounded_inv _ _ Vx) as [R _].
    assert (0 < Z.pos mx * 2 ^ (ex + 1074))
      by (apply Z.mul_pos_pos; [lia | apply pow2_pos; lia]).
    f_equal. destruct sx; cbn [cond_Zopp]; symmetry.
    + apply Z.compare_lt_iff. lia.
    + apply Z.compare_gt_iff. lia.
  - destruct (bounded_inv _ _ Vx) as [Rx _].
    destruct (bounded_inv _ _ Vy) as [Ry _].
    assert (0 < Z.pos mx * 2 ^ (ex + 1074))
      by (apply Z.mul_pos_pos; [lia | apply pow2_pos; lia]).
    assert (0 < Z.pos my * 2 ^ (ey + 1074))
      by (apply Z.mul_pos_pos; [lia | apply pow2_pos; lia]).
    pose proof (compare_canonical _ _ _ _ Vx Vy) as C.
    f_equal. destruct sx, sy; cbn [cond_Zopp].
    + rewrite Z.compare_opp.
      rewrite (Z.compare_antisym (Z.pos mx * 2 ^ (ex + 1074))), <- C.
      destruct (ex ?= ey); reflexivity.
    + symmetry. apply Z.compare_lt_iff. lia.
    + symmetry. apply Z.compare_gt_iff. lia.
    + exact C.
Qed.

(** *** Rounding to nearest *)

Lemma shr_m_shr_1 mrs : 0 <= shr_m mrs -> shr_m (shr_1 mrs) = shr_m mrs / 2.
Proof.
  destruct mrs as [m r s]. cbn [shr_m shr_1].
  destruct m as [|[p|p|]|p]; intros H; cbn [shr_m]; try lia.
  - reflexivity.
  - apply (Z.div_unique _ 2 _ 1); lia.
  - apply (Z.div_unique _ 2 _ 0); lia.
  - reflexivity.
Qed.

Lemma shr_m_iter k : forall mrs, 0 <= shr_m mrs ->
  shr_m (iter_pos shr_1 k mrs) = shr_m mrs / 2 ^ Z.pos k.
Proof.
  assert (forall a b, 0 <= a -> 0 < b -> 0 <= a / b) as Hd
    by (intros; apply Z.div_pos; lia).
  induction k as [k IH|k IH|]; intros mrs H; cbn [iter_pos].
  - pose proof (pow2_pos (Z.pos k) ltac:(lia)) as Hk.
    rewrite IH, IH, shr_m_shr_1; auto.
    + rewrite !Z.div_div by lia. f_equal.
      replace (Z.pos k~1) with (1 + Z.pos k + Z.pos k) by lia.
      rewrite !pow2_split by lia. change (2 ^ 1) with 2. lia.
    + rewrite shr_m_shr_1 by assumption. apply Hd; lia.
    + rewrite IH, shr_m_shr_1; auto.
      * apply Hd; auto. apply Hd; lia.
      * rewrite shr_m_shr_1 by assumption. apply Hd; lia.
  - pose proof (pow2_pos (Z.pos k) ltac:(lia)) as Hk.
    rewrite IH, IH; auto.
    + rewrite !Z.div_div by lia. f_equal.
      replace (Z.pos k~0) with (Z.pos k + Z.pos k) by lia.
      rewrite pow2_split by lia. lia.
    + rewrite IH by assumption. apply Hd; lia.
  - rewrite shr_m_shr_1 by assumption. reflexivity.
Qed.

Lemma iter_xO m d : Z.pos (Pos.iter xO m d) = Z.pos m * 2 ^ Z.pos d.
Proof.
  induction d as [|d IH] using Pos.peano_ind.
  - cbn. lia.
  - rewrite Pos.iter_succ, Pos2Z.inj_xO, IH, Pos2Z.inj_succ, Z.pow_succ_r; lia.
Qed.

Lemma shl_align_spec m e e' :
  e' <= e ->
  exists mz, shl_align m e e' = (mz, e') /\ Z.pos mz = Z.pos m * 2 ^ (e - e').
Proof.
  intros H. unfold shl_align. destruct (e' - e) as [|d|d] eqn:E.
  - assert (e' = e) as -> by lia. exists m. rewrite Z.sub_diag. split; [reflexivity | cbn; lia].
  - lia.
  - exists (Pos.iter xO m d). split; [reflexivity|].
    rewrite iter_xO. f_equal. f_equal. lia.
Qed.

Lemma round_nearest_even_bounds m l :
  m <= round_nearest_even m l <= m + 1.
Proof.
  unfold round_nearest_even. destruct l as [|[| |]]; try lia.
  destruct (Z.even m); lia.
Qed.

(** A mantissa that already has the exponent of its magnitude is kept. *)
Lemma binary_round_aux_exact s m e :
  fexp FloatOps.prec FloatOps.emax (Z.pos (digits2_pos m) + e) = e ->
  binary_round_aux FloatOps.prec FloatOps.emax s (Z.pos m) e loc_Exact =
  if e <=? 971 then S754_finite s m e else S754_infinity s.
Proof.
  intros H. unfold binary_round_aux, shr_fexp. cbn [Zdigits2].
  rewrite H, Z.sub_diag. cbn [shr shr_record_of_loc shr_m loc_of_shr_record
                               round_nearest_even Zdigits2].
  rewrite H, Z.sub_diag. cbn [shr shr_m]. reflexivity.
Qed.

(** A canonical double below a longer mantissa is below that mantissa cut
    to 53 bits. *)
Lemma below_truncation md ez k my ey :
  -1074 <= ez -> 0 < k -> 2 ^ 52 <= Z.pos md / 2 ^ k ->
  bounded FloatOps.prec FloatOps.emax my ey = true ->
  Z.pos my * 2 ^ (ey + 1074) <= Z.pos md * 2 ^ (ez + 1074) ->
  Z.pos my * 2 ^ (ey + 1074) <= Z.pos md / 2 ^ k * 2 ^ (ez + k + 1074).
Proof.
  intros He Hk Hm B Hle.
  destruct (bounded_inv _ _ B) as [R [D _]].
  pose proof (digits2_pos_bounds my) as [_ U].
  assert (Z.pos my < 2 ^ 53).
  { assert (2 ^ Z.pos (digits2_pos my) <= 2 ^ 53) by (apply Z.pow_le_mono_r; lia).
    lia. }
  pose proof (pow2_pos k ltac:(lia)) as Pk.
  pose proof (pow2_pos (ez + 1074) ltac:(lia)) as Pe.
  destruct (Z_lt_le_dec ey (ez + k)) as [Hlt|Hge].
  - apply Z.le_trans with (2 ^ 52 * 2 ^ (ez + k + 1074)).
    + replace (ez + k + 1074) with ((ez + k - ey - 1) + 1 + (ey + 1074)) by lia.
      rewrite (pow2_split (ez + k - ey - 1 + 1)), (pow2_split (ez + k - ey - 1) 1) by lia.
      change (2 ^ 1) with 2.
      set (A := 2 ^ (ey + 1074)). assert (0 < A) by (apply pow2_pos; lia).
      set (P := 2 ^ (ez + k - ey - 1)). assert (0 < P) by (apply pow2_pos; lia).
      apply Z.le_trans with (2 ^ 53 * A).
      * apply Z.mul_le_mono_nonneg_r; lia.
      * change (2 ^ 53) with (2 ^ 52 * 2). rewrite <- !Z.mul_assoc.
        apply Z.mul_le_mono_nonneg_l; [lia|].
        replace (2 * A) with (1 * (2 * A)) at 1 by lia.
        apply Z.mul_le_mono_nonneg_r; lia.
    + apply Z.mul_le_mono_nonneg_r; [|exact Hm].
      apply Z.lt_le_incl, pow2_pos; lia.
  - assert (Z.pos my * 2 ^ (ey - (ez + k)) <= Z.pos md / 2 ^ k) as Hq.
    { apply Z.div_le_lower_bound; [assumption|].
      apply (Z.mul_le_mono_pos_r _ _ (2 ^ (ez + 1074))); [assumption|].
      eapply Z.le_trans; [|exact Hle]. apply Z.eq_le_incl.
      replace (ey + 1074) with (k + (ey - (ez + k)) + (ez + 1074)) by lia.
      rewrite (pow2_split (k + (ey - (ez + k)))), (pow2_split k) by lia. ring. }
    replace (ey + 1074) with ((ey - (ez + k)) + (ez + k + 1074)) by lia.
    rewrite (pow2_split (ey - (ez + k))) by lia. rewrite Z.mul_assoc.
    apply Z.mul_le_mono_nonneg_r; [apply Z.lt_le_incl, pow2_pos; lia|].
    exact Hq.
Qed.

(** Rounding a positive integer multiple of a power of two: the result is
    infinite, or a canonical double that no canonical double below the
    exact value exceeds. *)
Lemma binary_round_spec s md ez :
  -1074 <= ez ->
  binary_round FloatOps.prec FloatOps.emax s md ez = S754_infinity s \/
  exists mr er,
    binary_round FloatOps.prec FloatOps.emax s md ez = S754_finite s mr er /\
    bounded FloatOps.prec FloatOps.emax mr er = true /\
    forall my ey, bounded FloatOps.prec FloatOps.emax my ey = true ->
      Z.pos my * 2 ^ (ey + 1074) <= Z.pos md * 2 ^ (ez + 1074) ->
      Z.pos my * 2 ^ (ey + 1074) <= Z.pos mr * 2 ^ (er + 1074).
Proof.
  intros He. unfold binary_round.
  pose proof (digits2_pos_bounds md) as [Ld Ud].
  set (d := Z.pos (digits2_pos md)) in *.
  assert (fexp FloatOps.prec FloatOps.emax (d + ez) = Z.max (d + ez - 53) (-1074))
    as Hf by reflexivity.
  set (e0 := fexp FloatOps.prec FloatOps.emax (d + ez)) in *.
  destruct (Z_le_gt_dec e0 ez) as [Hle|Hgt].
  - destruct (shl_align_spec md ez e0 Hle) as [mz [Hs Hmz]]. rewrite Hs.
    pose proof (pow2_pos (ez - e0) ltac:(lia)) as Pz.
    assert (Z.pos (digits2_pos mz) = d + (ez - e0)) as Hdz.
    { apply digits2_pos_unique. rewrite Hmz.
      replace (d + (ez - e0) - 1) with ((d - 1) + (ez - e0)) by lia.
      rewrite (pow2_split (d - 1)), (pow2_split d) by lia.
      split; [apply Z.mul_le_mono_nonneg_r; lia | apply Z.mul_lt_mono_pos_r; lia]. }
    assert (fexp FloatOps.prec FloatOps.emax (Z.pos (digits2_pos mz) + e0) = e0) as Hc.
    { rewrite Hdz. replace (d + (ez - e0) + e0) with (d + ez) by lia. reflexivity. }
    rewrite (binary_round_aux_exact s mz e0 Hc).
    destruct (e0 <=? 971) eqn:E; [right|left; reflexivity].
    exists mz, e0. split; [reflexivity|]. split.
    + unfold bounded, canonical_mantissa. rewrite Hc, Z.eqb_refl. exact E.
    + intros my ey _ Hy. rewrite Hmz.
      replace (ez + 1074) with ((ez - e0) + (e0 + 1074)) in Hy by lia.
      rewrite (pow2_split (ez - e0)) in Hy by lia. lia.
  - destruct (e0 - ez) as [|kp|kp] eqn:Ek; try lia.
    unfold shl_align. rewrite Ek.
    unfold binary_round_aux, shr_fexp. cbn [Zdigits2]. fold d. fold e0.
    rewrite Ek. cbn [shr shr_record_of_loc].
    pose proof (shr_m_iter kp {| shr_m := Z.pos md; shr_r := false; shr_s := false |}
                  ltac:(cbn; lia)) as Hm.
    set (mrs := iter_pos shr_1 kp _) in *. cbn [shr_m] in Hm.
    assert (Z.pos kp = d - 53) as Hk by lia.
    pose proof (pow2_pos (Z.pos kp) ltac:(lia)) as Pk.
    assert (2 ^ 52 <= shr_m mrs < 2 ^ 53) as [Lm Um].
    { rewrite Hm. split.
      - apply Z.div_le_lower_bound; [assumption|].
        rewrite <- pow2_split by lia. replace (Z.pos kp + 52) with (d - 1) by lia.
        exact Ld.
      - apply Z.div_lt_upper_bound; [assumption|].
        rewrite <- pow2_split by lia. replace (Z.pos kp + 53) with d by lia.
        exact Ud. }
    pose proof (round_nearest_even_bounds (shr_m mrs) (loc_of_shr_record mrs)) as Hr.
    assert (ez + Z.pos kp = e0) as Hez by lia. rewrite Hez.
    assert (-1074 < e0) as He0 by lia.
    assert (forall my ey, bounded FloatOps.prec FloatOps.emax my ey = true ->
              Z.pos my * 2 ^ (ey + 1074) <= Z.pos md * 2 ^ (ez + 1074) ->
              Z.pos my * 2 ^ (ey + 1074) <=
              round_nearest_even (shr_m mrs) (loc_of_shr_record mrs) * 2 ^ (e0 + 1074))
      as Hbelow.
    { intros my ey B Hy.
      apply Z.le_trans with (shr_m mrs * 2 ^ (e0 + 1074)).
      - rewrite Hm, <- Hez. rewrite Hm in Lm. apply below_truncation; auto; lia.
      - apply Z.mul_le_mono_nonneg_r; [apply Z.lt_le_incl, pow2_pos; lia | lia]. }
    destruct (round_nearest_even (shr_m mrs) (loc_of_shr_record mrs))
      as [|pr|pr] eqn:Er; try lia.
    destruct (Z_lt_le_dec (Z.pos pr) (2 ^ 53)) as [Hlt|Hge].
    + assert (Z.pos (digits2_pos pr) = 53) as Hd53
        by (apply digits2_pos_unique; change (53 - 1) with 52; lia).
      cbn [Zdigits2 shr_record_of_loc]. rewrite Hd53.
      replace (fexp FloatOps.prec FloatOps.emax (53 + e0) - e0) with 0
        by (unfold fexp, emin, FloatOps.prec, FloatOps.emax; lia).
      cbn [shr shr_m].
      change (FloatOps.emax - FloatOps.prec) with 971.
      destruct (e0 <=? 971) eqn:E; [right|left; reflexivity].
      exists pr, e0. split; [reflexivity|]. split.
      * apply Z.leb_le in E. apply bounded_intro; lia.
      * exact Hbelow.
    + assert (pr = 9007199254740992%positive) as -> by (change (2 ^ 53) with 9007199254740992 in *; lia).
      cbn [Zdigits2 shr_record_of_loc].
      change (Z.pos (digits2_pos 9007199254740992)) with 54.
      replace (fexp FloatOps.prec FloatOps.emax (54 + e0) - e0) with 1
        by (unfold fexp, emin, FloatOps.prec, FloatOps.emax; lia).
      cbn [shr iter_pos shr_1 shr_m orb].
      change (FloatOps.emax - FloatOps.prec) with 971.
      destruct (e0 + 1 <=? 971) eqn:E; [right|left; reflexivity].
      exists 4503599627370496%positive, (e0 + 1). split; [reflexivity|]. split.
      * apply bounded_intro; try (apply Z.leb_le in E; lia).
        -- change (Z.pos (digits2_pos 4503599627370496)) with 53. lia.
        -- intros _. reflexivity.
      * intros my ey B Hy. specialize (Hbelow my ey B Hy).
        replace (e0 + 1 + 1074) with (1 + (e0 + 1074)) by lia.
        rewrite (pow2_split 1) by lia. change (2 ^ 1) with 2. lia.
Qed.

(** *** Comparison and subtraction on exact values *)

Lemma SFltb_units x y ux uy :
  valid_binary FloatOps.prec FloatOps.emax x = true ->
  valid_binary FloatOps.prec FloatOps.emax y = true ->
  units x = Some ux -> units y = Some uy ->
  SFltb x y = (ux <? uy).
Proof.
  intros Vx Vy Ux Uy. unfold SFltb.
  rewrite (SFcompare_units x y ux uy) by assumption. reflexivity.
Qed.

(** The difference of two doubles whose exact difference is not negative
    is infinite, or a double that no double below the exact difference
    exceeds. *)
Lemma SFsub_units x y z ux uy uz :
  valid_binary FloatOps.prec FloatOps.emax x = true ->
  valid_binary FloatOps.prec FloatOps.emax y = true ->
  valid_binary FloatOps.prec FloatOps.emax z = true ->
  units x = Some ux -> units y = Some uy -> units z = Some uz ->
  0 <= uz -> uz <= ux - uy ->
  SFsub FloatOps.prec FloatOps.emax x y = S754_infinity false \/
  exists ur,
    valid_binary FloatOps.prec FloatOps.emax (SFsub FloatOps.prec FloatOps.emax x y) = true /\
    units (SFsub FloatOps.prec FloatOps.emax x y) = Some ur /\ uz <= ur.
Proof.
  intros Vx Vy Vz Ux Uy Uz Hz Hle.
  destruct x as [sx|sx| |sx mx ex]; try discriminate;
  destruct y as [sy|sy| |sy my ey]; try discriminate;
  cbn [units] in Ux, Uy; apply Some_eq in Ux, Uy; subst ux uy;
  cbn [valid_binary] in Vx, Vy.
  - right. exists 0. destruct sx, sy; cbn; repeat split; lia.
  - right. exists (- cond_Zopp sy (Z.pos my * 2 ^ (ey + 1074))).
    cbn [SFsub valid_binary units]. repeat split; [assumption | | lia].
    destruct sy; cbn [negb cond_Zopp]; f_equal; lia.
  - right. exists (cond_Zopp sx (Z.pos mx * 2 ^ (ex + 1074))).
    cbn [SFsub valid_binary units]. repeat split; [assumption | lia].
  - destruct (bounded_inv _ _ Vx) as [Rx _].
    destruct (bounded_inv _ _ Vy) as [Ry _].
    cbn [SFsub].
    destruct (shl_align_spec mx ex (Z.min ex ey) ltac:(lia)) as [ax [Hax Eax]].
    destruct (shl_align_spec my ey (Z.min ex ey) ltac:(lia)) as [ay [Hay Eay]].
    rewrite Hax, Hay. cbn [fst].
    set (ez := Z.min ex ey) in *.
    assert (-1074 <= ez) as Hez by lia.
    assert (Z.pos ax * 2 ^ (ez + 1074) = Z.pos mx * 2 ^ (ex + 1074)) as Ex.
    { rewrite Eax, <- Z.mul_assoc, <- pow2_split by lia. do 2 f_equal. lia. }
    assert (Z.pos ay * 2 ^ (ez + 1074) = Z.pos my * 2 ^ (ey + 1074)) as Ey.
    { rewrite Eay, <- Z.mul_assoc, <- pow2_split by lia. do 2 f_equal. lia. }
    assert ((cond_Zopp sx (Z.pos ax) - cond_Zopp sy (Z.pos ay)) * 2 ^ (ez + 1074) =
            cond_Zopp sx (Z.pos mx * 2 ^ (ex + 1074)) -
            cond_Zopp sy (Z.pos my * 2 ^ (ey + 1074))) as Ed.
    { rewrite <- Ex, <- Ey. destruct sx, sy; cbn [cond_Zopp]; ring. }
    pose proof (pow2_pos (ez + 1074) ltac:(lia)) as Pz.
    destruct (cond_Zopp sx (Z.pos ax) - cond_Zopp sy (Z.pos ay)) as [|md|md] eqn:Ed'.
    + right. exists 0. cbn. repeat split. lia.
    + cbn [binary_normalize].
      destruct (binary_round_spec false md ez Hez) as [E|[mr [er [E [B Hb]]]]].
      * left. exact E.
      * right. exists (Z.pos mr * 2 ^ (er + 1074)). rewrite E.
        cbn [valid_binary units cond_Zopp]. repeat split; [assumption|].
        destruct z as [sz|sz| |sz mz ez']; try discriminate;
        cbn [units] in Uz; apply Some_eq in Uz; subst uz.
        -- destruct (bounded_inv _ _ B) as [Rr _].
           pose proof (pow2_pos (er + 1074) ltac:(lia)). nia.
        -- cbn [valid_binary] in Vz. destruct (bounded_inv _ _ Vz) as [Rz _].
           pose proof (pow2_pos (ez' + 1074) ltac:(lia)).
           destruct sz; cbn [cond_Zopp] in *; [nia|].
           apply Hb; [assumption | lia].
    + exfalso. assert (Z.neg md * 2 ^ (ez + 1074) < 0) by nia. lia.
Qed.

(** So the test [a - b < c] fails whenever the exact value of [c] is not
    negative and at most the exact difference. *)
Lemma SFsub_covers x y z ux uy uz :
  valid_binary FloatOps.prec FloatOps.emax x = true ->
  valid_binary FloatOps.prec FloatOps.emax y = true ->
  valid_binary FloatOps.prec FloatOps.emax z = true ->
  units x = Some ux -> units y = Some uy -> units z = Some uz ->
  0 <= uz -> uz <= ux - uy ->
  SFltb (SFsub FloatOps.prec FloatOps.emax x y) z = false.
Proof.
  intros Vx Vy Vz Ux Uy Uz Hz Hle.
  destruct (SFsub_units x y z ux uy uz) as [E|[ur [Vr [Ur Hr]]]]; auto.
  - rewrite E. destruct z; try discriminate; reflexivity.
  - rewrite (SFltb_units _ _ ur uz) by assumption. apply Z.ltb_ge. exact Hr.
Qed.

(** A counter that is not below zero and not below the amount taken from
    it is not below zero afterwards. *)
Lemma SFsub_not_negative x y :
  valid_binary FloatOps.prec FloatOps.emax x = true ->
  valid_binary FloatOps.prec FloatOps.emax y = true ->
  SFltb x (S754_zero false) = false ->
  SFltb x y = false ->
  SFltb (SFsub FloatOps.prec FloatOps.emax x y) (S754_zero false) = false.
Proof.
  intros Vx Vy H0 Hy.
  destruct (units x) as [ux|] eqn:Ux; [destruct (units y) as [uy|] eqn:Uy|].
  - rewrite (SFltb_units x _ ux 0) in H0 by auto.
    rewrite (SFltb_units x y ux uy) in Hy by auto.
    apply Z.ltb_ge in H0, Hy.
    apply (SFsub_covers x y (S754_zero false) ux uy 0); auto; lia.
  - destruct x as [sx|sx| |sx mx ex]; try discriminate;
    destruct y as [sy|[|]| |sy my ey]; try discriminate; reflexivity.
  - destruct x as [sx|[|]| |sx mx ex]; try discriminate;
    destruct y as [sy|[|]| |sy my ey]; reflexivity.
Qed.

(** *** The same on numbers *)

Lemma toQ_units x q :
  toQ x = Some q ->
  exists u, units (FloatOps.Prim2SF x) = Some u /\
            (q * inject_Z (2 ^ 1074) == inject_Z u)%Q.
Proof.
  unfold toQ. pose proof (FloatAxioms.Prim2SF_valid x) as V.
  destruct (FloatOps.Prim2SF x) as [s|s| |s m e]; try discriminate;
  intros E; apply Some_eq in E; subst q.
  - exists 0. split; [reflexivity|]. apply Qmult_0_l.
  - cbn [valid_binary] in V. destruct (bounded_inv _ _ V) as [R _].
    exists (cond_Zopp s (Z.pos m * 2 ^ (e + 1074))). split; [reflexivity|].
    rewrite Qred_correct.
    replace (cond_Zopp s (Z.pos m * 2 ^ (e + 1074)))
      with (cond_Zopp s (Z.pos m) * 2 ^ (e + 1074))
      by (destruct s; cbn [cond_Zopp]; lia).
    rewrite inject_Z_mult, !Zpower_Qpower by lia.
    rewrite (Qpower_plus (inject_Z 2) e 1074) by discriminate.
    symmetry. apply Qmult_assoc.
Qed.

Lemma toQ_le (qa qb : Q) (ua ub : Z) :
  (qa * inject_Z (2 ^ 1074) == inject_Z ua)%Q ->
  (qb * inject_Z (2 ^ 1074) == inject_Z ub)%Q ->
  (qa <= qb)%Q -> ua <= ub.
Proof.
  intros Ea Eb H. rewrite Zle_Qle, <- Ea, <- Eb.
  apply Qmult_le_compat_r; [assumption|].
  change 0%Q with (inject_Z 0). rewrite <- Zle_Qle. apply Z.pow_nonneg. lia.
Qed.

(** Two amounts that the counter covers together, the second not negative,
    pass the two tests of the loop one after the other. *)
Lemma covered_one_after_the_other (b n1 n2 : number) qb q1 q2 :
  toQ b = Some qb -> toQ n1 = Some q1 -> toQ n2 = Some q2 ->
  (q1 + q2 <= qb)%Q -> (0 <= q2)%Q ->
  ltb b n1 = false /\ ltb (sub b n1) n2 = false.
Proof.
  intros Tb T1 T2 Hsum Hpos.
  destruct (toQ_units _ _ Tb) as [ub [Ub Eb]].
  destruct (toQ_units _ _ T1) as [u1 [U1 E1]].
  destruct (toQ_units _ _ T2) as [u2 [U2 E2]].
  assert (0 <= u2) as H2.
  { apply (toQ_le 0 q2 0 u2); auto. apply Qmult_0_l. }
  assert (u1 + u2 <= ub) as Hs.
  { apply (toQ_le (q1 + q2) qb); auto.
    rewrite Qmult_plus_distr_l, E1, E2, inject_Z_plus. reflexivity. }
  pose proof (FloatAxioms.Prim2SF_valid b) as Vb.
  pose proof (FloatAxioms.Prim2SF_valid n1) as V1.
  pose proof (FloatAxioms.Prim2SF_valid n2) as V2.
  unfold ltb, sub. rewrite !FloatAxioms.ltb_spec, FloatAxioms.sub_spec. split.
  - rewrite (SFltb_units _ _ ub u1) by assumption. apply Z.ltb_ge. lia.
  - apply (SFsub_covers _ _ _ ub u1 u2); auto. lia.
Qed.

Lemma sub_not_negative (b n : number) :
  ltb b (ofZ 0) = false -> ltb b n = false ->
  ltb (sub b n) (ofZ 0) = false.
Proof.
  unfold ltb, sub. rewrite !FloatAxioms.ltb_spec, FloatAxioms.sub_spec.
  change (FloatOps.Prim2SF (ofZ 0)) with (S754_zero false).
  apply SFsub_not_negative; apply FloatAxioms.Prim2SF_valid.
Qed.

End DoubleFacts.

Section JsFacts.
Import Js.

Lemma eqb_eq (a b : jstring) : eqb a b = true <-> a = b.
Proof.
  revert b; induction a as [|x a IH]; intros [|y b]; simpl; split; try easy.
  - rewrite andb_true_iff, N.eqb_eq, IH. now intros [-> ->].
  - intros [= -> ->]. rewrite N.eqb_refl. now apply IH.
Qed.

Lemma eqb_refl (a : jstring) : eqb a a = true.
Proof. now apply eqb_eq. Qed.

Lemma eqb_neq (a b : jstring) : eqb a b = false <-> a <> b.
Proof.
  rewrite <- eqb_eq. destruct (eqb a b); split; congruence.
Qed.

Lemma length_digits w n : length (digits w n) = w.
Proof.
  revert n; induction w as [|w IH]; intros n; simpl; [easy|].
  rewrite length_app, IH. simpl. lia.
Qed.

Lemma slice0_firstn {A} (e : Z) (l : list A) : exists k, slice0 e l = firstn k l.
Proof. unfold slice0. eauto. Qed.

Lemma slice0_all {A} (e : Z) (l : list A) :
  Z.of_nat (length l) <= e -> slice0 e l = l.
Proof.
  intros H. unfold slice0.
  destruct (e <? 0) eqn:E; [apply Z.ltb_lt in E; lia|].
  rewrite Z.min_r by lia. rewrite Nat2Z.id. apply firstn_all.
Qed.

Lemma slice_toISOString t : slice0 10 (toISOString t) = datePart (Day t).
Proof.
  unfold slice0, toISOString, datePart.
  destruct (civil (Day t)) as [[y m] d].
  set (year := if (0 <=? y) && (y <=? 9999) then _ else _).
  assert (Hy : (4 <= length year)%nat).
  { subst year. destruct ((0 <=? y) && (y <=? 9999)).
    - rewrite length_digits. lia.
    - rewrite length_app, length_digits. lia. }
  set (rest := str "T" ++ _).
  replace (year ++ str "-" ++ digits 2 m ++ str "-" ++ digits 2 d ++ rest)
    with ((year ++ str "-" ++ digits 2 m ++ str "-" ++ digits 2 d) ++ rest)
    by (now rewrite <- !app_assoc).
  set (p := year ++ str "-" ++ digits 2 m ++ str "-" ++ digits 2 d).
  assert (Hp : (10 <= length p)%nat).
  { subst p. rewrite !length_app, !length_digits. simpl. lia. }
  change (10 <? 0) with false. cbv iota.
  assert (Hmin : Z.to_nat (Z.min 10 (Z.of_nat (length (p ++ rest)))) = 10%nat).
  { rewrite length_app. lia. }
 rewrite Hmin. rewrite firstn_app.
  replace (10 - length p)%nat with 0%nat by lia.
  simpl. now rewrite app_nil_r.
Qed.

Lemma Day_shift t k : Day (t + k * msPerDay) = Day t + k.
Proof. unfold Day. apply Z.div_add. unfold msPerDay. lia. Qed.

End JsFacts.

(** ** Scoring: factors and totals *)

Section ScoringFacts.
Import Js Scoring.
Context {host : Host}.

Lemma scoreRole_range role :
  scoreRole role = 40 \/ scoreRole role = 25 \/ scoreRole role = 15 \/
  scoreRole role = 5.
Proof.
  unfold scoreRole, ROLE_PATTERNS, firstMatch.
  repeat match goal with |- context [if test ?re role then _ else _] =>
    destruct (test re role) end; auto.
Qed.

Lemma scoreValue_range v :
  scoreValue v = 20 \/ scoreValue v = 10 \/ scoreValue v = 5 \/ scoreValue v = 0.
Proof.
  unfold scoreValue.
  repeat match goal with |- context [if gtb v ?q then _ else _] =>
    destruct (gtb v q) end; auto.
Qed.

Lemma scoreRecency_range d n :
  let r := fst (scoreRecency d n) in r = 20 \/ r = 10 \/ r = 0.
Proof.
  unfold scoreRecency, Scoring.bind, utcDateString, newDate, Scoring.ret. simpl.
  repeat match goal with |- context [if eqb d ?x then _ else _] =>
    destruct (eqb d x); simpl end; auto.
Qed.

Lemma buildSignal_Built f inCluster n :
  Built f inCluster (fst (buildSignal f inCluster n)).
Proof.
  unfold buildSignal, Scoring.bind, Scoring.ret.
  pose proof (scoreRecency_range (transactionDate f) n) as Hr. simpl in Hr.
  destruct (scoreRecency (transactionDate f) n) as [r n']. simpl in *.
  pose proof (scoreRole_range (insiderRole f)) as Hro.
  pose proof (scoreValue_range (transactionValue f)) as Hv.
  split; unfold rawTotal; simpl; try reflexivity.
  destruct inCluster; lia.
Qed.

Lemma mapM_Forall2 {A B} (f : A -> Clk B) l n :
  Forall2 (fun a b => exists k, b = fst (f a k)) l (fst (mapM f l n)).
Proof.
  revert n; induction l as [|a l IH]; intros n; simpl.
  - constructor.
  - unfold Scoring.bind at 1. destruct (f a n) as [b n1] eqn:E.
    unfold Scoring.bind at 1. specialize (IH n1).
    destruct (mapM f l n1) as [bs n2]. simpl in *.
    constructor; [exists n; now rewrite E | exact IH].
Qed.

(** ** Scoring: the stable sort *)

Lemma insertByScore_perm x l : Permutation (x :: l) (insertByScore x l).
Proof.
  induction l as [|y l IH]; simpl; [reflexivity|].
  destruct (score y - score x >? 0); [|reflexivity].
  rewrite perm_swap. now constructor.
Qed.

Lemma sortByScore_perm l : Permutation l (sortByScore l).
Proof.
  induction l as [|x l IH]; simpl; [constructor|].
  rewrite <- insertByScore_perm. now constructor.
Qed.

Lemma insertByScore_sorted x l :
  StronglySorted geScore l -> StronglySorted geScore (insertByScore x l).
Proof.
  induction 1 as [|y l Hs IH Hy]; simpl.
  - repeat constructor.
  - destruct (score y - score x >? 0) eqn:E.
    + constructor; [exact IH|].
      rewrite <- insertByScore_perm. constructor; [|exact Hy].
      unfold geScore. lia.
    + assert (Hxy : geScore x y) by (unfold geScore; lia).
      constructor; [now constructor|].
      constructor; [exact Hxy|].
      eapply Forall_impl; [|exact Hy]. unfold geScore in *. intros; lia.
Qed.

Lemma sortByScore_sorted l : StronglySorted geScore (sortByScore l).
Proof.
  induction l as [|x l IH]; simpl; [constructor|].
  now apply insertByScore_sorted.
Qed.

Lemma firstn_In {A} (x : A) k l : In x (firstn k l) -> In x l.
Proof.
  intros H. rewrite <- (firstn_skipn k l). apply in_or_app. now left.
Qed.

Lemma firstn_sorted {A} (R : A -> A -> Prop) k l :
  StronglySorted R l -> StronglySorted R (firstn k l).
Proof.
  intros H; revert k; induction H as [|x l Hs IH Hx]; intros [|k]; simpl;
    try constructor; auto.
  rewrite Forall_forall in *. intros y Hy. apply Hx.
  eapply firstn_In; eauto.
Qed.

End ScoringFacts.

(** ** Scoring: [scoreSignals] *)

Section ScoreSignalsFacts.
Import Js Scoring.
Context {host : Host}.

Lemma scoreSignals_eq filings limit n :
  fst (scoreSignals filings limit n) =
  slice0 limit (sortByScore (scoredOf filings n)).
Proof.
  unfold scoreSignals, scoredOf, purchasesOf.
  destruct (filter _ filings) as [|p ps] eqn:E.
  - simpl. unfold slice0. simpl. now destruct (limit <? 0), (Z.to_nat _).
  - change (length (p :: ps) =? 0)%nat with false. cbv iota.
    unfold Scoring.bind at 1.
    destruct (mapM _ (p :: ps) n) as [scored n']. reflexivity.
Qed.

Lemma scoredOf_Built filings n :
  Forall2 (fun f s =>
             Built f (has (detectClusters (purchasesOf filings)) (filingKey f)) s)
          (purchasesOf filings) (scoredOf filings n).
Proof.
  unfold scoredOf.
  eapply Forall2_impl; [|apply mapM_Forall2].
  intros f s [k ->]. apply buildSignal_Built.
Qed.

Lemma scoredOf_filings filings n :
  map filing (scoredOf filings n) = purchasesOf filings.
Proof.
  pose proof (scoredOf_Built filings n) as H.
  induction H as [|f s fs ss Hb _ IH]; simpl; [reflexivity|].
  now rewrite (built_filing _ _ _ Hb), IH.
Qed.

Lemma In_output_scored filings limit n s :
  In s (fst (scoreSignals filings limit n)) -> In s (scoredOf filings n).
Proof.
  rewrite scoreSignals_eq. unfold slice0. intros H.
  apply firstn_In in H.
  eapply Permutation_in; [symmetry; apply sortByScore_perm | exact H].
Qed.

Lemma Forall2_In_r {A B} (P : A -> B -> Prop) l l' b :
  Forall2 P l l' -> In b l' -> exists a, In a l /\ P a b.
Proof.
  induction 1 as [|a b' l l' Hp _ IH]; simpl; [easy|].
  intros [<-|Hin].
  - exists a. auto.
  - destruct (IH Hin) as [a' [Ha Hp']]. exists a'. auto.
Qed.

Lemma In_scored_Built filings n s :
  In s (scoredOf filings n) ->
  In (filing s) (purchasesOf filings) /\
  Built (filing s)
        (has (detectClusters (purchasesOf filings)) (filingKey (filing s))) s.
Proof.
  intros Hin.
  destruct (Forall2_In_r _ _ _ _ (scoredOf_Built filings n) Hin) as [f [Hf Hb]].
  rewrite (built_filing _ _ _ Hb). auto.
Qed.

(** C6.  For every batch, limit and moment of evaluation, the list that
    [scoreSignals] returns is sorted non-increasing by score; every returned
    score is the sum of the four factors capped at 100 and lies in
    [0, 100]; and the summary carries the capped-from note exactly when the
    sum exceeds 100. *)
Theorem scoreSignals_sorted_and_bounded filings limit n :
  let out := fst (scoreSignals filings limit n) in
  StronglySorted (fun a b => score b <= score a) out /\
  Forall (fun s =>
            0 <= score s <= 100 /\
            score s = Z.min (rawTotal s) 100 /\
            sumTotal (breakdownSummary s) = score s /\
            (sumCappedFrom (breakdownSummary s) =
             if rawTotal s >? 100 then Some (rawTotal s) else None)) out.
Proof.
  intros out. split.
  - subst out. rewrite scoreSignals_eq. unfold slice0.
    apply firstn_sorted. apply sortByScore_sorted.
  - apply Forall_forall. intros s Hs.
    apply In_output_scored, In_scored_Built in Hs. destruct Hs as [_ Hb].
    pose proof (built_score _ _ _ Hb). pose proof (built_raw _ _ _ Hb).
    repeat split; try lia.
    + exact (built_total _ _ _ Hb).
    + exact (built_capped _ _ _ Hb).
Qed.

(** C7.  No score threshold is applied: when the batch holds at most
    [limit] purchases, the filings of the returned signals are exactly the
    purchases of the batch (each as often as it occurs there), so every
    purchase appears in the output whatever its score. *)
Theorem scoreSignals_keeps_every_purchase filings limit n :
  Z.of_nat (length (purchasesOf filings)) <= limit ->
  let out := fst (scoreSignals filings limit n) in
  Permutation (map filing out) (purchasesOf filings) /\
  (forall f, In f filings -> transactionType f = TxP ->
             exists s, In s out /\ filing s = f).
Proof.
  intros Hlen out.
  assert (Hperm : Permutation (map filing out) (purchasesOf filings)).
  { subst out. rewrite scoreSignals_eq.
    rewrite slice0_all.
    - rewrite <- scoredOf_filings with (n := n).
      apply Permutation_map. symmetry. apply sortByScore_perm.
    - rewrite <- (Permutation_length (sortByScore_perm _)).
      rewrite <- (length_map filing), scoredOf_filings. exact Hlen. }
  split; [exact Hperm|].
  intros f Hin Hp.
  assert (Hf : In f (purchasesOf filings)).
  { apply filter_In. split; [exact Hin|]. now rewrite Hp. }
  eapply Permutation_in in Hf; [|symmetry; exact Hperm].
  apply in_map_iff in Hf. destruct Hf as [s [Hs Hin']]. eauto.
Qed.

End ScoreSignalsFacts.

(** ** Scoring: cluster detection *)

Section ClusterFacts.
Import Js Scoring.
Context {host : Host}.

Lemma filter_none {A} (p : A -> bool) l :
  (forall x, In x l -> p x = false) -> filter p l = [].
Proof.
  induction l as [|x l IH]; intros H; simpl; [reflexivity|].
  rewrite (H x) by now left. apply IH. intros y Hy. apply H. now right.
Qed.

Lemma has_In set k : has set k = true <-> In k set.
Proof.
  unfold has. rewrite existsb_exists. split.
  - intros [x [Hin Hx]]. apply eqb_eq in Hx. now subst.
  - intros Hin. exists k. split; [exact Hin | apply eqb_refl].
Qed.

Lemma In_add k k' set : In k' (add k set) <-> k' = k \/ In k' set.
Proof.
  unfold add. destruct (has set k) eqn:E.
  - apply has_In in E. split; [auto|]. intros [->|H]; auto.
  - rewrite in_app_iff. simpl. intuition.
Qed.

Lemma pairQualifies_sym a b : pairQualifies a b = pairQualifies b a.
Proof.
  unfold pairQualifies, calendarDayDiff. f_equal.
  - f_equal. destruct (eqb (insiderName a) (insiderName b)) eqn:E.
    + apply eqb_eq in E. rewrite E. symmetry. apply eqb_refl.
    + symmetry. apply eqb_neq. apply eqb_neq in E. congruence.
  - destruct (Date_parse (transactionDate a)), (Date_parse (transactionDate b));
      try reflexivity.
    simpl. f_equal. f_equal. lia.
Qed.

Lemma In_Before a b l :
  In a l -> In b l -> a <> b -> Before a b l \/ Before b a l.
Proof.
  intros Ha Hb Hab.
  apply in_split in Ha. destruct Ha as [l1 [l2 ->]].
  apply in_app_or in Hb. destruct Hb as [Hb|[Hb|Hb]].
  - right. apply in_split in Hb. destruct Hb as [m1 [m2 ->]].
    exists m1, m2, l2. now rewrite <- app_assoc.
  - congruence.
  - left. apply in_split in Hb. destruct Hb as [m1 [m2 ->]].
    now exists l1, m1, m2.
Qed.

Lemma scanRow_mono a later acc k : In k acc -> In k (scanRow a later acc).
Proof.
  unfold scanRow. revert acc; induction later as [|b later IH]; intros acc H;
    simpl; [exact H|].
  apply IH. destruct (pairQualifies a b); [|exact H].
  apply In_add. right. apply In_add. now right.
Qed.

Lemma scanRow_hit a later acc b :
  In b later -> pairQualifies a b = true ->
  In (filingKey a) (scanRow a later acc) /\
  In (filingKey b) (scanRow a later acc).
Proof.
  revert acc; induction later as [|x later IH]; intros acc Hin Hq; [easy|].
  destruct Hin as [->|Hin].
  - unfold scanRow. simpl. rewrite Hq. fold (scanRow a later).
    split; apply scanRow_mono; apply In_add; [right; apply In_add|]; now left.
  - unfold scanRow. simpl. apply (IH _ Hin Hq).
Qed.


Lemma scanGroup_mono group acc k : In k acc -> In k (scanGroup group acc).
Proof.
  revert acc; induction group as [|a later IH]; intros acc H; simpl; [exact H|].
  apply IH. now apply scanRow_mono.
Qed.

Lemma scanGroup_hit group acc a b :
  Before a b group -> pairQualifies a b = true ->
  In (filingKey a) (scanGroup group acc) /\
  In (filingKey b) (scanGroup group acc).
Proof.
  intros [l1 [l2 [l3 ->]]] Hq. revert acc.
  induction l1 as [|x l1 IH]; intros acc; simpl.
  - destruct (scanRow_hit a (l2 ++ b :: l3) acc b) as [Ha Hb]; [|exact Hq|].
    + apply in_or_app. right. now left.
    + split; now apply scanGroup_mono.
  - apply IH.
Qed.


Lemma clusterGroups_mono groups acc k :
  In k acc -> In k (clusterGroups groups acc).
Proof.
  unfold clusterGroups.
  revert acc; induction groups as [|[t g] groups IH]; intros acc H; simpl;
    [exact H|].
  apply IH. destruct (length g <? 2)%nat; [exact H|]. now apply scanGroup_mono.
Qed.

Lemma clusterGroups_hit groups acc t g a b :
  In (t, g) groups -> Before a b g -> pairQualifies a b = true ->
  In (filingKey a) (clusterGroups groups acc) /\
  In (filingKey b) (clusterGroups groups acc).
Proof.
  intros Hin Hbef Hq. revert acc.
  induction groups as [|[t' g'] groups IH]; intros acc; [easy|].
  destruct Hin as [[= -> ->]|Hin].
  - unfold clusterGroups. simpl.
    assert (Hlen : (length g <? 2)%nat = false).
    { destruct Hbef as [l1 [l2 [l3 ->]]]. apply Nat.ltb_ge.
      rewrite length_app. simpl. rewrite length_app. simpl. lia. }
    rewrite Hlen.
    destruct (scanGroup_hit g acc a b Hbef Hq) as [Ha Hb].
    split; now apply clusterGroups_mono.
  - unfold clusterGroups. simpl. apply (IH Hin).
Qed.


(** *** Grouping by ticker *)

Lemma addToGroup_keys f groups t :
  In t (map fst (addToGroup f groups)) <-> In t (map fst groups) \/ t = ticker f.
Proof.
  induction groups as [|[t' g'] groups IH]; simpl.
  - intuition.
  - destruct (eqb t' (ticker f)) eqn:E; simpl.
    + apply eqb_eq in E. subst t'. intuition.
    + rewrite IH. intuition.
Qed.

Lemma addToGroup_nodup f groups :
  NoDup (map fst groups) -> NoDup (map fst (addToGroup f groups)).
Proof.
  induction groups as [|[t' g'] groups IH]; simpl; intros H.
  - repeat constructor. easy.
  - inversion H as [|? ? Hnotin Hnd]; subst.
    destruct (eqb t' (ticker f)) eqn:E; simpl.
    + now constructor.
    + constructor; [|now apply IH].
      rewrite addToGroup_keys. intros [Hc|Hc]; [easy|].
      subst t'. rewrite eqb_refl in E. discriminate.
Qed.

Lemma addToGroup_In f groups t g :
  NoDup (map fst groups) ->
  In (t, g) (addToGroup f groups) ->
  (t <> ticker f /\ In (t, g) groups) \/
  (t = ticker f /\
   ((exists g0, In (t, g0) groups /\ g = g0 ++ [f]) \/
    (~ In t (map fst groups) /\ g = [f]))).
Proof.
  induction groups as [|[t' g'] groups IH]; simpl; intros Hnd H.
  - destruct H as [[= <- <-]|[]]. right. split; [reflexivity|]. right. auto.
  - inversion Hnd as [|? ? Hnotin Hnd']; subst.
    destruct (eqb t' (ticker f)) eqn:E.
    + apply eqb_eq in E. subst t'. destruct H as [[= <- <-]|H].
      * right. split; [reflexivity|]. left. exists g'. auto.
      * left. split; [|now right].
        intros ->. apply Hnotin. apply in_map_iff. now exists (ticker f, g).
    + apply eqb_neq in E. destruct H as [[= <- <-]|H].
      * left. split; [exact E | now left].
      * destruct (IH Hnd' H) as [[Hne Hin]|[-> [[g0 [Hin ->]]|[Hnot ->]]]].
        -- left. auto.
        -- right. split; [reflexivity|]. left. exists g0. auto.
        -- right. split; [reflexivity|]. right. split; [|reflexivity].
           intros [Hc|Hc]; [congruence | contradiction].
Qed.

Lemma addToGroup_ok seen groups f :
  GroupsOk seen groups -> GroupsOk (seen ++ [f]) (addToGroup f groups).
Proof.
  intros [Hnd Hfil Hcov]. split.
  - now apply addToGroup_nodup.
  - intros t g Hin. rewrite filter_app. simpl. unfold onTicker at 2.
    destruct (addToGroup_In _ _ _ _ Hnd Hin)
      as [[Hne Hin']|[-> [[g0 [Hin' ->]]|[Hnot ->]]]].
    + apply eqb_neq in Hne. rewrite Hne, app_nil_r. now apply Hfil.
    + rewrite eqb_refl. f_equal. now apply Hfil.
    + rewrite eqb_refl.
      rewrite filter_none; [reflexivity|].
      intros x Hx. unfold onTicker. apply eqb_neq. intros Heq.
      apply Hnot. rewrite Heq. now apply Hcov.
  - intros y Hy. rewrite addToGroup_keys. apply in_app_or in Hy.
    destruct Hy as [Hy|[<-|[]]]; [left; now apply Hcov | now right].
Qed.

Lemma groupByTicker_ok filings : GroupsOk filings (groupByTicker filings).
Proof.
  unfold groupByTicker.
  assert (H : forall fs seen groups,
             GroupsOk seen groups ->
             GroupsOk (seen ++ fs)
                      (fold_left (fun byTicker f => addToGroup f byTicker) fs groups)).
  { induction fs as [|f fs IH]; intros seen groups Hok; simpl.
    - now rewrite app_nil_r.
    - replace (seen ++ f :: fs) with ((seen ++ [f]) ++ fs)
        by (now rewrite <- app_assoc).
      apply IH. now apply addToGroup_ok. }
  apply (H filings [] []). split; simpl; [constructor | easy | easy].
Qed.

(** *** What [detectClusters] marks *)

(** Two purchases of the batch on one ticker, by different insiders, no more
    than five days apart: both keys are marked. *)
Lemma detectClusters_hit filings a b :
  In a filings -> In b filings -> ticker a = ticker b ->
  pairQualifies a b = true ->
  has (detectClusters filings) (filingKey a) = true /\
  has (detectClusters filings) (filingKey b) = true.
Proof.
  intros Ha Hb Ht Hq.
  destruct (groupByTicker_ok filings) as [_ Hfil Hcov].
  pose proof (Hcov a Ha) as Hk. apply in_map_iff in Hk.
  destruct Hk as [[t g] [Hkey Hin]]. simpl in Hkey. subst t.
  pose proof (Hfil _ _ Hin) as Hg.
  assert (Hag : In a g).
  { rewrite Hg. apply filter_In. split; [exact Ha | apply eqb_refl]. }
  assert (Hbg : In b g).
  { rewrite Hg. apply filter_In. split; [exact Hb|].
    unfold onTicker. rewrite Ht. apply eqb_refl. }
  assert (Hne : a <> b).
  { intros ->. unfold pairQualifies in Hq. rewrite eqb_refl in Hq. discriminate. }
  rewrite !has_In. fold (clusterGroups (groupByTicker filings) []).
  destruct (In_Before a b g Hag Hbg Hne) as [Hbef|Hbef].
  - exact (clusterGroups_hit _ [] _ _ _ _ Hin Hbef Hq).
  - rewrite pairQualifies_sym in Hq.
    destruct (clusterGroups_hit _ [] _ _ _ _ Hin Hbef Hq). auto.
Qed.




Lemma leNum_calendarDayDiff a b :
  leNum (calendarDayDiff a b) 5 = true <->
  exists x y, Date_parse a = Some x /\ Date_parse b = Some y /\
              Z.abs (x - y) <= 5 * msPerDay.
Proof.
  unfold calendarDayDiff, leNum.
  destruct (Date_parse a) as [x|], (Date_parse b) as [y|].
  - rewrite Qle_bool_iff. unfold Qle, msPerDay. simpl. split.
    + intros H. exists x, y. repeat split. lia.
    + intros [x' [y' [[= <-] [[= <-] H]]]]. lia.
  - split; [discriminate|]. now intros [x' [y' [_ [H _]]]].
  - split; [discriminate|]. now intros [x' [y' [H _]]].
  - split; [discriminate|]. now intros [x' [y' [H _]]].
Qed.



End ClusterFacts.

(** ** Scoring: the role patterns on "Vice President" *)

Section RoleFacts.
Import Js Scoring.

Lemma testFrom_unfold alts prev s :
  testFrom alts prev s =
  matchHere alts prev s ||
  match s with c :: s' => testFrom alts (Some c) s' | [] => false end.
Proof. destruct s; reflexivity. Qed.

(** A match further right in the string is found. *)
Lemma testFrom_skip alts prev pre c s :
  matchHere alts (Some c) s = true -> testFrom alts prev (pre ++ c :: s) = true.
Proof.
  intros H. revert prev; induction pre as [|x pre IH]; intros prev.
  - simpl app. rewrite testFrom_unfold, (testFrom_unfold alts (Some c)), H.
    now rewrite orb_true_r.
  - simpl app. rewrite testFrom_unfold, IH. now rewrite orb_true_r.
Qed.

(** The executive pattern finds the word "President" after a space, when the
    word ends the string or a space follows it. *)
Lemma executive_matches_President post :
  matchHere (fst (nth 0 ROLE_PATTERNS ([], 0))) (Some 32%N)
            (str "President" ++ post) = true ->
  forall pre, scoreRole (pre ++ str "Vice President" ++ post) = 40.
Proof.
  intros H pre. unfold scoreRole, ROLE_PATTERNS, firstMatch.
  replace (pre ++ str "Vice President" ++ post)
    with ((pre ++ str "Vice") ++ 32%N :: (str "President" ++ post))
    by (now rewrite <- app_assoc).
  unfold test. rewrite testFrom_skip; [reflexivity | exact H].
Qed.

(** C4.  A role that ends in the title "Vice President", or carries it
    followed by a space, scores 40, the executive tier, and not 15: the
    pattern [\bPRESIDENT\b] of the first tier matches the second word of the
    title, and the first tier that matches wins. *)
Theorem scoreRole_Vice_President_is_40 (pre post : jstring) :
  scoreRole (pre ++ str "Vice President") = 40 /\
  scoreRole (pre ++ str "Vice President" ++ 32%N :: post) = 40.
Proof.
  split.
  - rewrite <- (app_nil_r (str "Vice President")).
    apply executive_matches_President. reflexivity.
  - apply executive_matches_President. reflexivity.
Qed.

(** The tiers on titles that do not contain the word "President". *)
Example scoreRole_tiers :
  scoreRole (str "Chief Executive Officer (CEO)") = 40 /\
  scoreRole (str "Director") = 25 /\
  scoreRole (str "VP") = 15 /\
  scoreRole (str "Vice Pres.") = 15 /\
  scoreRole (str "10% Owner") = 5.
Proof. repeat split; reflexivity. Qed.

(** The role of case 4 of the scoring test, expected there at 15. *)
Example scoreRole_test_case_4 :
  scoreRole (str "Vice President of Operations") = 40.
Proof. reflexivity. Qed.

End RoleFacts.

(** ** Scoring: dependence on the clock *)

Section ClockFacts.
Import Js Scoring.

Lemma utcDateString_day (h : Host) off n :
  fst (utcDateString off n) = datePart (Day (clock n) + off).
Proof.
  unfold utcDateString, Scoring.bind, newDate, Scoring.ret. simpl.
  now rewrite slice_toISOString, Day_shift.
Qed.

Lemma scoreRecency_day (h : Host) d n :
  fst (scoreRecency d n) =
  if eqb d (datePart (Day (clock n) + 0)) then 20
  else if eqb d (datePart (Day (clock (S n)) + -1)) then 10 else 0.
Proof.
  pose proof (utcDateString_day h 0 n) as H0.
  pose proof (utcDateString_day h (-1) (S n)) as H1.
  unfold scoreRecency, Scoring.bind at 1.
  unfold utcDateString, Scoring.bind, newDate, Scoring.ret in *. simpl in *.
  rewrite H0. destruct (eqb d _); [reflexivity|]. simpl.
  rewrite H1. now destruct (eqb d _).
Qed.

Lemma mapM_fst_ext {A B} (f g : A -> Clk B) l :
  (forall a n1 n2, fst (f a n1) = fst (g a n2)) ->
  forall n1 n2, fst (mapM f l n1) = fst (mapM g l n2).
Proof.
  intros H. induction l as [|a l IH]; intros n1 n2; simpl; [reflexivity|].
  unfold Scoring.bind.
  specialize (H a n1 n2).
  destruct (f a n1) as [b1 m1], (g a n2) as [b2 m2]. simpl in H. subst b2.
  specialize (IH m1 m2).
  destruct (mapM f l m1) as [bs1 k1], (mapM g l m2) as [bs2 k2].
  simpl in *. now subst.
Qed.

(** C9, as the code has it.  The output of [scoreSignals] is a function of
    the batch, the limit and the UTC calendar day on which the clock is
    read: two evaluations whose clock reads all fall on one and the same day
    return the same list, however the reads differ within that day. *)
Theorem scoreSignals_determined_by_day
    (parse : jstring -> option Z) (clock1 clock2 : nat -> Z)
    (filings : list Filing) (limit : Z) (n1 n2 : nat) :
  (forall k1 k2, Day (clock1 k1) = Day (clock2 k2)) ->
  fst (scoreSignals (host := {| Date_parse := parse; clock := clock1 |})
                    filings limit n1) =
  fst (scoreSignals (host := {| Date_parse := parse; clock := clock2 |})
                    filings limit n2).
Proof.
  intros Hday.
  rewrite !scoreSignals_eq. f_equal. f_equal. unfold scoredOf.
  apply mapM_fst_ext. intros f m1 m2.
  change (detectClusters (host := {| Date_parse := parse; clock := clock2 |}))
    with (detectClusters (host := {| Date_parse := parse; clock := clock1 |})).
  generalize (has (detectClusters (host := {| Date_parse := parse; clock := clock1 |})
                                  (purchasesOf filings)) (filingKey f)).
  intros inCluster.
  unfold buildSignal, Scoring.bind, Scoring.ret.
  pose proof (scoreRecency_day {| Date_parse := parse; clock := clock1 |}
                               (transactionDate f) m1) as H1.
  pose proof (scoreRecency_day {| Date_parse := parse; clock := clock2 |}
                               (transactionDate f) m2) as H2.
  simpl in H1, H2.
  rewrite (Hday m1 m2), (Hday (S m1) (S m2)) in H1. rewrite <- H2 in H1.
  destruct (scoreRecency _ m1) as [r1 k1], (scoreRecency _ m2) as [r2 k2].
  simpl in *. now subst.
Qed.

End ClockFacts.

(** ** DecisionAgent: the buying-power guard *)

Section BuyingPowerFacts.
Import Js Db Handler DecisionAgent.

Lemma Earmarked_app a l b l' c :
  Earmarked a l b -> Earmarked b l' c -> Earmarked a (l ++ l') c.
Proof.
  intros H. revert l' c. induction H; intros l' c' H'; simpl.
  - exact H'.
  - apply Earmarked_BUY; auto.
  - apply Earmarked_other; auto.
Qed.

(** One iteration either leaves the state as it is (a skip), or accepts the
    decision: a BUY only if the test [remaining < notional] is false, and
    then the counter becomes the difference, as a double. *)
Lemma decideStep_cases ctx st d :
  decideStep ctx st d = st \/
  exists r,
    accepted (decideStep ctx st d) = accepted st ++ [r] /\
    r_action r = d_action d /\ r_notional r = resolveNotional ctx d /\
    ((d_action d = BUY /\
      Double.ltb (remainingBuyingPower st) (resolveNotional ctx d) = false /\
      remainingBuyingPower (decideStep ctx st d) =
      Double.sub (remainingBuyingPower st) (resolveNotional ctx d)) \/
     (d_action d <> BUY /\
      remainingBuyingPower (decideStep ctx st d) = remainingBuyingPower st)).
Proof.
  unfold decideStep.
  destruct (isHold (d_action d)); [now left|].
  destruct (isBuy (d_action d) && held ctx (d_ticker d)); [now left|].
  destruct (isSell (d_action d) && negb (held ctx (d_ticker d))); [now left|].
  destruct (d_action d) eqn:Ea; simpl.
  - destruct (Double.ltb (remainingBuyingPower st) (resolveNotional ctx d)) eqn:El;
      [now left|].
    right. eexists. simpl.
    split; [reflexivity|]. split; [exact Ea|]. split; [reflexivity|].
    left. auto.
  - right. eexists. simpl.
    split; [reflexivity|]. split; [exact Ea|]. split; [reflexivity|].
    right. split; [discriminate | reflexivity].
  - right. eexists. simpl.
    split; [reflexivity|]. split; [exact Ea|]. split; [reflexivity|].
    right. split; [discriminate | reflexivity].
Qed.

(** The invariant of the loop: the accepted recommendations account for
    the counter. *)
Lemma decideLoop_invariant ctx decisions st0 seed :
  Earmarked seed (accepted st0) (remainingBuyingPower st0) ->
  let st := fold_left (decideStep ctx) decisions st0 in
  Earmarked seed (accepted st) (remainingBuyingPower st).
Proof.
  revert st0; induction decisions as [|d ds IH]; intros st0 H0; simpl.
  - exact H0.
  - apply IH.
    destruct (decideStep_cases ctx st0 d)
      as [E|[r [Ha [Hact [Hn [[Hb [Hle Hr]]|[Hb Hr]]]]]]].
    + now rewrite E.
    + rewrite Ha, Hr. apply (Earmarked_app _ _ _ _ _ H0).
      apply Earmarked_BUY; [congruence | now rewrite Hn |].
      rewrite Hn. constructor.
    + rewrite Ha, Hr. apply (Earmarked_app _ _ _ _ _ H0).
      apply Earmarked_other; [congruence | constructor].
Qed.

(** A BUY whose notional exceeds the counter is skipped: the state, counter
    included, is left as it was. *)
Lemma decideStep_skips_uncovered_BUY ctx st d :
  d_action d = BUY ->
  Double.ltb (remainingBuyingPower st) (resolveNotional ctx d) = true ->
  decideStep ctx st d = st.
Proof.
  intros Hb Hlt. unfold decideStep. rewrite Hb. simpl.
  destruct (held ctx (d_ticker d)); [reflexivity|].
  now rewrite Hlt.
Qed.

(** An accepted BUY lowers the counter by its notional at once, so the next
    decision is evaluated against the lowered counter. *)
Lemma decideStep_accepts_covered_BUY ctx st d :
  d_action d = BUY -> held ctx (d_ticker d) = false ->
  Double.ltb (remainingBuyingPower st) (resolveNotional ctx d) = false ->
  decideStep ctx st d =
  {| remainingBuyingPower :=
       Double.sub (remainingBuyingPower st) (resolveNotional ctx d);
     accepted := accepted st ++ [mkRecommendation ctx d (resolveNotional ctx d)] |}.
Proof.
  intros Hb Hh Hle. unfold decideStep. rewrite Hb, Hh. simpl.
  now rewrite Hle.
Qed.

(** A counter that is not below zero at the start of the chain is not below
    zero at its end: each BUY of the chain passed the test against the
    counter it lowers, and the difference of two doubles, the second not
    above the first, rounds to no less than zero. *)
Lemma Earmarked_not_below_zero before l after :
  Earmarked before l after ->
  Double.ltb before (Double.ofZ 0) = false ->
  Double.ltb after (Double.ofZ 0) = false.
Proof.
  induction 1 as [b|b r l a Hb Hlt _ IH|b r l a Hb _ IH]; intros H0.
  - exact H0.
  - apply IH. now apply sub_not_negative.
  - now apply IH.
Qed.

(** C8, as the code has it.  In one run of the guard loop the counter is
    seeded with the fetched balance; a BUY whose notional exceeds the
    counter is skipped with the counter untouched; an accepted BUY lowers
    the counter by its notional, in double arithmetic, before the next
    decision is evaluated.  So every accepted BUY passed the test against
    what the BUYs accepted before it had left of the balance, the counter
    at the end is what they left, and a counter seeded with a balance that
    is not below zero is not below zero at the end of any run, hence at
    no point of a run. *)
Theorem accepted_BUYs_covered_in_turn ctx buyingPower decisions :
  let final := decideLoop ctx buyingPower decisions in
  Earmarked buyingPower (accepted final) (remainingBuyingPower final) /\
  (Double.ltb buyingPower (Double.ofZ 0) = false ->
   Double.ltb (remainingBuyingPower final) (Double.ofZ 0) = false) /\
  (forall st d, d_action d = BUY ->
     Double.ltb (remainingBuyingPower st) (resolveNotional ctx d) = true ->
     decideStep ctx st d = st) /\
  (forall st d rest, d_action d = BUY -> held ctx (d_ticker d) = false ->
     Double.ltb (remainingBuyingPower st) (resolveNotional ctx d) = false ->
     fold_left (decideStep ctx) (d :: rest) st =
     fold_left (decideStep ctx) rest
       {| remainingBuyingPower :=
            Double.sub (remainingBuyingPower st) (resolveNotional ctx d);
          accepted :=
            accepted st ++ [mkRecommendation ctx d (resolveNotional ctx d)] |}).
Proof.
  intros final.
  assert (Earmarked buyingPower (accepted final) (remainingBuyingPower final))
    as Hchain.
  { apply (decideLoop_invariant ctx decisions
             {| remainingBuyingPower := buyingPower; accepted := [] |}).
    constructor. }
  split; [exact Hchain|]. split; [|split].
  - exact (Earmarked_not_below_zero _ _ _ Hchain).
  - apply decideStep_skips_uncovered_BUY.
  - intros st d rest Hb Hh Hle. simpl.
    now rewrite decideStep_accepts_covered_BUY.
Qed.

End BuyingPowerFacts.

(** ** The store *)

Section DbFacts.
Import Js Db.

Lemma find_map_update (i : jstring) (g : RecommendationRow -> RecommendationRow)
    (rows : list RecommendationRow) r :
  (forall x, id (g x) = id x) ->
  find (fun x => eqb (id x) i) rows = Some r ->
  find (fun x => eqb (id x) i)
       (map (fun x => if eqb (id x) i then g x else x) rows) = Some (g r).
Proof.
  intros Hg. induction rows as [|x rows IH]; simpl; [discriminate|].
  destruct (eqb (id x) i) eqn:E.
  - intros [= ->]. simpl. now rewrite Hg, E.
  - intros H. simpl. rewrite E. now apply IH.
Qed.

Lemma find_filter_length (i : jstring) (rows : list RecommendationRow) r :
  find (fun x => eqb (id x) i) rows = Some r ->
  (length (filter (fun x => eqb (id x) i) rows) =? 0)%nat = false.
Proof.
  induction rows as [|x rows IH]; simpl; [discriminate|].
  destruct (eqb (id x) i); [reflexivity | exact IH].
Qed.

(** The statement finds the row by its id alone: whatever the status of the
    row, it is overwritten, and no error is raised. *)
Lemma updateRecommendationStatus_overwrites db i st resolvedAt r :
  getRecommendation db i = Some r ->
  exists db',
    updateRecommendationStatus db i st resolvedAt = (db', None) /\
    getRecommendation db' i = Some (setStatus st resolvedAt r) /\
    positions db' = positions db.
Proof.
  unfold getRecommendation, updateRecommendationStatus, runUpdate, assertSuccess.
  intros H. simpl. rewrite (find_filter_length _ _ _ H).
  eexists. split; [reflexivity|]. simpl. split; [|reflexivity].
  now apply (find_map_update i (setStatus st resolvedAt)).
Qed.

Lemma updateRecommendationStatus_db db i st resolvedAt :
  fst (updateRecommendationStatus db i st resolvedAt) =
  fst (runUpdate db i st resolvedAt).
Proof.
  unfold updateRecommendationStatus, runUpdate, assertSuccess. simpl.
  now destruct (_ =? 0)%nat.
Qed.

End DbFacts.

(** ** The approval route *)

Section ApprovalFacts.
Import Js Db Handler Approval.
Context {host : Host}.

Ltac run :=
  cbv beta iota zeta delta
    [Handler.paperBuyQty Handler.paperBuyBracket Handler.paperSell
     Handler.submit Handler.updateRecommendationStatus Handler.logTrade
     Handler.getRecommendation Handler.now Handler.emit Handler.runStatement
     Handler.liftResult Handler.throw Handler.setPending
     Handler.bind Handler.ret Handler.tryCatch];
  simpl.

(** What validation can come to.  It never throws.  It answers with a
    response and leaves the world alone when the recommendation is unknown
    or resolved; on the approve path it answers "expired" after writing
    EXPIRED; otherwise the recommendation was PENDING and the store and the
    trace are as they were. *)
Lemma validatePending_cases env i checkExpiry w :
  let '(res, w') := validatePending env i checkExpiry w in
  match res with
  | inl _ => False
  | inr (inl resp) =>
      statusCode resp = 400 /\
      ((w' = w /\ ~ statusIs (db w) i PENDING /\
        (body resp = NotFound i \/ exists st, body resp = AlreadyResolved st)) \/
       (checkExpiry = true /\ statusIs (db w) i PENDING /\
        body resp = Expired (orDefault (APPROVAL_EXPIRY_HOURS env) 23) /\
        db w' = fst (runUpdate (db w) i EXPIRED (toISOString (clock (ticks w)))) /\
        trace w' = trace w ++ [(StatusWritten i EXPIRED, db w)]))
  | inr (inr v) =>
      Db.getRecommendation (db w) i = Some (rec v) /\
      status (rec v) = PENDING /\
      resolvedAt v = toISOString (clock (ticks w)) /\
      db w' = db w /\ trace w' = trace w /\
      (checkExpiry && nonEmpty (created_at (rec v)) = true ->
       ageAtLeast (clock (S (ticks w))) (Date_parse (created_at (rec v)))
                  (orDefault (APPROVAL_EXPIRY_HOURS env) 23 * MS_PER_HOUR) = false)
  end.
Proof.
  unfold validatePending. run.
  destruct (Db.getRecommendation (db w) i) as [r|] eqn:Er.
  - destruct (status r) eqn:Es; simpl;
      try (split; [reflexivity|]; left; split; [reflexivity|];
           split; [intros [r' [Hr' Hs']]; congruence | right; eauto]).
    destruct (checkExpiry && nonEmpty (created_at r)) eqn:Ec; simpl.
    + destruct (ageAtLeast _ _ _) eqn:Eage; simpl.
      * pose proof (updateRecommendationStatus_db (db w) i EXPIRED
                      (toISOString (clock (ticks w)))) as Hdb.
        destruct (Db.updateRecommendationStatus _ _ _ _) as [d [e|]]; simpl in *;
          (split; [reflexivity|]; right; apply andb_true_iff in Ec;
           destruct Ec as [-> _]; repeat split;
           [exists r; auto | exact Hdb]).
      * repeat split; auto.
    + repeat split; auto; intros; simpl in *; congruence.
  - simpl. split; [reflexivity|]. left. split; [reflexivity|].
    split; [|now left]. intros [r' [Hr' _]]. congruence.
Qed.

Lemma StepFive_giveUp env w (resp : Response) :
  gaveUp (body resp) -> 400 <= statusCode resp ->
  StepFive env w (Handler.ret (inl resp) w).
Proof. intros Hg Hc. simpl. auto. Qed.

Lemma StepFive_submit env w req :
  StepFive env w ((order <- submit env req ;; Handler.ret (inr order)) w).
Proof.
  unfold StepFive. run.
  destruct (postOrder env req) as [e|order] eqn:E; simpl;
    (split; [reflexivity|]); [right|]; eauto.
Qed.

Lemma submitOrder_cases env r w : StepFive env w (submitOrder env r w).
Proof.
  unfold submitOrder.
  assert (Hsell :
            StepFive env w
              ((positions <- liftResult (getPortfolio env) ;;
                match find (fun p => eqb (symbol p) (Db.ticker r)) positions with
                | None =>
                    Handler.ret (inl (text (NoOpenPosition (Db.ticker r)) 400))
                | Some position =>
                    order <- paperSell env (Db.ticker r) (qty position) ;;
                    Handler.ret (inr order)
                end) w)).
  { unfold Handler.bind at 1, liftResult.
    destruct (getPortfolio env) as [e|positions];
      [split; [reflexivity | now left]|].
    destruct (find _ positions) as [position|].
    - apply StepFive_submit.
    - apply StepFive_giveUp; simpl; [exact I | lia]. }
  destruct (action r); [|exact Hsell|exact Hsell].
  unfold Handler.bind at 1, liftResult.
  destruct (getPositionPrices env [Db.ticker r]) as [e|prices];
    [split; [reflexivity | now left]|].
  destruct (prices (Db.ticker r)) as [currentPrice|];
    [|apply StepFive_giveUp; simpl; [exact I | lia]].
  destruct (negb (Double.truthy currentPrice));
    [apply StepFive_giveUp; simpl; [exact I | lia]|].
  destruct (Double.ltb (Double.floor (Double.div (notional r) currentPrice))
                       (Double.ofZ 1));
    [apply StepFive_giveUp; simpl; [exact I | lia]|].
  destruct (stop_price r) as [sp|]; [destruct (take_profit_price r) as [tp|]|].
  - destruct (Double.ltb sp currentPrice && Double.gtb tp currentPrice);
      apply StepFive_submit.
  - apply StepFive_submit.
  - apply StepFive_submit.
Qed.

Lemma handleApprove_cases i env w :
  exists resp w',
    handleApprove i env w = (inr resp, w') /\ ApproveOutcome i env w resp w'.
Proof.
  unfold handleApprove. unfold Handler.bind at 1.
  pose proof (validatePending_cases env i true w) as Hv.
  destruct (validatePending env i true w) as [[e|[resp|v]] w1]; [contradiction| |].
  - exists resp, w1. split; [reflexivity|].
    destruct Hv as [Hc [[-> [Hn Hb]]|[_ [Hp [Hb [Hd Ht]]]]]].
    + now apply NotActionable.
    + apply FoundExpired; eauto.
  - destruct Hv as [Hget [Hst [Hres [Hd [Ht _]]]]].
    assert (Hp : statusIs (db w) i PENDING) by (exists (rec v); auto).
    assert (Hhold : exists resp w',
               Handler.ret (text HoldNotExecutable 400) w1 = (inr resp, w') /\
               ApproveOutcome i env w resp w').
    { eexists; eexists. split; [reflexivity|]. now apply HoldRefused. }
    assert (Hgo : exists resp w',
              (placed <- tryCatch (submitOrder env (rec v))
                 (fun err => Handler.ret (inl (text (OrderSubmissionFailed err) 500))) ;;
               match placed with
               | inl response => Handler.ret response
               | inr order =>
                   tryCatch (logTrade (orderToTradeLog order (rec v)))
                            (fun _ => Handler.ret tt) ;;;
                   tryCatch (updateRecommendationStatus i APPROVED (resolvedAt v))
                            (fun _ => Handler.ret tt) ;;;
                   Handler.ret (text (TradeExecuted (action (rec v))
                                                    (Db.ticker (rec v))) 200)
               end) w1 = (inr resp, w') /\
              ApproveOutcome i env w resp w').
    { unfold Handler.bind at 1, tryCatch at 1.
      pose proof (submitOrder_cases env (rec v) w1) as Hs. unfold StepFive in Hs.
      destruct (submitOrder env (rec v) w1) as [[e|[resp|order]] w2];
        destruct Hs as [Hd2 Hs].
      - eexists; eexists. split; [reflexivity|].
        apply (SubmissionFailed _ _ _ _ _ e); auto; try congruence.
        rewrite Hd, Ht in Hs. destruct Hs as [Hs|[req [Hq Hs]]];
          [left | right; exists req]; auto.
      - eexists; eexists. split; [reflexivity|].
        destruct Hs as [Ht2 [Hg Hc]].
        apply GaveUp; auto; congruence.
      - destruct Hs as [req [Hq Ht2]].
        pose proof (updateRecommendationStatus_overwrites
                      (fst (Db.logTrade (db w2) (orderToTradeLog order (rec v))))
                      i APPROVED (resolvedAt v) (rec v)) as Hu.
        destruct Hu as [db' [Hu [Hget' _]]].
        { unfold Db.logTrade, Db.getRecommendation. simpl.
          rewrite Hd2, Hd. exact Hget. }
        run. unfold Db.logTrade in Hu. simpl in Hu. rewrite Hu. simpl.
        eexists; eexists. split; [reflexivity|].
        apply (Executed _ _ _ _ _ (rec v) req order); auto; simpl.
        + rewrite Ht2, Hd2, Hd, Ht, <- !app_assoc. reflexivity.
        + eexists. split; [exact Hget' | reflexivity]. }
    destruct (action (rec v)); [exact Hgo | exact Hgo | exact Hhold].
Qed.

(** Step 5 under each of its failures: the early answer, or the error
    thrown. *)
Lemma submitOrder_fails env r w m :
  StepFiveFails env r m ->
  exists w',
    (exists code, submitOrder env r w = (inr (inl (text m code)), w') /\
                  400 <= code /\ gaveUp m) \/
    (exists e, submitOrder env r w = (inl e, w') /\
               m = OrderSubmissionFailed e).
Proof.
  intros Hfail. unfold submitOrder.
  destruct Hfail as [e Ha Hq | prices Ha Hq Hp | prices p Ha Hq Hp Ht Hlt
                    | e Ha Hq | held Ha Hq Hf | req e Hh Hord Hpost].
  - rewrite Ha. run. rewrite Hq. simpl. exists w. right. exists e. auto.
  - rewrite Ha. run. rewrite Hq. simpl. exists w.
    left. exists 500. destruct Hp as [-> | [p [-> Hz]]].
    + split; [reflexivity|]. split; [lia | exact I].
    + rewrite Hz. simpl. split; [reflexivity|]. split; [lia | exact I].
  - rewrite Ha. run. rewrite Hq. simpl. rewrite Hp, Ht. simpl. rewrite Hlt.
    exists w. left. exists 400. split; [reflexivity|]. split; [lia | exact I].
  - rewrite Ha. run. rewrite Hq. simpl. exists w. right. exists e. auto.
  - rewrite Ha. run. rewrite Hq. simpl. rewrite Hf.
    exists w. left. exists 400. split; [reflexivity|]. split; [lia | exact I].
  - unfold orderFor in Hord. destruct (action r) eqn:Ea; [| |contradiction].
    + destruct Hord as (prices & p & Hq & Hp & Ht & Hge & Hreq).
      run. rewrite Hq. simpl. rewrite Hp, Ht. simpl. rewrite Hge.
      destruct Hreq as [(sp & tp & Hs & Htp & H1 & H2 & ->) | [-> Hno]].
      * rewrite Hs, Htp, H1, H2. simpl. rewrite Hpost. simpl.
        eexists. right. exists e. split; reflexivity.
      * destruct (stop_price r) as [sp|] eqn:Es;
          [destruct (take_profit_price r) as [tp|] eqn:Et|].
        -- destruct (Double.ltb sp p && Double.gtb tp p) eqn:Eb.
           ++ exfalso. apply Hno. apply andb_true_iff in Eb.
              destruct Eb. exists sp, tp. auto.
           ++ rewrite Hpost. simpl.
              eexists. right. exists e. split; reflexivity.
        -- rewrite Hpost. simpl.
           eexists. right. exists e. split; reflexivity.
        -- rewrite Hpost. simpl.
           eexists. right. exists e. split; reflexivity.
    + destruct Hord as (held & position & Hq & Hf & ->).
      run. rewrite Hq. simpl. rewrite Hf. simpl. rewrite Hpost. simpl.
      eexists. right. exists e. split; reflexivity.
Qed.

End ApprovalFacts.

(** ** The approval route: ordering, expiry and failure *)

Section LifecycleFacts.
Import Js Db Handler Approval DecisionAgent.
Context {host : Host}.

(** What it means for an order that validation has passed: the
    recommendation was read as PENDING, and the expiry check did not fire
    (the creation time is empty, or does not parse, or lies less than the
    expiry window before the handler's [Date.now()]). *)
Lemma order_only_after_validation i env w :
  (exists v w1,
     validatePending env i true w = (inr (inr v), w1) /\
     Db.getRecommendation (db w) i = Some (rec v) /\
     status (rec v) = PENDING /\
     (nonEmpty (created_at (rec v)) = true ->
      ageAtLeast (clock (S (ticks w))) (Date_parse (created_at (rec v)))
                 (orDefault (APPROVAL_EXPIRY_HOURS env) 23 * MS_PER_HOUR) =
      false)) \/
  (exists new0,
     trace (snd (handleApprove i env w)) = trace w ++ new0 /\
     forall req d, ~ In (OrderSubmitted req, d) new0).
Proof.
  pose proof (validatePending_cases env i true w) as Hv.
  unfold handleApprove, Handler.bind at 1.
  destruct (validatePending env i true w) as [[e|[resp|v]] w1];
    [contradiction| |].
  - right. simpl.
    destruct Hv as [_ [[-> _]|[_ [_ [_ [_ Ht]]]]]].
    + exists []. rewrite app_nil_r. split; [reflexivity|]. intros req d [].
    + eexists. split; [exact Ht|]. intros req d [[=]|[]].
  - left. exists v, w1. destruct Hv as [Hg [Hs [_ [_ [_ Hage]]]]].
    repeat split; auto.
Qed.

(** C2, as the code has it.  [handleApprove] adds to the trace nothing, or
    the EXPIRED write, or one order, or one order followed by the trade log
    and the APPROVED write.  Every order is submitted after validation has
    passed: the recommendation was read as PENDING and was not found
    expired.  In a handler that runs with no other handler in between, the
    store still holds the recommendation as PENDING when the order goes
    out; APPROVED is written only after the brokerage has accepted the
    order. *)
Theorem order_precedes_APPROVED_write i env w :
  exists new,
    trace (snd (handleApprove i env w)) = trace w ++ new /\
    (forall req d, In (OrderSubmitted req, d) new ->
       d = db w /\ statusIs d i PENDING /\
       exists v w1,
         validatePending env i true w = (inr (inr v), w1) /\
         Db.getRecommendation (db w) i = Some (rec v) /\
         status (rec v) = PENDING /\
         (nonEmpty (created_at (rec v)) = true ->
          ageAtLeast (clock (S (ticks w))) (Date_parse (created_at (rec v)))
                     (orDefault (APPROVAL_EXPIRY_HOURS env) 23 * MS_PER_HOUR) =
          false)) /\
    (forall d, In (StatusWritten i APPROVED, d) new ->
       exists req order t,
         postOrder env req = inr order /\
         new = [(OrderSubmitted req, db w); (TradeLogged t, db w);
                (StatusWritten i APPROVED, d)]).
Proof.
  pose proof (order_only_after_validation i env w) as Hval.
  destruct (handleApprove_cases i env w) as [resp [w' [E Hout]]].
  rewrite E in *. simpl in *.
  assert (Hfresh : forall new req d,
            trace w' = trace w ++ new -> In (OrderSubmitted req, d) new ->
            exists v w1,
              validatePending env i true w = (inr (inr v), w1) /\
              Db.getRecommendation (db w) i = Some (rec v) /\
              status (rec v) = PENDING /\
              (nonEmpty (created_at (rec v)) = true ->
               ageAtLeast (clock (S (ticks w))) (Date_parse (created_at (rec v)))
                          (orDefault (APPROVAL_EXPIRY_HOURS env) 23 * MS_PER_HOUR) =
               false)).
  { intros new req d Ht Hin. destruct Hval as [Hv|[new0 [Ht0 Hno]]]; [exact Hv|].
    rewrite Ht in Ht0. apply app_inv_head in Ht0. subst new0.
    now destruct (Hno req d). }
  destruct Hout as [Hn Hb Hc ->|Hp Hb Hc Hd Ht|Hp Hb Hc Hd Ht|Hp Hg Hc Hd Ht
                   |e Hp Hb Hc Hd [Ht|[req [Hq Ht]]]|r req order Hget Hst Hq Hb Hc Ht Ha].
  - exists []. rewrite app_nil_r. repeat split; intros; contradiction.
  - eexists. split; [exact Ht|]. split.
    + intros req d [[=]|[]].
    + intros d [[=]|[]].
  - exists []. rewrite app_nil_r. repeat split; auto; intros; contradiction.
  - exists []. rewrite app_nil_r. repeat split; auto; intros; contradiction.
  - exists []. rewrite app_nil_r. repeat split; auto; intros; contradiction.
  - eexists. split; [exact Ht|]. split.
    + intros req' d Hin. pose proof (Hfresh _ req' d Ht Hin) as Hf.
      destruct Hin as [[= <- <-]|[]]. auto.
    + intros d [[=]|[]].
  - eexists. split; [exact Ht|]. split.
    + intros req' d Hin. pose proof (Hfresh _ req' d Ht Hin) as Hf.
      destruct Hin as [[= <- <-]|[[=]|[[=]|[]]]]. split; [reflexivity|].
      split; [exists r; auto | exact Hf].
    + intros d [[=]|[[=]|[[= <-]|[]]]]. exists req, order. eauto.
Qed.

(** C3.  A recommendation that is PENDING, whose creation time parses and
    lies at least the expiry duration (APPROVAL_EXPIRY_HOURS, 23 when unset
    or zero) before the handler's [Date.now()]: [handleApprove] answers 400
    "expired", the stored status becomes EXPIRED, and the EXPIRED write is
    all it does: no order, no APPROVED write. *)
Theorem stale_approval_rejected_and_EXPIRED i env w r created :
  Db.getRecommendation (db w) i = Some r ->
  status r = PENDING ->
  created_at r <> [] ->
  Date_parse (created_at r) = Some created ->
  (orDefault (APPROVAL_EXPIRY_HOURS env) 23 * MS_PER_HOUR <=
   inject_Z (clock (S (ticks w)) - created))%Q ->
  exists resp w',
    handleApprove i env w = (inr resp, w') /\
    body resp = Expired (orDefault (APPROVAL_EXPIRY_HOURS env) 23) /\
    statusCode resp = 400 /\
    statusIs (db w') i EXPIRED /\
    trace w' = trace w ++ [(StatusWritten i EXPIRED, db w)].
Proof.
  intros Hget Hst Hne Hparse Hage.
  assert (Hold : ageAtLeast (clock (S (ticks w))) (Date_parse (created_at r))
                   (orDefault (APPROVAL_EXPIRY_HOURS env) 23 * MS_PER_HOUR) = true)
    by (rewrite Hparse; unfold ageAtLeast; now apply Qle_bool_iff).
  assert (Hnon : nonEmpty (created_at r) = true)
    by (destruct (created_at r); [congruence | reflexivity]).
  unfold handleApprove, Handler.bind at 1.
  pose proof (validatePending_cases env i true w) as Hv.
  destruct (validatePending env i true w) as [[e|[resp|v]] w1]; [contradiction| |].
  - exists resp, w1. split; [reflexivity|].
    destruct Hv as [Hc [[_ [Hn _]]|[_ [_ [Hb [Hd Ht]]]]]].
    + exfalso. apply Hn. now exists r.
    + repeat split; auto.
      destruct (updateRecommendationStatus_overwrites (db w) i EXPIRED
                  (toISOString (clock (ticks w))) r Hget) as [db' [Hu [Hget' _]]].
      exists (setStatus EXPIRED (toISOString (clock (ticks w))) r).
      split; [|reflexivity].
      rewrite Hd, <- updateRecommendationStatus_db, Hu. exact Hget'.
  - exfalso. destruct Hv as [Hg [_ [_ [_ [_ Hfresh]]]]].
    rewrite Hget in Hg. injection Hg as Hg. rewrite <- Hg in Hfresh.
    rewrite Hnon in Hfresh. specialize (Hfresh eq_refl). congruence.
Qed.

(** When [handleApprove] answers with a failure of step 5, the response is
    an error and the store is what it was, the recommendation still
    PENDING. *)
Lemma failure_answers_leave_PENDING i env w resp w' :
  handleApprove i env w = (inr resp, w') ->
  failedInStepFive (body resp) ->
  400 <= statusCode resp /\ db w' = db w /\ statusIs (db w') i PENDING.
Proof.
  intros E Hf.
  destruct (handleApprove_cases i env w) as [resp' [w'' [E' Hout]]].
  rewrite E in E'. injection E' as <- <-.
  destruct Hout as [Hn Hb Hc ->|Hp Hb Hc Hd Ht|Hp Hb Hc Hd Ht|Hp Hg Hc Hd Ht
                   |e Hp Hb Hc Hd Ht|r req order Hget Hst Hq Hb Hc Ht Ha].
  - destruct Hb as [Hb|[st Hb]]; rewrite Hb in Hf; contradiction.
  - destruct Hb as [h Hb]. rewrite Hb in Hf. contradiction.
  - rewrite Hb in Hf. contradiction.
  - rewrite Hd. auto.
  - rewrite Hd. repeat split; auto. lia.
  - rewrite Hb in Hf. contradiction.
Qed.

(** C10.  Once validation has passed for a recommendation that is not a
    HOLD, each failure of step 5 (the quote unavailable, fewer than one
    whole share for the notional, nothing to sell, a brokerage read or the
    order submission throwing) makes [handleApprove] answer with the error
    of that failure, with a code of 400 or more; the store is what it was,
    the recommendation still PENDING: no status was written and no trade
    logged. *)
Theorem failed_approval_leaves_PENDING i env w v w1 m :
  validatePending env i true w = (inr (inr v), w1) ->
  action (rec v) <> HOLD ->
  StepFiveFails env (rec v) m ->
  exists resp w',
    handleApprove i env w = (inr resp, w') /\
    body resp = m /\ failedInStepFive m /\ 400 <= statusCode resp /\
    db w' = db w /\ statusIs (db w') i PENDING /\
    (forall j st d, In (StatusWritten j st, d) (trace w') ->
                    In (StatusWritten j st, d) (trace w)) /\
    (forall t d, In (TradeLogged t, d) (trace w') ->
                 In (TradeLogged t, d) (trace w)).
Proof.
  intros Hv Hh Hfail.
  pose proof (validatePending_cases env i true w) as Hc. rewrite Hv in Hc.
  destruct Hc as [Hget [Hst [_ [Hd [Ht _]]]]].
  assert (Hp : statusIs (db w) i PENDING) by (exists (rec v); auto).
  pose proof (submitOrder_cases env (rec v) w1) as Hs5.
  destruct (submitOrder_fails env (rec v) w1 m Hfail)
    as (w2 & [(code & Hs & Hcode & Hg) | (e & Hs & ->)]).
  - exists (text m code), w2. rewrite Hs in Hs5.
    destruct Hs5 as [Hd2 [Ht2 _]].
    split.
    { unfold handleApprove, Handler.bind at 1. rewrite Hv.
      destruct (action (rec v)); try contradiction;
        unfold Handler.bind at 1, tryCatch at 1; now rewrite Hs. }
    simpl. split; [reflexivity|]. split; [now destruct m|].
    split; [exact Hcode|]. split; [congruence|].
    split; [now rewrite Hd2, Hd|].
    rewrite Ht2, Ht. auto.
  - exists (text (OrderSubmissionFailed e) 500), w2.
    rewrite Hs in Hs5. destruct Hs5 as [Hd2 Ht2].
    split.
    { unfold handleApprove, Handler.bind at 1. rewrite Hv.
      destruct (action (rec v)); try contradiction;
        unfold Handler.bind at 1, tryCatch at 1; now rewrite Hs. }
    simpl. split; [reflexivity|]. split; [exact I|].
    split; [lia|]. split; [congruence|].
    split; [now rewrite Hd2, Hd|].
    destruct Ht2 as [Ht2 | (req & _ & Ht2)]; rewrite Ht2, Ht; [auto|].
    split.
    + intros j st d Hin. apply in_app_or in Hin.
      destruct Hin as [Hin|[[=]|[]]]. exact Hin.
    + intros t d Hin. apply in_app_or in Hin.
      destruct Hin as [Hin|[[=]|[]]]. exact Hin.
Qed.

(** The two routes leave a resolved recommendation alone. *)
Lemma routes_leave_resolved_alone i env w r :
  Db.getRecommendation (db w) i = Some r -> status r <> PENDING ->
  snd (handleApprove i env w) = w /\ snd (handleReject i env w) = w.
Proof.
  intros Hget Hst.
  assert (Hno : ~ statusIs (db w) i PENDING).
  { intros [r' [Hr' Hs']]. congruence. }
  split.
  - unfold handleApprove, Handler.bind at 1.
    pose proof (validatePending_cases env i true w) as Hv.
    destruct (validatePending env i true w) as [[e|[resp|v]] w1]; [contradiction| |].
    + destruct Hv as [_ [[-> _]|[_ [Hp _]]]]; [reflexivity | contradiction].
    + destruct Hv as [Hg [Hs _]]. exfalso. apply Hno. now exists (rec v).
  - unfold handleReject, Handler.bind at 1.
    pose proof (validatePending_cases env i false w) as Hv.
    destruct (validatePending env i false w) as [[e|[resp|v]] w1]; [contradiction| |].
    + destruct Hv as [_ [[-> _]|[Hc _]]]; [reflexivity | discriminate].
    + destruct Hv as [Hg [Hs _]]. exfalso. apply Hno. now exists (rec v).
Qed.

(** The expiry callback overwrites the recommendation whatever its status:
    the write is keyed on the id alone. *)
Lemma expireRecommendation_overwrites i w r :
  Db.getRecommendation (db w) i = Some r ->
  Db.getRecommendation (db (snd (expireRecommendation i w))) i =
  Some (setStatus EXPIRED (toISOString (clock (ticks w))) r).
Proof.
  intros Hget.
  destruct (updateRecommendationStatus_overwrites (db w) i EXPIRED
              (toISOString (clock (ticks w))) r Hget) as [db' [Hu [Hget' _]]].
  unfold expireRecommendation.
  cbv beta iota zeta delta
    [Handler.updateRecommendationStatus Handler.now Handler.setPending
     Handler.emit Handler.runStatement Handler.bind Handler.ret Handler.tryCatch].
  simpl. rewrite Hu. simpl. exact Hget'.
Qed.

End LifecycleFacts.

(** ** The scenarios, run *)

Section Runs.
Import Js Scoring Db Handler Approval DecisionAgent Scenario.

(** The scoring test's batch on 2024-11-01: scores and factor breakdowns in
    output order.  The "Vice President of Operations" comes out at 40. *)
Example scoreSignals_mockFilings :
  map (fun s => (Scoring.ticker (filing s), score s,
                 (roleFactor (scoreBreakdown s), valueFactor (scoreBreakdown s),
                  clusterBonus (scoreBreakdown s),
                  recencyFactor (scoreBreakdown s))))
      (fst (scoreSignalsDefault (host := frozen) mockFilings 0%nat)) =
  [ (str "MEGA", 80, (40, 20, 0, 20));
    (str "CLUSTER", 70, (25, 5, 20, 20));
    (str "CLUSTER", 65, (25, 10, 20, 10));
    (str "SMALL", 40, (40, 0, 0, 0)) ].
Proof. vm_compute. reflexivity. Qed.

(** C1, on the code.  A recommendation approved at noon: when its expiry
    timer fires at 18:00 the callback raises no error, the stored status
    becomes EXPIRED, [resolved_at] is overwritten, and the id leaves the
    pending list, as if the expiry had resolved it. *)
Theorem expiry_timer_overwrites_APPROVED :
  let w := worldWith approvedBuy in
  let '(res, w') := expireRecommendation (host := frozen) (str "rec-1") w in
  option_map (fun r => (status r, resolved_at r))
             (Db.getRecommendation (db w) (str "rec-1")) =
    Some (APPROVED, Some (str "2024-11-01T12:00:00.000Z")) /\
  res = inr tt /\
  option_map (fun r => (status r, resolved_at r))
             (Db.getRecommendation (db w') (str "rec-1")) =
    Some (EXPIRED, Some (str "2024-11-01T18:00:00.123Z")) /\
  trace w' = [(StatusWritten (str "rec-1") EXPIRED, db w)] /\
  pendingRecommendationIds w' = [].
Proof. vm_compute. repeat split; reflexivity. Qed.

(** The usual course of an approved recommendation: it is approved at
    18:00, and its expiry timer, which the approval does not cancel, fires
    later: the store ends with EXPIRED. *)
Example approved_then_timer_fires :
  let w := worldWith freshBuy in
  let i := str "rec-1" in
  let w1 := snd (handleApprove (host := frozen) i (brokerage (Some (dollars 100))) w) in
  let w2 := snd (expireRecommendation (host := frozen) i w1) in
  option_map status (Db.getRecommendation (db w1) i) = Some APPROVED /\
  option_map status (Db.getRecommendation (db w2) i) = Some EXPIRED.
Proof. vm_compute. split; reflexivity. Qed.

(** The same through [updateRecommendationStatus] itself, for each of the
    three targets: a REJECTED row is overwritten without error. *)
Example updateRecommendationStatus_not_conditional :
  forall target,
    let db0 := {| recommendations :=
                    [mkRow "rec-1" BUY REJECTED (dollars 500) "2024-11-01"
                           (Some (str "2024-11-01T12:00:00.000Z"))];
                  Db.positions := [] |} in
    let '(db1, err) :=
      Db.updateRecommendationStatus db0 (str "rec-1") target (str "later") in
    err = None /\
    option_map (fun r => (status r, resolved_at r))
               (Db.getRecommendation db1 (str "rec-1")) =
      Some (target, Some (str "later")).
Proof. intros target. vm_compute. split; reflexivity. Qed.

(** C2, on the code.  It is not so that every order is submitted with the
    recommendation no longer PENDING: approving a fresh BUY of $500 at a
    quote of $100 submits a market order for 5 shares while the store still
    holds the recommendation as PENDING. *)
Lemma order_submitted_while_still_PENDING :
  ~ (forall (h : Host) env i w req d,
       In (OrderSubmitted req, d) (trace (snd (handleApprove i env w))) ->
       ~ statusIs d i PENDING).
Proof.
  intros H.
  apply (H frozen (brokerage (Some (dollars 100))) (str "rec-1") (worldWith freshBuy)
           (MarketBuyQty (str "AAPL") (Double.ofZ 5)) (db (worldWith freshBuy))).
  - vm_compute. left. reflexivity.
  - exists freshBuy. split; reflexivity.
Qed.

(** What that approval does, in order. *)
Example approval_of_fresh_BUY :
  let w := worldWith freshBuy in
  let '(res, w') :=
    handleApprove (host := frozen) (str "rec-1") (brokerage (Some (dollars 100))) w in
  res = inr (text (TradeExecuted BUY (str "AAPL")) 200) /\
  map fst (trace w') =
    [ OrderSubmitted (MarketBuyQty (str "AAPL") (Double.ofZ 5));
      TradeLogged (orderToTradeLog filled freshBuy);
      StatusWritten (str "rec-1") APPROVED ] /\
  option_map status (Db.getRecommendation (db w') (str "rec-1")) = Some APPROVED.
Proof. vm_compute. repeat split; reflexivity. Qed.

(** C3 at a recommendation created 66 hours before the approval. *)
Lemma stale_approval_witness :
  exists resp w',
    handleApprove (host := frozen) (str "rec-1") (brokerage (Some (dollars 100)))
                  (worldWith staleBuy) = (inr resp, w') /\
    body resp = Expired 23 /\
    statusCode resp = 400 /\
    statusIs (db w') (str "rec-1") EXPIRED /\
    trace w' = [(StatusWritten (str "rec-1") EXPIRED, db (worldWith staleBuy))].
Proof.
  apply (stale_approval_rejected_and_EXPIRED (host := frozen) (str "rec-1")
           (brokerage (Some (dollars 100))) (worldWith staleBuy) staleBuy 1730246400000).
  - reflexivity.
  - reflexivity.
  - discriminate.
  - reflexivity.
  - apply Qle_bool_iff. reflexivity.
Defined.


(** C7 at the batch of the scoring test: four purchases, limit 10. *)
Lemma keeps_every_purchase_witness :
  Z.of_nat (length (purchasesOf mockFilings)) <= 10 /\
  Permutation
    (map filing (fst (scoreSignals (host := frozen) mockFilings 10 0%nat)))
    (purchasesOf mockFilings).
Proof.
  assert (H : Z.of_nat (length (purchasesOf mockFilings)) <= 10)
    by (vm_compute; discriminate).
  split; [exact H|].
  exact (proj1 (scoreSignals_keeps_every_purchase (host := frozen)
                  mockFilings 10 0%nat H)).
Defined.

(** A run with $1000 of buying power and BUYs of $600, $600 and $300: the
    second is skipped, the third is accepted against the $400 left. *)
Example decideLoop_run :
  let final := decideLoop runContext (dollars 1000)
                 [buy "AAA" (dollars 600); buy "BBB" (dollars 600);
                  buy "CCC" (dollars 300)] in
  map r_ticker (accepted final) = [str "AAA"; str "CCC"] /\
  remainingBuyingPower final = dollars 100.
Proof. vm_compute. split; reflexivity. Qed.

(** C8, on the code.  The notionals of the accepted BUYs can sum to more
    than the balance.  With a buying power of 100.1 and BUYs of 0.1 and 100
    the counter after the first BUY is the double nearest to the
    difference, which is 100, so the second BUY passes the test: both are
    accepted, and the two notionals together exceed the balance. *)
Lemma accepted_BUYs_can_exceed_the_balance :
  ~ (forall ctx buyingPower decisions total balance,
       buyNotional (accepted (decideLoop ctx buyingPower decisions)) = Some total ->
       Double.toQ buyingPower = Some balance ->
       (total <= balance)%Q).
Proof.
  intros H.
  specialize (H runContext (Double.decimal 1001 10)
                [buy "AAA" (Double.decimal 1 10); buy "BBB" (dollars 100)]
                _ _ eq_refl eq_refl).
  vm_compute in H. now apply H.
Qed.

(** That run, and the same decisions against a balance that did not parse:
    [NaN < notional] is false, so nothing is skipped. *)
Example decideLoop_rounding_and_NaN :
  let decisions := [buy "AAA" (Double.decimal 1 10); buy "BBB" (dollars 100)] in
  let final := decideLoop runContext (Double.decimal 1001 10) decisions in
  map r_ticker (accepted final) = [str "AAA"; str "BBB"] /\
  remainingBuyingPower final = dollars 0 /\
  map r_ticker (accepted (decideLoop runContext Double.NaN decisions)) =
    [str "AAA"; str "BBB"].
Proof. vm_compute. repeat split; reflexivity. Qed.

(** C9, on the code.  Two evaluations of [scoreSignals] on the same batch
    need not agree: with a clock that shows 2024-11-01 at the first read and
    2024-11-03 afterwards, a purchase dated 2024-11-01 scores 80 in the
    evaluation that reads the clock first and 60 in a later one. *)
Lemma scoreSignals_depends_on_clock :
  ~ (forall (h : Host) filings limit n1 n2,
       fst (scoreSignals filings limit n1) = fst (scoreSignals filings limit n2)).
Proof.
  intros H. specialize (H passing onePurchase 10 0%nat 1%nat).
  apply (f_equal (map score)) in H. vm_compute in H. discriminate.
Qed.

Example scoreSignals_two_days :
  map score (fst (scoreSignals (host := passing) onePurchase 10 0%nat)) = [80] /\
  map score (fst (scoreSignals (host := passing) onePurchase 10 1%nat)) = [60].
Proof. vm_compute. split; reflexivity. Qed.

(** C9 (as the code has it) at two clocks an hour apart on 2024-11-01. *)
Lemma determined_by_day_witness :
  (forall k1 k2 : nat, Day t0 = Day (t0 + 3600000)) /\
  fst (scoreSignals
         (host := {| Date_parse := parseDateOnly; clock := fun _ => t0 |})
         mockFilings 10 0%nat) =
  fst (scoreSignals
         (host := {| Date_parse := parseDateOnly;
                     clock := fun _ => t0 + 3600000 |})
         mockFilings 10 5%nat).
Proof.
  assert (H : forall k1 k2 : nat, Day t0 = Day (t0 + 3600000))
    by (intros; reflexivity).
  split; [exact H|].
  exact (scoreSignals_determined_by_day parseDateOnly (fun _ => t0)
           (fun _ => t0 + 3600000) mockFilings 10 0%nat 5%nat H).
Defined.

(** The three failures of step 5 that leave the recommendation PENDING: no
    quote, a quote above the notional, a refused order. *)
Example approval_failures :
  let w := worldWith freshBuy in
  let i := str "rec-1" in
  let pending w' :=
    option_map status (Db.getRecommendation (db w') i) = Some PENDING in
  (let '(res, w') := handleApprove (host := frozen) i (brokerage None) w in
   res = inr (text (PriceUnavailable (str "AAPL")) 500) /\ pending w') /\
  (let '(res, w') := handleApprove (host := frozen) i (brokerage (Some (dollars 1000))) w in
   res = inr (text (NotionalTooSmall (str "AAPL") (dollars 500) (dollars 1000))
                     400) /\ pending w') /\
  (let '(res, w') := handleApprove (host := frozen) i refusing w in
   res = inr (text (OrderSubmissionFailed (AlpacaError 403)) 500) /\ pending w').
Proof. vm_compute. repeat split; reflexivity. Qed.

(** C10 at the refused order: a fresh BUY of $500 at a quote of $100, the
    order for five shares refused with 403. *)
Lemma failed_approval_witness :
  exists resp w',
    handleApprove (host := frozen) (str "rec-1") refusing (worldWith freshBuy) =
      (inr resp, w') /\
    body resp = OrderSubmissionFailed (AlpacaError 403) /\
    failedInStepFive (OrderSubmissionFailed (AlpacaError 403)) /\
    400 <= statusCode resp /\
    db w' = db (worldWith freshBuy) /\
    statusIs (db w') (str "rec-1") PENDING /\
    (forall j st d, In (StatusWritten j st, d) (trace w') ->
                    In (StatusWritten j st, d) (trace (worldWith freshBuy))) /\
    (forall t d, In (TradeLogged t, d) (trace w') ->
                 In (TradeLogged t, d) (trace (worldWith freshBuy))).
Proof.
  apply (failed_approval_leaves_PENDING (host := frozen) (str "rec-1") refusing
           (worldWith freshBuy)
           {| rec := freshBuy; resolvedAt := toISOString t0 |}
           (snd (validatePending (host := frozen) refusing (str "rec-1") true
                                 (worldWith freshBuy)))).
  - reflexivity.
  - discriminate.
  - apply (OrderRefused refusing freshBuy
             (MarketBuyQty (str "AAPL") (Double.ofZ 5)) (AlpacaError 403)).
    + discriminate.
    + exists (fun _ => Some (dollars 100)), (dollars 100).
      split; [reflexivity|]. split; [reflexivity|]. split; [reflexivity|].
      split; [reflexivity|]. right. split; [reflexivity|].
      intros (sp & tp & Hs & _). discriminate.
    + reflexivity.
Defined.

End Runs.

(* ===================================================================== *)
(** * Further properties of the code                                     *)
(* ===================================================================== *)

(** ** Scoring: what [scoreSignals] selects *)

Section SelectionFacts.
Import Js Scoring.
Context {host : Host}.

Lemma sorted_app_le {A} (R : A -> A -> Prop) (l1 l2 : list A) :
  StronglySorted R (l1 ++ l2) ->
  forall a b, In a l1 -> In b l2 -> R a b.
Proof.
  induction l1 as [|x l1 IH]; simpl; intros Hs a b Ha Hb; [contradiction|].
  inversion Hs as [|? ? Hs' Hall]; subst.
  destruct Ha as [<-|Ha].
  - rewrite Forall_forall in Hall. apply Hall. apply in_or_app. now right.
  - now apply IH.
Qed.

Lemma length_scoredOf filings n :
  length (scoredOf filings n) = length (purchasesOf filings).
Proof. now rewrite <- (scoredOf_filings filings n), length_map. Qed.

(** X1.  The purchase gate: the filing of every returned signal is a record
    of the batch whose transaction type is "P"; sales, awards and
    dispositions never come out, whatever their role, value or date. *)
Theorem scoreSignals_only_purchases filings limit n :
  Forall (fun s => In (filing s) filings /\ transactionType (filing s) = TxP)
         (fst (scoreSignals filings limit n)).
Proof.
  apply Forall_forall. intros s Hs.
  apply In_output_scored, In_scored_Built in Hs.
  destruct Hs as [Hin _]. unfold purchasesOf in Hin.
  apply filter_In in Hin. destruct Hin as [Hin Hp]. split; [exact Hin|].
  now destruct (transactionType (filing s)).
Qed.

(** X2.  With a limit that is not negative, the number of signals returned
    is the smaller of the limit and the number of purchases in the batch. *)
Theorem scoreSignals_length filings limit n :
  0 <= limit ->
  Z.of_nat (length (fst (scoreSignals filings limit n))) =
  Z.min limit (Z.of_nat (length (purchasesOf filings))).
Proof.
  intros Hl. rewrite scoreSignals_eq. unfold slice0.
  destruct (limit <? 0) eqn:E; [apply Z.ltb_lt in E; lia|].
  rewrite length_firstn, <- (Permutation_length (sortByScore_perm _)).
  rewrite length_scoredOf. lia.
Qed.

(** X3.  The limit keeps the best: the returned signals together with the
    dropped ones are the scored purchases, and no dropped signal has a
    higher score than a returned one. *)
Theorem scoreSignals_keeps_the_highest filings limit n :
  exists dropped,
    Permutation (fst (scoreSignals filings limit n) ++ dropped)
                (scoredOf filings n) /\
    forall a b, In a (fst (scoreSignals filings limit n)) -> In b dropped ->
                score b <= score a.
Proof.
  rewrite scoreSignals_eq. unfold slice0.
  set (k := Z.to_nat _). set (sorted := sortByScore (scoredOf filings n)).
  exists (skipn k sorted). split.
  - rewrite firstn_skipn. symmetry. apply sortByScore_perm.
  - apply (sorted_app_le geScore). rewrite firstn_skipn.
    apply sortByScore_sorted.
Qed.

Lemma filter_insertByScore v x l :
  filter (fun s => score s =? v) (insertByScore x l) =
  filter (fun s => score s =? v) (x :: l).
Proof.
  induction l as [|y l IH]; simpl; [reflexivity|].
  destruct (score y - score x >? 0) eqn:E; [|reflexivity].
  simpl. rewrite IH. simpl.
  destruct (score x =? v) eqn:Ex; [|reflexivity].
  destruct (score y =? v) eqn:Ey; [|reflexivity].
  apply Z.eqb_eq in Ex, Ey. lia.
Qed.

Lemma filter_sortByScore v l :
  filter (fun s => score s =? v) (sortByScore l) =
  filter (fun s => score s =? v) l.
Proof.
  induction l as [|x l IH]; simpl; [reflexivity|].
  rewrite filter_insertByScore. simpl. now rewrite IH.
Qed.

Lemma filter_firstn {A} (p : A -> bool) k l :
  exists k', filter p (firstn k l) = firstn k' (filter p l).
Proof.
  revert k; induction l as [|x l IH]; intros [|k]; simpl;
    try (exists 0%nat; reflexivity).
  destruct (IH k) as [k' Hk]. destruct (p x).
  - exists (S k'). simpl. now rewrite Hk.
  - exists k'. exact Hk.
Qed.

(** X4.  Ties keep the order of the batch: the returned signals of any one
    score are the first ones, in batch order, of the scored purchases with
    that score. *)
Theorem scoreSignals_stable_on_ties filings limit n v :
  exists k,
    filter (fun s => score s =? v) (fst (scoreSignals filings limit n)) =
    firstn k (filter (fun s => score s =? v) (scoredOf filings n)).
Proof.
  rewrite scoreSignals_eq. unfold slice0.
  destruct (filter_firstn (fun s => score s =? v)
              (Z.to_nat (if limit <? 0
                         then Z.max (Z.of_nat (length (sortByScore (scoredOf filings n))) + limit) 0
                         else Z.min limit (Z.of_nat (length (sortByScore (scoredOf filings n))))))
              (sortByScore (scoredOf filings n))) as [k Hk].
  exists k. now rewrite Hk, filter_sortByScore.
Qed.

(** X5.  The value factor never decreases when the transaction value
    grows. *)
Theorem scoreValue_monotone (v w : Q) :
  (v <= w)%Q -> scoreValue v <= scoreValue w.
Proof.
  intros H. unfold scoreValue, gtb.
  repeat match goal with
  | |- context [Qle_bool ?a ?b] =>
      let E := fresh "E" in destruct (Qle_bool a b) eqn:E;
      [apply Qle_bool_iff in E
      |assert (~ (a <= b)%Q) by (intros Hc; apply Qle_bool_iff in Hc; congruence);
       clear E]
  end; simpl; try lia; exfalso; lra.
Qed.

End SelectionFacts.

(** ** Scoring: exactly which keys [detectClusters] marks *)

Section ClusterExactFacts.
Import Js Scoring.
Context {host : Host}.

Lemma scanRow_pair a later acc k :
  In k (scanRow a later acc) ->
  In k acc \/
  exists b, In b later /\ pairQualifies a b = true /\
            (k = filingKey a \/ k = filingKey b).
Proof.
  unfold scanRow. revert acc; induction later as [|b later IH]; intros acc H;
    simpl in H; [now left|].
  apply IH in H. destruct H as [H|[x [Hx [Hq Hk]]]].
  - destruct (pairQualifies a b) eqn:E; [|now left].
    apply In_add in H. destruct H as [->|H].
    + right. exists b. simpl. auto.
    + apply In_add in H. destruct H as [->|H]; [|now left].
      right. exists b. simpl. auto.
  - right. exists x. simpl. auto.
Qed.

Lemma scanGroup_pair group acc k :
  In k (scanGroup group acc) ->
  In k acc \/
  exists a b, In a group /\ In b group /\ pairQualifies a b = true /\
              (k = filingKey a \/ k = filingKey b).
Proof.
  revert acc; induction group as [|a later IH]; intros acc H; simpl in H;
    [now left|].
  apply IH in H. destruct H as [H|[x [y [Hx [Hy [Hq Hk]]]]]].
  - apply scanRow_pair in H. destruct H as [H|[b [Hb [Hq Hk]]]]; [now left|].
    right. exists a, b. simpl. auto.
  - right. exists x, y. simpl. auto.
Qed.

Lemma clusterGroups_pair groups acc k :
  In k (clusterGroups groups acc) ->
  In k acc \/
  exists t g a b, In (t, g) groups /\ In a g /\ In b g /\
                  pairQualifies a b = true /\
                  (k = filingKey a \/ k = filingKey b).
Proof.
  unfold clusterGroups.
  revert acc; induction groups as [|[t g] groups IH]; intros acc H;
    simpl in H; [now left|].
  apply IH in H. destruct H as [H|[t' [g' [a [b [Hin [Ha [Hb [Hq Hk]]]]]]]]].
  - destruct (length g <? 2)%nat; [now left|].
    apply scanGroup_pair in H.
    destruct H as [H|[a [b [Ha [Hb [Hq Hk]]]]]]; [now left|].
    right. exists t, g, a, b. simpl. auto.
  - right. exists t', g', a, b. simpl. auto 10.
Qed.

(** A key is marked exactly when it is the key of a filing of the batch
    that has a partner in the batch: same ticker, another insider, dates no
    more than five days apart. *)
Lemma detectClusters_iff filings k :
  has (detectClusters filings) k = true <->
  exists a b, In a filings /\ In b filings /\ ticker a = ticker b /\
              pairQualifies a b = true /\ k = filingKey a.
Proof.
  split.
  - rewrite has_In. intros H.
    fold (clusterGroups (groupByTicker filings) []) in H.
    apply clusterGroups_pair in H.
    destruct H as [[]|[t [g [a [b [Hin [Ha [Hb [Hq Hk]]]]]]]]].
    destruct (groupByTicker_ok filings) as [_ Hfil _].
    rewrite (Hfil _ _ Hin) in Ha, Hb.
    apply filter_In in Ha, Hb. destruct Ha as [Ha Hta], Hb as [Hb Htb].
    unfold onTicker in Hta, Htb. apply eqb_eq in Hta, Htb.
    destruct Hk as [->| ->].
    + exists a, b. repeat split; auto. congruence.
    + exists b, a. rewrite pairQualifies_sym. repeat split; auto. congruence.
  - intros [a [b [Ha [Hb [Ht [Hq ->]]]]]].
    exact (proj1 (detectClusters_hit filings a b Ha Hb Ht Hq)).
Qed.

(** X6.  A returned signal carries the cluster bonus of 20 exactly when
    its filing key is the key of a purchase of the batch that has a partner
    among the purchases: same ticker, a different insider name, and
    transaction dates that parse and lie at most five days apart.
    Otherwise the bonus is 0. *)
Theorem clusterBonus_exactly filings limit n :
  Forall
    (fun s =>
       (clusterBonus (scoreBreakdown s) = 20 <->
        exists a b x y,
          In a (purchasesOf filings) /\ In b (purchasesOf filings) /\
          filingKey a = filingKey (filing s) /\
          ticker a = ticker b /\ insiderName a <> insiderName b /\
          Date_parse (transactionDate a) = Some x /\
          Date_parse (transactionDate b) = Some y /\
          Z.abs (x - y) <= 5 * msPerDay) /\
       (clusterBonus (scoreBreakdown s) = 20 \/
        clusterBonus (scoreBreakdown s) = 0))
    (fst (scoreSignals filings limit n)).
Proof.
  apply Forall_forall. intros s Hs.
  apply In_output_scored, In_scored_Built in Hs.
  destruct Hs as [_ Hb]. rewrite (built_cluster _ _ _ Hb).
  split; [|destruct (has _ _); auto].
  destruct (has _ _) eqn:E.
  - split; [intros _|reflexivity].
    apply detectClusters_iff in E.
    destruct E as [a [b [Ha [Hb' [Ht [Hq Hk]]]]]].
    unfold pairQualifies in Hq. apply andb_true_iff in Hq.
    destruct Hq as [Hn Hd]. apply negb_true_iff, eqb_neq in Hn.
    apply leNum_calendarDayDiff in Hd. destruct Hd as [x [y [Hx [Hy Hd]]]].
    exists a, b, x, y. repeat split; auto.
  - split; [discriminate|]. intros [a [b [x [y [Ha [Hb' [Hk [Ht [Hn [Hx [Hy Hd]]]]]]]]]]].
    exfalso.
    assert (Hq : pairQualifies a b = true).
    { unfold pairQualifies. apply andb_true_iff. split.
      - apply negb_true_iff. now apply eqb_neq.
      - apply leNum_calendarDayDiff. exists x, y. auto. }
    assert (Hh : has (detectClusters (purchasesOf filings))
                     (filingKey (filing s)) = true).
    { apply detectClusters_iff. exists a, b. repeat split; auto. }
    congruence.
Qed.

(** X7.  Cluster detection does not depend on the order of the batch: two
    batches with the same filings in any order mark the same keys. *)
Theorem detectClusters_order_independent filings filings' k :
  Permutation filings filings' ->
  has (detectClusters filings) k = has (detectClusters filings') k.
Proof.
  intros Hp.
  assert (H : forall l l', Permutation l l' ->
                has (detectClusters l) k = true ->
                has (detectClusters l') k = true).
  { intros l l' Hl Hk. apply detectClusters_iff in Hk.
    destruct Hk as [a [b [Ha [Hb [Ht [Hq Hkey]]]]]].
    apply detectClusters_iff. exists a, b.
    repeat split; auto; eapply Permutation_in; eauto. }
  destruct (has (detectClusters filings) k) eqn:E1,
           (has (detectClusters filings') k) eqn:E2; try reflexivity.
  - rewrite (H _ _ Hp E1) in E2. discriminate.
  - rewrite (H _ _ (Permutation_sym Hp) E2) in E1. discriminate.
Qed.

(** X8.  A batch of one purchase: [scoreSignals] returns exactly what the
    single-filing entry point [scoreFiling] computes, with no cluster
    bonus, provided the limit admits one signal. *)
Theorem scoreSignals_single_purchase f limit n :
  transactionType f = TxP -> 1 <= limit ->
  scoreSignals [f] limit n =
  ([fst (scoreFiling f n)], snd (scoreFiling f n)) /\
  clusterBonus (scoreBreakdown (fst (scoreFiling f n))) = 0.
Proof.
  intros Hp Hl. unfold scoreSignals, scoreFiling.
  assert (Hf : filter (fun x => isP (transactionType x)) [f] = [f])
    by (unfold filter; now rewrite Hp).
  rewrite Hf. simpl. unfold Scoring.bind, Scoring.ret.
  destruct (buildSignal f false n) as [s n'] eqn:E. simpl.
  split.
  - unfold slice0. simpl length.
    destruct (limit <? 0) eqn:El; [apply Z.ltb_lt in El; lia|].
    replace (Z.to_nat (Z.min limit (Z.of_nat 1))) with 1%nat by lia.
    reflexivity.
  - pose proof (buildSignal_Built f false n) as Hb. rewrite E in Hb.
    exact (built_cluster _ _ _ Hb).
Qed.

End ClusterExactFacts.

(** ** DecisionAgent: the guards on action and holdings *)

Section GuardFacts.
Import Js Db Handler DecisionAgent.

Lemma Subseq_app_skip {A} (sub l : list A) x :
  Subseq sub l -> Subseq sub (l ++ [x]).
Proof.
  induction 1; simpl.
  - apply Subseq_skip. constructor.
  - now apply Subseq_skip.
  - now apply Subseq_keep.
Qed.

Lemma Subseq_app_keep {A} (sub l : list A) x :
  Subseq sub l -> Subseq (sub ++ [x]) (l ++ [x]).
Proof.
  induction 1; simpl.
  - apply Subseq_keep. constructor.
  - now apply Subseq_skip.
  - now apply Subseq_keep.
Qed.

(** One iteration leaves the list of accepted recommendations as it is, or
    appends the recommendation of a decision that passes the guards. *)
Lemma decideStep_accepted ctx st d :
  accepted (decideStep ctx st d) = accepted st \/
  (accepted (decideStep ctx st d) = accepted st ++ [recommendationFor ctx d] /\
   passesHoldingGuards ctx d).
Proof.
  unfold decideStep, passesHoldingGuards, recommendationFor.
  destruct (d_action d) eqn:Ea; simpl.
  - destruct (held ctx (d_ticker d)) eqn:Eh; simpl; [now left|].
    destruct (Double.ltb _ _); [now left|]. right. simpl.
    repeat split; try discriminate; auto.
  - destruct (held ctx (d_ticker d)) eqn:Eh; simpl; [|now left].
    right. repeat split; try discriminate; auto.
  - now left.
Qed.

(** The accepted recommendations are those of a subsequence of the
    decisions done so far, all passing the guards. *)
Lemma decideLoop_accepted ctx decisions st0 done0 sub0 :
  Subseq sub0 done0 ->
  accepted st0 = map (recommendationFor ctx) sub0 ->
  Forall (passesHoldingGuards ctx) sub0 ->
  exists sub,
    Subseq sub (done0 ++ decisions) /\
    accepted (fold_left (decideStep ctx) decisions st0) =
      map (recommendationFor ctx) sub /\
    Forall (passesHoldingGuards ctx) sub.
Proof.
  revert st0 done0 sub0; induction decisions as [|d ds IH];
    intros st0 done0 sub0 Hsub Hacc Hall; simpl.
  - exists sub0. rewrite app_nil_r. auto.
  - replace (done0 ++ d :: ds) with ((done0 ++ [d]) ++ ds)
      by (now rewrite <- app_assoc).
    destruct (decideStep_accepted ctx st0 d) as [E|[E Hg]].
    + apply (IH _ _ sub0); [now apply Subseq_app_skip | congruence | exact Hall].
    + apply (IH _ _ (sub0 ++ [d])).
      * now apply Subseq_app_keep.
      * rewrite E, Hacc, map_app. reflexivity.
      * apply Forall_app. split; [exact Hall | now constructor].
Qed.

(** X9.  The recommendations a run accepts are built from a subsequence of
    the decisions, in the order of the decisions, at most one for each; the
    decision of each is not a HOLD, a BUY is for a ticker that is not held,
    a SELL for a ticker that is held; and each recommendation is PENDING. *)
Theorem decideLoop_respects_guards ctx buyingPower decisions :
  exists sub,
    Subseq sub decisions /\
    accepted (decideLoop ctx buyingPower decisions) =
      map (recommendationFor ctx) sub /\
    Forall (fun d =>
              d_action d <> HOLD /\
              (d_action d = BUY -> held ctx (d_ticker d) = false) /\
              (d_action d = SELL -> held ctx (d_ticker d) = true) /\
              r_status (recommendationFor ctx d) = PENDING) sub.
Proof.
  destruct (decideLoop_accepted ctx decisions
              {| remainingBuyingPower := buyingPower; accepted := [] |} [] [])
    as [sub [Hsub [Hacc Hall]]]; try constructor.
  exists sub. repeat split; auto.
  eapply Forall_impl; [|exact Hall].
  intros d [H1 [H2 H3]]. repeat split; auto.
Qed.

Lemma held_find ctx t :
  held ctx t = true ->
  exists p, find (fun p => eqb (symbol p) t) (DecisionAgent.positions ctx) = Some p /\
            In p (DecisionAgent.positions ctx) /\ symbol p = t.
Proof.
  unfold held. induction (DecisionAgent.positions ctx) as [|p ps IH]; simpl;
    [discriminate|].
  destruct (eqb (symbol p) t) eqn:E.
  - intros _. exists p. apply eqb_eq in E. auto.
  - simpl. intros H. destruct (IH H) as [q [Hf [Hin Hs]]]. exists q. auto.
Qed.

(** X10.  The notional of an accepted SELL is the market value of the
    first held position on its ticker (the fallback on quantity times price
    is never taken); that of an accepted BUY is the notional the decision
    states, or POSITION_SIZE_USD, or 10000 when that is unset, zero or
    not a number. *)
Theorem accepted_notional ctx buyingPower decisions :
  Forall (fun r =>
            (r_action r = SELL ->
             exists p, find (fun p => eqb (symbol p) (r_ticker r))
                            (DecisionAgent.positions ctx) = Some p /\
                       r_notional r = market_value p) /\
            (r_action r = BUY ->
             exists d, In d decisions /\ r_ticker r = d_ticker d /\
               r_notional r =
               match d_notional d with
               | Some n => n
               | None => Double.orDefault (POSITION_SIZE_USD (env ctx))
                                          (Double.ofZ 10000)
               end))
         (accepted (decideLoop ctx buyingPower decisions)).
Proof.
  destruct (decideLoop_accepted ctx decisions
              {| remainingBuyingPower := buyingPower; accepted := [] |} [] [])
    as [sub [Hsub [Hacc Hall]]]; try constructor.
  unfold decideLoop. simpl app in Hsub.
  rewrite Hacc. apply Forall_forall. intros r Hr.
  apply in_map_iff in Hr. destruct Hr as [d [<- Hd]].
  assert (Hin : In d decisions).
  { clear - Hsub Hd. induction Hsub; simpl in *; intuition. }
  rewrite Forall_forall in Hall. destruct (Hall d Hd) as [Hh [Hb Hs]].
  unfold recommendationFor, mkRecommendation, resolveNotional. simpl.
  split.
  - intros Ea. rewrite Ea. simpl.
    destruct (held_find ctx (d_ticker d) (Hs Ea)) as [p [Hf _]].
    exists p. now rewrite Hf.
  - intros Ea. rewrite Ea. simpl. exists d. auto.
Qed.

(** Two BUY decisions on one ticker, not held, that pass the test on the
    counter one after the other (the first against the counter, the second
    against what the first leaves of it) are both accepted. *)
Lemma two_BUYs_passing_the_tests ctx st d1 d2 :
  d_action d1 = BUY -> d_action d2 = BUY ->
  d_ticker d1 = d_ticker d2 -> held ctx (d_ticker d1) = false ->
  Double.ltb (remainingBuyingPower st) (resolveNotional ctx d1) = false ->
  Double.ltb (Double.sub (remainingBuyingPower st) (resolveNotional ctx d1))
             (resolveNotional ctx d2) = false ->
  accepted (fold_left (decideStep ctx) [d1; d2] st) =
  accepted st ++ [recommendationFor ctx d1; recommendationFor ctx d2].
Proof.
  intros H1 H2 Ht Hh Hfirst Hsecond. simpl.
  rewrite (decideStep_accepts_covered_BUY ctx st d1 H1 Hh Hfirst).
  rewrite decideStep_accepts_covered_BUY; simpl; auto.
  - now rewrite <- app_assoc.
  - now rewrite <- Ht.
Qed.

(** X11.  The guard on holdings looks at the portfolio fetched before the
    loop, not at what the run has accepted: two BUY decisions on the same
    ticker, not held, whose notionals the counter covers together, are both
    accepted in one run.  The amounts are finite doubles, compared by their
    exact values: the counter less the first notional rounds to a double
    that is no less than the second. *)
Theorem two_BUYs_on_one_ticker_both_accepted ctx st d1 d2 counter n1 n2 :
  d_action d1 = BUY -> d_action d2 = BUY ->
  d_ticker d1 = d_ticker d2 -> held ctx (d_ticker d1) = false ->
  Double.toQ (remainingBuyingPower st) = Some counter ->
  Double.toQ (resolveNotional ctx d1) = Some n1 ->
  Double.toQ (resolveNotional ctx d2) = Some n2 ->
  (n1 + n2 <= counter)%Q ->
  (0 <= n2)%Q ->
  accepted (fold_left (decideStep ctx) [d1; d2] st) =
  accepted st ++ [recommendationFor ctx d1; recommendationFor ctx d2].
Proof.
  intros H1 H2 Ht Hh Tc T1 T2 Hsum Hpos.
  destruct (covered_one_after_the_other _ _ _ _ _ _ Tc T1 T2 Hsum Hpos)
    as [Hfirst Hsecond].
  now apply two_BUYs_passing_the_tests.
Qed.

End GuardFacts.

(** ** The store: what a status update touches *)

Section StoreFrameFacts.
Import Js Db.

Lemma find_map_other (i j : jstring) (g : RecommendationRow -> RecommendationRow)
    (rows : list RecommendationRow) :
  (forall x, id (g x) = id x) -> j <> i ->
  find (fun x => eqb (id x) j)
       (map (fun x => if eqb (id x) i then g x else x) rows) =
  find (fun x => eqb (id x) j) rows.
Proof.
  intros Hg Hne. induction rows as [|x rows IH]; simpl; [reflexivity|].
  destruct (eqb (id x) i) eqn:Ei.
  - rewrite Hg. apply eqb_eq in Ei.
    assert (Ej : eqb (id x) j = false) by (apply eqb_neq; congruence).
    rewrite Ej. exact IH.
  - destruct (eqb (id x) j); [reflexivity | exact IH].
Qed.

Lemma map_no_hit (i : jstring) (g : RecommendationRow -> RecommendationRow)
    (rows : list RecommendationRow) :
  find (fun x => eqb (id x) i) rows = None ->
  map (fun x => if eqb (id x) i then g x else x) rows = rows /\
  filter (fun x => eqb (id x) i) rows = [].
Proof.
  induction rows as [|x rows IH]; simpl; [auto|].
  destruct (eqb (id x) i); [discriminate|].
  intros H. destruct (IH H) as [-> ->]. auto.
Qed.

Lemma updateRecommendationStatus_missing db i st resolvedAt :
  getRecommendation db i = None ->
  updateRecommendationStatus db i st resolvedAt = (db, Some (NoRowFound i)).
Proof.
  intros H. unfold getRecommendation in H.
  unfold updateRecommendationStatus, runUpdate, assertSuccess. simpl.
  destruct (map_no_hit i (setStatus st resolvedAt) _ H) as [-> ->].
  simpl. now destruct db.
Qed.

(** X12.  [updateRecommendationStatus] touches the rows with the given id
    and nothing else: the positions table, the number and the ids of the
    recommendations, and every recommendation with another id are as
    before; in a row it does write, every column but [status] and
    [resolved_at] is kept.  When no row has the id it changes nothing and
    throws the "no row found" error. *)
Theorem updateRecommendationStatus_frame db i st resolvedAt :
  let db' := fst (updateRecommendationStatus db i st resolvedAt) in
  let err := snd (updateRecommendationStatus db i st resolvedAt) in
  positions db' = positions db /\
  map id (recommendations db') = map id (recommendations db) /\
  (forall j, j <> i -> getRecommendation db' j = getRecommendation db j) /\
  (forall r, getRecommendation db i = Some r ->
     exists r', getRecommendation db' i = Some r' /\
       (ticker r', action r', reasoning r', signal_id r', notional r',
        stop_price r', take_profit_price r', created_at r') =
       (ticker r, action r, reasoning r, signal_id r, notional r,
        stop_price r, take_profit_price r, created_at r)) /\
  (getRecommendation db i = None -> db' = db /\ err = Some (NoRowFound i)).
Proof.
  intros db' err. subst db' err.
  rewrite updateRecommendationStatus_db.
  repeat split.
  - unfold runUpdate. simpl. rewrite map_map. apply map_ext.
    intros x. now destruct (eqb (id x) i).
  - intros j Hne. unfold getRecommendation, runUpdate. simpl.
    now apply (find_map_other i j (setStatus st resolvedAt)).
  - intros r Hr.
    destruct (updateRecommendationStatus_overwrites db i st resolvedAt r Hr)
      as [db' [Hu [Hget _]]].
    exists (setStatus st resolvedAt r). split; [|reflexivity].
    rewrite <- updateRecommendationStatus_db, Hu. exact Hget.
  - rewrite <- updateRecommendationStatus_db.
    now rewrite (updateRecommendationStatus_missing db i st resolvedAt H).
  - now rewrite (updateRecommendationStatus_missing db i st resolvedAt H).
Qed.

End StoreFrameFacts.

(** ** The rejection route and the expiry callback *)

Section RejectExpireFacts.
Import Js Db Handler Approval DecisionAgent.
Context {host : Host}.

Ltac run' :=
  cbv beta iota zeta delta
    [Handler.updateRecommendationStatus Handler.getRecommendation Handler.now
     Handler.emit Handler.runStatement Handler.setPending
     Handler.bind Handler.ret Handler.tryCatch];
  simpl.

(** X13.  Rejection is not bound to the expiry window: for a PENDING
    recommendation, however old, [handleReject] answers 200, the stored
    status becomes REJECTED with [resolved_at] the time of the request, and
    the status write is all it does: no order is submitted, the positions
    table is left alone. *)
Theorem handleReject_resolves_PENDING i env w r :
  Db.getRecommendation (db w) i = Some r ->
  status r = PENDING ->
  exists w',
    handleReject i env w = (inr (text RecommendationRejected 200), w') /\
    Db.getRecommendation (db w') i =
      Some (setStatus REJECTED (toISOString (clock (ticks w))) r) /\
    Db.positions (db w') = Db.positions (db w) /\
    trace w' = trace w ++ [(StatusWritten i REJECTED, db w)].
Proof.
  intros Hget Hst.
  destruct (updateRecommendationStatus_overwrites (db w) i REJECTED
              (toISOString (clock (ticks w))) r Hget) as [db' [Hu [Hget' Hpos]]].
  unfold handleReject, validatePending. run'.
  rewrite Hget, Hst. simpl. rewrite Hu. simpl.
  eexists. split; [reflexivity|]. simpl. auto.
Qed.

(** X14.  The expiry callback never lets an error out.  For an id that is
    not stored it changes neither the store nor the list of pending ids;
    for a stored id it removes the id from the list. *)
Theorem expireRecommendation_swallows_errors i w :
  exists w',
    expireRecommendation i w = (inr tt, w') /\
    (Db.getRecommendation (db w) i = None ->
     db w' = db w /\ pendingRecommendationIds w' = pendingRecommendationIds w) /\
    (forall r, Db.getRecommendation (db w) i = Some r ->
     pendingRecommendationIds w' =
     filter (fun j => negb (eqb j i)) (pendingRecommendationIds w)).
Proof.
  unfold expireRecommendation. run'.
  destruct (Db.getRecommendation (db w) i) as [r|] eqn:Hget.
  - destruct (updateRecommendationStatus_overwrites (db w) i EXPIRED
                (toISOString (clock (ticks w))) r Hget) as [db' [Hu _]].
    rewrite Hu. simpl. eexists. split; [reflexivity|]. simpl.
    split; [discriminate | auto].
  - rewrite (updateRecommendationStatus_missing (db w) i EXPIRED
               (toISOString (clock (ticks w))) Hget).
    simpl. eexists. split; [reflexivity|]. simpl.
    split; [auto | discriminate].
Qed.

End RejectExpireFacts.

(** ** The approval route: the order it submits *)

Section ApprovalOrderFacts.
Import Js Db Handler Approval.
Context {host : Host}.

Ltac run2 :=
  cbv beta iota zeta delta
    [Handler.paperBuyQty Handler.paperBuyBracket Handler.paperSell
     Handler.submit Handler.updateRecommendationStatus Handler.logTrade
     Handler.getRecommendation Handler.now Handler.emit Handler.runStatement
     Handler.liftResult Handler.throw Handler.setPending
     Handler.bind Handler.ret Handler.tryCatch];
  simpl.

Lemma OrdersGrowBy_submit env w req0 (P : OrderRequest -> Prop) :
  P req0 ->
  OrdersGrowBy w (snd ((order <- submit env req0 ;; Handler.ret (inr order)
                          : M (Response + AlpacaOrder)) w)) P.
Proof.
  intros HP req d. run2.
  destruct (postOrder env req0); simpl; intros Hin;
    apply in_app_or in Hin; destruct Hin as [Hin|[[= <- <-]|[]]]; auto.
Qed.

Lemma OrdersGrowBy_same w (P : OrderRequest -> Prop) : OrdersGrowBy w w P.
Proof. intros req d H. now left. Qed.

Lemma submitOrder_orderFor env r w :
  OrdersGrowBy w (snd (submitOrder env r w)) (orderFor env r).
Proof.
  unfold submitOrder, orderFor.
  assert (Hsell :
    OrdersGrowBy w
      (snd ((positions <- liftResult (getPortfolio env) ;;
             match find (fun p => eqb (symbol p) (Db.ticker r)) positions with
             | None => Handler.ret (inl (text (NoOpenPosition (Db.ticker r)) 400))
             | Some position =>
                 order <- paperSell env (Db.ticker r) (qty position) ;;
                 Handler.ret (inr order)
             end) w))
      (fun req => exists held position,
         getPortfolio env = inr held /\
         find (fun x => eqb (symbol x) (Db.ticker r)) held = Some position /\
         req = MarketSell (Db.ticker r) (qty position))).
  { unfold Handler.bind at 1, liftResult.
    destruct (getPortfolio env) as [e|held] eqn:Eh; [apply OrdersGrowBy_same|].
    destruct (find _ held) as [position|] eqn:Ef; [|apply OrdersGrowBy_same].
    apply OrdersGrowBy_submit. eauto. }
  destruct (action r); [|exact Hsell|exact Hsell].
  unfold Handler.bind at 1, liftResult.
  destruct (getPositionPrices env [Db.ticker r]) as [e|prices] eqn:Ep;
    [apply OrdersGrowBy_same|].
  destruct (prices (Db.ticker r)) as [p|] eqn:Epr; [|apply OrdersGrowBy_same].
  destruct (Double.truthy p) eqn:Ez; cbn [negb]; [|apply OrdersGrowBy_same].
  destruct (Double.ltb (Double.floor (Double.div (notional r) p)) (Double.ofZ 1))
    eqn:Eq; [apply OrdersGrowBy_same|].
  destruct (stop_price r) as [sp|] eqn:Es;
    [destruct (take_profit_price r) as [tp|] eqn:Et|].
  - destruct (Double.ltb sp p && Double.gtb tp p) eqn:Eb.
    + apply andb_true_iff in Eb. destruct Eb as [E1 E2].
      apply OrdersGrowBy_submit. exists prices, p.
      split; [reflexivity|]. split; [exact Epr|]. split; [exact Ez|].
      split; [exact Eq|]. left. exists sp, tp. auto.
    + apply OrdersGrowBy_submit. exists prices, p.
      split; [reflexivity|]. split; [exact Epr|]. split; [exact Ez|].
      split; [exact Eq|]. right. split; [reflexivity|].
      intros [sp' [tp' [[= <-] [[= <-] [H1 H2]]]]].
      rewrite H1, H2 in Eb. discriminate.
  - apply OrdersGrowBy_submit. exists prices, p.
    split; [reflexivity|]. split; [exact Epr|]. split; [exact Ez|].
    split; [exact Eq|].
    right. split; [reflexivity|]. intros [sp' [tp' [_ [Hc _]]]]. discriminate.
  - apply OrdersGrowBy_submit. exists prices, p.
    split; [reflexivity|]. split; [exact Epr|]. split; [exact Ez|].
    split; [exact Eq|].
    right. split; [reflexivity|]. intros [sp' [tp' [Hc _]]]. discriminate.
Qed.

(** Every order that [handleApprove] adds to the trace is the order for the
    stored recommendation, which is PENDING. *)
Lemma handleApprove_orderFor i env w :
  OrdersGrowBy w (snd (handleApprove i env w))
    (fun req => exists r, Db.getRecommendation (db w) i = Some r /\
                          status r = PENDING /\ orderFor env r req).
Proof.
  unfold handleApprove, Handler.bind at 1.
  pose proof (validatePending_cases env i true w) as Hv.
  destruct (validatePending env i true w) as [[e|[resp|v]] w1]; [contradiction| |].
  - destruct Hv as [_ [[-> _]|[_ [_ [_ [_ Ht]]]]]]; simpl.
    + apply OrdersGrowBy_same.
    + intros req d Hin. rewrite Ht in Hin. apply in_app_or in Hin.
      destruct Hin as [Hin|[[=]|[]]]. now left.
  - destruct Hv as [Hget [Hst [_ [Hd [Ht _]]]]].
    assert (Hgo :
      OrdersGrowBy w
        (snd ((placed <- tryCatch (submitOrder env (rec v))
                 (fun err => Handler.ret (inl (text (OrderSubmissionFailed err) 500))) ;;
               match placed with
               | inl response => Handler.ret response
               | inr order =>
                   tryCatch (logTrade (orderToTradeLog order (rec v)))
                            (fun _ => Handler.ret tt) ;;;
                   tryCatch (updateRecommendationStatus i APPROVED (resolvedAt v))
                            (fun _ => Handler.ret tt) ;;;
                   Handler.ret (text (TradeExecuted (action (rec v))
                                                    (Db.ticker (rec v))) 200)
               end) w1))
        (fun req => exists r, Db.getRecommendation (db w) i = Some r /\
                              status r = PENDING /\ orderFor env r req)).
    { pose proof (submitOrder_orderFor env (rec v) w1) as Hs.
      assert (Hs' : forall req d,
                 In (OrderSubmitted req, d) (trace (snd (submitOrder env (rec v) w1))) ->
                 In (OrderSubmitted req, d) (trace w) \/
                 exists r, Db.getRecommendation (db w) i = Some r /\
                           status r = PENDING /\ orderFor env r req).
      { intros req d Hin. destruct (Hs req d Hin) as [H|H].
        - left. now rewrite <- Ht.
        - right. exists (rec v). auto. }
      clear Hs. unfold Handler.bind at 1, tryCatch at 1.
      destruct (submitOrder env (rec v) w1) as [[e|[resp|order]] w2];
        simpl in Hs'; simpl; try exact Hs'.
      intros req d. run2.
      destruct (Db.updateRecommendationStatus _ _ _ _) as [d' [e'|]]; simpl;
        intros Hin; rewrite <- app_assoc in Hin; apply in_app_or in Hin;
        destruct Hin as [Hin|[[=]|[[=]|[]]]]; now apply Hs'. }
    destruct (action (rec v)); try exact Hgo.
    simpl. intros req d Hin. left. now rewrite <- Ht.
Qed.

(** X15.  Whatever [handleApprove] submits to the brokerage is an order for
    the stored recommendation, which was PENDING: a BUY of
    [Math.floor(notional / quote)] shares of its ticker, the quotient and
    its floor computed on doubles, a number that is not below one,
    bracketed exactly when both stored levels enclose the quote; a SELL of
    the whole held quantity of its ticker. *)
Theorem handleApprove_submits_the_order_of_the_recommendation i env w :
  forall req d,
    In (OrderSubmitted req, d) (trace (snd (handleApprove i env w))) ->
    In (OrderSubmitted req, d) (trace w) \/
    exists r, Db.getRecommendation (db w) i = Some r /\
              status r = PENDING /\ orderFor env r req.
Proof. exact (handleApprove_orderFor i env w). Qed.

End ApprovalOrderFacts.

(** ** Creating the recommendations *)

Section CreationFacts.
Import Js Db Handler DecisionAgent Creation.

Lemma find_app_hit (i : jstring) (rows more : list RecommendationRow) r :
  find (fun x => eqb (id x) i) rows = Some r ->
  find (fun x => eqb (id x) i) (rows ++ more) = Some r.
Proof.
  induction rows as [|x rows IH]; simpl; [discriminate|].
  destruct (eqb (id x) i); auto.
Qed.

Lemma find_app_miss (i : jstring) (rows more : list RecommendationRow) :
  find (fun x => eqb (id x) i) rows = None ->
  find (fun x => eqb (id x) i) (rows ++ more) =
  find (fun x => eqb (id x) i) more.
Proof.
  induction rows as [|x rows IH]; simpl; [reflexivity|].
  destruct (eqb (id x) i); [discriminate | auto].
Qed.

Lemma existsb_find (i : jstring) (rows : list RecommendationRow) :
  existsb (fun r => eqb (id r) i) rows =
  match find (fun x => eqb (id x) i) rows with Some _ => true | None => false end.
Proof.
  induction rows as [|x rows IH]; simpl; [reflexivity|].
  destruct (eqb (id x) i); auto.
Qed.

Lemma find_None_not_In (i : jstring) (rows : list RecommendationRow) :
  find (fun x => eqb (id x) i) rows = None <-> ~ In i (map id rows).
Proof.
  induction rows as [|x rows IH]; simpl; [tauto|].
  destruct (eqb (id x) i) eqn:E.
  - apply eqb_eq in E. split; [discriminate | tauto].
  - apply eqb_neq in E. tauto.
Qed.

(** The two ways [insertRecommendation] ends. *)
Lemma insertRecommendation_cases db uuid createdAt rec :
  (Db.getRecommendation db uuid <> None /\
   insertRecommendation db uuid createdAt rec = (db, inl D1WriteFailed)) \/
  (Db.getRecommendation db uuid = None /\
   insertRecommendation db uuid createdAt rec =
     ({| recommendations := recommendations db ++ [newRow uuid createdAt rec];
         Db.positions := Db.positions db |}, inr uuid)).
Proof.
  unfold insertRecommendation, Db.getRecommendation. rewrite existsb_find.
  destruct (find _ _); [left | right]; split; auto. discriminate.
Qed.

(** One iteration: its outcome, its events, and the rows it appends. *)
Lemma createStep_spec out env st rec :
  exists o news,
    journal (createStep out env st rec) =
      journal st ++ eventsOf (expiryHours env) o /\
    newPendingIds (createStep out env st rec) =
      newPendingIds st ++ createdIds [o] /\
    drawn (createStep out env st rec) = S (drawn st) /\
    recommendations (store (createStep out env st rec)) =
      recommendations (store st) ++ news /\
    Db.positions (store (createStep out env st rec)) = Db.positions (store st) /\
    map id news = createdIds [o] /\
    Forall (fun i => ~ In i (map id (recommendations (store st)))) (map id news) /\
    Forall (fun r => exists n c, r = newRow (randomUUID out n) c rec) news.
Proof.
  unfold createStep.
  destruct (insertRecommendation_cases (store st) (randomUUID out (drawn st))
              (createdAtDefault out (drawn st)) rec) as [[Hs ->] | [Hn ->]];
    simpl.
  - exists (NotCreated (r_ticker rec)), []. simpl.
    rewrite !app_nil_r. repeat split; auto.
  - exists (Created (randomUUID out (drawn st))
                    (cardDelivered out (randomUUID out (drawn st)))),
           [newRow (randomUUID out (drawn st)) (createdAtDefault out (drawn st)) rec].
    simpl. repeat split; auto.
    + constructor; [|constructor]. now apply find_None_not_In.
    + constructor; [|constructor]. eauto.
Qed.

(** The whole loop. *)
Lemma createSteps_spec out env recs st :
  let st' := fold_left (createStep out env) recs st in
  exists os news,
    length os = length recs /\
    journal st' = journal st ++ flat_map (eventsOf (expiryHours env)) os /\
    newPendingIds st' = newPendingIds st ++ createdIds os /\
    recommendations (store st') = recommendations (store st) ++ news /\
    Db.positions (store st') = Db.positions (store st) /\
    map id news = createdIds os /\
    NoDup (map id news) /\
    Forall (fun i => ~ In i (map id (recommendations (store st)))) (map id news) /\
    Forall (fun r => resolved_at r = None /\
                     exists rec, In rec recs /\ status r = r_status rec /\
                       ticker r = r_ticker rec /\ action r = r_action rec /\
                       notional r = r_notional rec) news.
Proof.
  revert st; induction recs as [|rec recs IH]; intros st; simpl.
  - exists [], []. simpl. rewrite !app_nil_r. repeat split; constructor.
  - destruct (createStep_spec out env st rec)
      as (o & n1 & Hj & Hp & _ & Hr & Hpos & Hid & Hfresh & Hrow).
    destruct (IH (createStep out env st rec))
      as (os & n2 & Hlen & Hj2 & Hp2 & Hr2 & Hpos2 & Hid2 & Hnd & Hfresh2 & Hrow2).
    exists (o :: os), (n1 ++ n2).
    assert (Hc : createdIds (o :: os) = createdIds [o] ++ createdIds os).
    { unfold createdIds. simpl. now rewrite app_nil_r. }
    repeat split.
    + simpl. now rewrite Hlen.
    + rewrite Hj2, Hj. simpl. now rewrite <- app_assoc.
    + rewrite Hp2, Hp, Hc. now rewrite <- app_assoc.
    + rewrite Hr2, Hr. now rewrite <- app_assoc.
    + now rewrite Hpos2, Hpos.
    + now rewrite map_app, Hid, Hid2, Hc.
    + rewrite map_app. rewrite Hr in Hfresh2.
      rewrite map_app in Hfresh2.
      destruct o as [t | i b]; simpl in Hid.
      * destruct n1; [|discriminate]. exact Hnd.
      * destruct n1 as [|r [|? ?]]; try discriminate. simpl.
        constructor; [|exact Hnd].
        intros Hin. rewrite Forall_forall in Hfresh2.
        apply (Hfresh2 _ Hin). apply in_or_app. right. simpl. now left.
    + rewrite map_app. apply Forall_app. split; [exact Hfresh|].
      rewrite Hr, map_app in Hfresh2.
      eapply Forall_impl; [|exact Hfresh2].
      intros i Hi Hin. apply Hi. apply in_or_app. now left.
    + apply Forall_app. split.
      * eapply Forall_impl; [|exact Hrow].
        intros r (n & c & ->). split; [reflexivity|].
        exists rec. simpl. repeat split; auto.
      * eapply Forall_impl; [|exact Hrow2].
        intros r [Hres (rec' & Hin & H)]. split; [exact Hres|].
        exists rec'. split; [now right | exact H].
Qed.

Lemma accepted_PENDING ctx buyingPower decisions :
  Forall (fun rec => r_status rec = PENDING /\ r_action rec <> HOLD)
         (accepted (decideLoop ctx buyingPower decisions)).
Proof.
  destruct (decideLoop_accepted ctx decisions
              {| remainingBuyingPower := buyingPower; accepted := [] |} [] [])
    as [sub [_ [Hacc Hall]]]; try constructor.
  unfold decideLoop. rewrite Hacc. rewrite Forall_map.
  eapply Forall_impl; [|exact Hall].
  intros d [H _]. split; [reflexivity | exact H].
Qed.

Lemma OutcomeAt_later out (rows more : list RecommendationRow) positions positions' at_ o :
  OutcomeAt out {| recommendations := rows; Db.positions := positions |} at_ o ->
  OutcomeAt out {| recommendations := rows ++ more; Db.positions := positions' |}
            at_ o.
Proof.
  destruct at_ as [k rec]. destruct o as [t | i d]; simpl.
  - intros [-> Hin]. split; [reflexivity|].
    rewrite map_app. apply in_or_app. now left.
  - intros (-> & -> & Hin). repeat split. apply in_or_app. now left.
Qed.

(** The loop, iteration by iteration: every recommendation has its
    outcome. *)
Lemma createSteps_outcomes out env recs st :
  let st' := fold_left (createStep out env) recs st in
  exists os,
    Forall2 (OutcomeAt out (store st'))
            (combine (seq (drawn st) (length recs)) recs) os /\
    journal st' = journal st ++ flat_map (eventsOf (expiryHours env)) os /\
    newPendingIds st' = newPendingIds st ++ createdIds os /\
    ((forall k, (drawn st <= k < drawn st + length recs)%nat ->
        ~ In (randomUUID out k) (map id (recommendations (store st)))) ->
     NoDup (map (randomUUID out) (seq (drawn st) (length recs))) ->
     allCreated os).
Proof.
  revert st; induction recs as [|rec recs IH]; intros st; simpl.
  - exists []. simpl. rewrite !app_nil_r. repeat split; constructor.
  - destruct (IH (createStep out env st rec))
      as (os & Hall & Hj & Hp & Hfresh).
    destruct (createSteps_spec out env recs (createStep out env st rec))
      as (_ & more & _ & _ & _ & Hrows & _).
    simpl in Hrows.
    set (st1 := createStep out env st rec) in *.
    set (st' := fold_left (createStep out env) recs st1) in *.
    assert (Hstep :
      exists o,
        OutcomeAt out (store st1) (drawn st, rec) o /\
        journal st1 = journal st ++ eventsOf (expiryHours env) o /\
        newPendingIds st1 = newPendingIds st ++ createdIds [o] /\
        drawn st1 = S (drawn st) /\
        (~ In (randomUUID out (drawn st)) (map id (recommendations (store st))) ->
         (exists i d, o = Created i d) /\
         map id (recommendations (store st1)) =
         map id (recommendations (store st)) ++ [randomUUID out (drawn st)])).
    { subst st1. unfold createStep.
      destruct (insertRecommendation_cases (store st) (randomUUID out (drawn st))
                  (createdAtDefault out (drawn st)) rec) as [[Hs ->] | [Hn ->]];
        simpl.
      - exists (NotCreated (r_ticker rec)). simpl. rewrite app_nil_r.
        split; [split; [reflexivity|]|].
        + destruct (Db.getRecommendation (store st) (randomUUID out (drawn st)))
            as [r0|] eqn:Er; [|congruence].
          unfold Db.getRecommendation in Er. apply find_some in Er.
          destruct Er as [Hin He]. apply eqb_eq in He. rewrite <- He.
          now apply in_map.
        + split; [reflexivity|]. split; [reflexivity|]. split; [reflexivity|].
          intros Hno. exfalso. apply Hs. now apply find_None_not_In.
      - exists (Created (randomUUID out (drawn st))
                        (cardDelivered out (randomUUID out (drawn st)))).
        simpl. split; [|split; [reflexivity|]].
        + split; [reflexivity|]. split; [reflexivity|].
          apply in_or_app. right. now left.
        + split; [reflexivity|]. split; [reflexivity|].
          intros _. split; [eauto|]. now rewrite map_app. }
    destruct Hstep as (o & Ho & Hj1 & Hp1 & Hd1 & Hnew).
    exists (o :: os).
    assert (Hc : createdIds (o :: os) = createdIds [o] ++ createdIds os).
    { unfold createdIds. simpl. now rewrite app_nil_r. }
    rewrite Hd1 in Hall, Hfresh.
    split; [|split; [|split]].
    + constructor; [|exact Hall].
      destruct (store st1) as [rows pos]. simpl in Hrows.
      destruct (store st') as [rows' pos']. simpl in Hrows. subst rows'.
      exact (OutcomeAt_later out rows more pos pos' _ _ Ho).
    + rewrite Hj, Hj1. simpl. now rewrite <- app_assoc.
    + rewrite Hp, Hp1, Hc. now rewrite <- app_assoc.
    + intros Hunused Hnd. inversion Hnd as [|u us Hu Hnd']; subst.
      destruct Hnew as [(i & d & ->) Hids].
      { apply Hunused. lia. }
      constructor; [exact I|].
      apply Hfresh; [|exact Hnd'].
      intros k Hk. rewrite Hids. intros Hin. apply in_app_or in Hin.
      destruct Hin as [Hin | [Heq | []]].
      * apply (Hunused k); [lia | exact Hin].
      * apply Hu. rewrite Heq. apply in_map. apply in_seq. lia.
Qed.

(** X17.  What a run of [decide] does for the recommendations that passed
    the guards: each of them, in order, has its outcome, which is either a
    failed insert and nothing else (the UUID drawn for it was that of a
    stored row), or the insert of its row, then the approval card, then the
    expiry timer with the configured delay: no card and no timer without a
    stored row, and a timer also when the card could not be delivered.
    The ids added to the agent's pending list are those of the rows
    inserted, in order.  When the UUIDs drawn are distinct and none is
    stored, every recommendation that passed the guards is created. *)
Theorem decide_creates_row_card_timer out ctx buyingPower decisions st :
  let recs := accepted (decideLoop ctx buyingPower decisions) in
  let st' := createAll out ctx buyingPower decisions st in
  exists os,
    Forall2 (OutcomeAt out (store st'))
            (combine (seq (drawn st) (length recs)) recs) os /\
    journal st' = journal st ++ flat_map (eventsOf (expiryHours (env ctx))) os /\
    newPendingIds st' = newPendingIds st ++ createdIds os /\
    (forall old, pendingAfter old st' = pendingAfter old st ++ createdIds os) /\
    ((forall k, (drawn st <= k < drawn st + length recs)%nat ->
        ~ In (randomUUID out k) (map id (recommendations (store st)))) ->
     NoDup (map (randomUUID out) (seq (drawn st) (length recs))) ->
     allCreated os /\ length (createdIds os) = length recs).
Proof.
  intros recs st'. unfold st', createAll. fold recs.
  destruct (createSteps_outcomes out (env ctx) recs st)
    as (os & Hall & Hj & Hp & Hfresh).
  exists os. split; [exact Hall|]. split; [exact Hj|]. split; [exact Hp|].
  split.
  - intros old. unfold pendingAfter. rewrite Hp. now rewrite app_assoc.
  - intros Hunused Hnd. pose proof (Hfresh Hunused Hnd) as Hcr.
    split; [exact Hcr|].
    apply Forall2_length in Hall. rewrite length_combine, length_seq in Hall.
    rewrite Nat.min_id in Hall. rewrite Hall.
    clear - Hcr. induction Hcr as [|o os Ho _ IH]; [reflexivity|].
    destruct o; [contradiction|].
    change (S (length (createdIds os)) = S (length os)). now rewrite IH.
Qed.

(** X18.  A run of [decide] only appends to the table of recommendations:
    the rows stored before are still there, unchanged and in place, and
    the table of positions is untouched.  The rows appended are those of
    the new pending ids; their ids are pairwise distinct and were not
    stored before; each is PENDING, unresolved, and never a HOLD; and each
    can be read back by its id. *)
Theorem decide_appends_PENDING_rows out ctx buyingPower decisions st :
  let st' := createAll out ctx buyingPower decisions st in
  exists news,
    recommendations (store st') = recommendations (store st) ++ news /\
    Db.positions (store st') = Db.positions (store st) /\
    newPendingIds st' = newPendingIds st ++ map id news /\
    NoDup (map id news) /\
    Forall (fun r =>
              Db.getRecommendation (store st) (id r) = None /\
              Db.getRecommendation (store st') (id r) = Some r /\
              status r = PENDING /\ resolved_at r = None /\
              action r <> HOLD) news.
Proof.
  unfold createAll.
  destruct (createSteps_spec out (env ctx)
              (accepted (decideLoop ctx buyingPower decisions)) st)
    as (os & news & _ & _ & Hp & Hr & Hpos & Hid & Hnd & Hfresh & Hrow).
  exists news. repeat split; auto.
  - now rewrite Hid.
  - pose proof (accepted_PENDING ctx buyingPower decisions) as Hacc.
    rewrite Forall_forall in Hacc, Hrow, Hfresh. apply Forall_forall.
    intros r Hin.
    assert (Hold : Db.getRecommendation (store st) (id r) = None).
    { apply find_None_not_In. apply Hfresh. now apply in_map. }
    destruct (Hrow r Hin) as [Hres (rec & Hrec & Hst & _ & Hact & _)].
    destruct (Hacc rec Hrec) as [Hpend Hnh].
    repeat split; auto; try congruence.
    unfold Db.getRecommendation in *. rewrite Hr.
    rewrite (find_app_miss _ _ _ Hold).
    clear - Hnd Hin. induction news as [|x news IH]; [easy|].
    simpl. inversion Hnd as [|? ? Hx Hnd']; subst.
    destruct Hin as [-> | Hin].
    + now rewrite eqb_refl.
    + destruct (eqb (id x) (id r)) eqn:E; [|now apply IH].
      apply eqb_eq in E. exfalso. apply Hx. rewrite E. now apply in_map.
Qed.

(** X19.  [insertRecommendation] and [getRecommendation]: with an id that
    is not stored the insert returns that id, the row read back under it
    carries the fields of the recommendation and no resolution time, and
    every row stored before reads as before; with an id that is stored the
    insert throws and the database is as it was. *)
Theorem insertRecommendation_then_getRecommendation db uuid createdAt rec :
  match Db.getRecommendation db uuid with
  | None =>
      snd (insertRecommendation db uuid createdAt rec) = inr uuid /\
      Db.getRecommendation (fst (insertRecommendation db uuid createdAt rec)) uuid =
        Some (newRow uuid createdAt rec) /\
      forall j r, Db.getRecommendation db j = Some r ->
        Db.getRecommendation (fst (insertRecommendation db uuid createdAt rec)) j =
          Some r
  | Some _ =>
      insertRecommendation db uuid createdAt rec = (db, inl D1WriteFailed)
  end.
Proof.
  destruct (insertRecommendation_cases db uuid createdAt rec)
    as [[Hs H] | [Hn H]].
  - destruct (Db.getRecommendation db uuid); [exact H | congruence].
  - rewrite Hn, H. simpl. unfold Db.getRecommendation in *. simpl.
    repeat split.
    + rewrite (find_app_miss _ _ _ Hn). simpl. now rewrite eqb_refl.
    + intros j r Hj. now apply find_app_hit.
Qed.

End CreationFacts.

(** ** The batches of the EDGAR fetch *)

Section BatchedSettleFacts.
Import Js Scoring Edgar.
Context {T : Type} (fn : T -> option (list Filing)).

Lemma fulfilled_app (a b : list (option (list Filing))) :
  fulfilled (a ++ b) = fulfilled a ++ fulfilled b.
Proof. unfold fulfilled. apply flat_map_app. Qed.

Lemma batchedSettleLoop_spec fuel (items : list T) concurrency i results :
  (1 <= concurrency)%nat ->
  (length items - i < fuel)%nat ->
  batchedSettleLoop fn fuel items concurrency i results =
    Some (results ++ fulfilled (map fn (skipn i items))).
Proof.
  intros Hc. revert i results.
  induction fuel as [|fuel IH]; intros i results Hf; [lia|]. simpl.
  destruct (i <? length items)%nat eqn:E.
  - apply Nat.ltb_lt in E.
    rewrite IH by lia. f_equal. rewrite <- app_assoc. f_equal.
    rewrite <- fulfilled_app, <- map_app. do 2 f_equal.
    rewrite <- (firstn_skipn concurrency (skipn i items)) at 2.
    f_equal. rewrite skipn_skipn. f_equal. lia.
  - apply Nat.ltb_ge in E. rewrite skipn_all2 by lia. simpl.
    now rewrite app_nil_r.
Qed.

(** X20.  [batchedSettle] with a batch size of at least one ends, and what
    it returns does not depend on the batch size: the filings of every
    fulfilled item, in the order of the items; a rejected item contributes
    nothing and takes nothing away from the others. *)
Theorem batchedSettle_every_fulfilled_item (items : list T) concurrency fuel :
  (1 <= concurrency)%nat ->
  (length items < fuel)%nat ->
  batchedSettle fn fuel items concurrency =
    Some (flat_map (fun item => match fn item with
                                | Some filings => filings
                                | None => []
                                end) items).
Proof.
  intros Hc Hf. unfold batchedSettle.
  rewrite batchedSettleLoop_spec by (auto; lia). simpl. f_equal.
  unfold fulfilled. now rewrite flat_map_concat_map, map_map,
    <- flat_map_concat_map.
Qed.

(** X21.  With a batch size of zero and at least one item the loop of
    [batchedSettle] never ends: the index stays at zero. *)
Theorem batchedSettle_zero_never_returns (items : list T) fuel :
  items <> [] ->
  batchedSettle fn fuel items 0 = None.
Proof.
  intros Hne. unfold batchedSettle. generalize (@nil Filing).
  induction fuel as [|fuel IH]; intros results; simpl; [reflexivity|].
  destruct items as [|x items']; [contradiction|]. simpl.
  apply IH.
Qed.

End BatchedSettleFacts.

(** ** Escaping for Telegram *)

Section TelegramFacts.
Import Js Telegram.

Lemma isMdSpecial_backslash : isMdSpecial 92 = false.
Proof. reflexivity. Qed.

Lemma escapeMd_cons c text :
  escapeMd (c :: text) =
  (if isMdSpecial c then [92%N; c] else [c]) ++ escapeMd text.
Proof. reflexivity. Qed.

(** An escaped text does not start with a code unit of the class. *)
Lemma escapeMd_head text :
  match escapeMd text with
  | [] => True
  | d :: _ => isMdSpecial d = false
  end.
Proof.
  destruct text as [|c text]; [exact I|]. rewrite escapeMd_cons.
  destruct (isMdSpecial c) eqn:E; simpl; auto.
Qed.

(** X22.  [escapeMd] loses nothing: reading the backslashes back gives the
    text again, so two different texts never escape to the same string. *)
Theorem escapeMd_can_be_read_back text :
  unescapeMd (escapeMd text) = text /\
  forall other, escapeMd other = escapeMd text -> other = text.
Proof.
  assert (H : forall t, unescapeMd (escapeMd t) = t).
  { induction t as [|c t IH]; [reflexivity|]. rewrite escapeMd_cons.
    destruct (isMdSpecial c) eqn:E.
    - change (unescapeMd ([92%N; c] ++ escapeMd t))
        with (if ((92 =? 92)%N && isMdSpecial c)%bool
              then c :: unescapeMd (escapeMd t)
              else 92%N :: unescapeMd (c :: escapeMd t)).
      rewrite E. simpl. now rewrite IH.
    - pose proof (escapeMd_head t) as Hh.
      change (([c] ++ escapeMd t)) with (c :: escapeMd t).
      destruct (escapeMd t) as [|d rest] eqn:Et.
      + simpl. now rewrite <- IH.
      + change (unescapeMd (c :: d :: rest))
          with (if ((c =? 92)%N && isMdSpecial d)%bool
                then d :: unescapeMd rest
                else c :: unescapeMd (d :: rest)).
        rewrite Hh, andb_false_r. now rewrite IH. }
  split; [apply H|].
  intros other Heq. rewrite <- (H other), Heq. apply H.
Qed.

Lemma noBareSpecial_escapeMd prev text :
  noBareSpecial prev (escapeMd text) = true.
Proof.
  revert prev; induction text as [|c text IH]; intros prev; [reflexivity|].
  rewrite escapeMd_cons. destruct (isMdSpecial c) eqn:E; simpl.
  - rewrite IH. now rewrite orb_true_r.
  - rewrite E, IH. reflexivity.
Qed.

(** X23.  In the text that [escapeMd] returns every one of the four
    Markdown markers has a backslash right before it; the text grows by
    one code unit for each marker, and a text without markers is returned
    as it is. *)
Theorem escapeMd_escapes_every_marker text :
  noBareSpecial None (escapeMd text) = true /\
  length (escapeMd text) =
    (length text + length (filter isMdSpecial text))%nat /\
  (existsb isMdSpecial text = false -> escapeMd text = text).
Proof.
  split; [apply noBareSpecial_escapeMd|]. split.
  - induction text as [|c text IH]; [reflexivity|].
    rewrite escapeMd_cons, length_app, IH. simpl.
    destruct (isMdSpecial c); simpl; lia.
  - induction text as [|c text IH]; [reflexivity|].
    rewrite escapeMd_cons. simpl.
    destruct (isMdSpecial c); simpl; [discriminate|].
    intros H. now rewrite IH.
Qed.

End TelegramFacts.

(** ** The scan: which window is scored *)

Section FormScannerFacts.
Import Js Scoring Edgar FormScanner.
Context {host : Host}.

Lemma hadPurchases_filter filings :
  hadPurchases filings = false ->
  filter (fun f => isP (transactionType f)) filings = [].
Proof.
  unfold hadPurchases. induction filings as [|f fs IH]; simpl; [reflexivity|].
  destruct (isP (transactionType f)); simpl; [discriminate | exact IH].
Qed.

Lemma scoreSignals_no_purchase filings limit n :
  hadPurchases filings = false ->
  fst (scoreSignals filings limit n) = [].
Proof.
  intros H. unfold scoreSignals. now rewrite (hadPurchases_filter _ H).
Qed.

(** The window of a fetch and the clock reads it makes: the window ends
    the day before the first read; with a lookback of more than one day it
    starts that many days before the second read, else it is that one
    day. *)
Lemma fetchForm4s_window search lookbackDays n :
  fetchForm4s search lookbackDays n =
  if 1 <? lookbackDays
  then (search (n + 2)%nat (datePart (Day (clock (S n)) - lookbackDays))
                           (datePart (Day (clock n) - 1)),
        (n + 2)%nat)
  else (search (n + 1)%nat (datePart (Day (clock n) - 1))
                           (datePart (Day (clock n) - 1)),
        (n + 1)%nat).
Proof.
  unfold fetchForm4s, getYesterday, daysAgo, Scoring.bind, newDate, Scoring.ret.
  rewrite slice_toISOString.
  replace (clock n - 1 * msPerDay) with (clock n + (-1) * msPerDay) by lia.
  rewrite Day_shift.
  destruct (1 <? lookbackDays).
  - rewrite slice_toISOString.
    replace (clock (S n) - lookbackDays * msPerDay)
      with (clock (S n) + (- lookbackDays) * msPerDay) by lia.
    rewrite Day_shift. now replace (S (S n)) with (n + 2)%nat by lia.
  - now replace (S n) with (n + 1)%nat by lia.
Qed.

Lemma fetchForm4s_reads search lookbackDays n :
  snd (fetchForm4s search lookbackDays n) =
  if 1 <? lookbackDays then (n + 2)%nat else (n + 1)%nat.
Proof.
  rewrite fetchForm4s_window. now destruct (1 <? lookbackDays).
Qed.

(** [run], fetch by fetch. *)
Lemma run_eq search n :
  run search n =
  match fst (fetchForm4s search 1 (S n)) with
  | inl err => (inl err, (n + 2)%nat)
  | inr first =>
      if hadPurchases first
      then (inr (fst (scoreSignals first 10 (n + 2)%nat)),
            snd (scoreSignals first 10 (n + 2)%nat))
      else
        match fst (fetchForm4s search 3 (n + 2)%nat) with
        | inr wider =>
            (inr (fst (scoreSignals wider 10 (n + 4)%nat)),
             snd (scoreSignals wider 10 (n + 4)%nat))
        | inl _ =>
            (inr (fst (scoreSignals first 10 (n + 4)%nat)),
             snd (scoreSignals first 10 (n + 4)%nat))
        end
  end.
Proof.
  pose proof (fetchForm4s_reads search 1 (S n)) as R1.
  pose proof (fetchForm4s_reads search 3 (n + 2)%nat) as R3.
  change (1 <? 1) with false in R1. change (1 <? 3) with true in R3.
  replace (S n + 1)%nat with (n + 2)%nat in R1 by lia.
  replace (n + 2 + 2)%nat with (n + 4)%nat in R3 by lia.
  unfold run. unfold Scoring.bind at 1. unfold newDate at 1.
  unfold Scoring.bind at 1.
  destruct (fetchForm4s search 1 (S n)) as [r1 k1]. simpl in R1. subst k1.
  cbn [fst]. destruct r1 as [err | first]; [reflexivity|].
  destruct (hadPurchases first); cbn [negb].
  - unfold Scoring.bind, Scoring.ret.
    now destruct (scoreSignals first 10 (n + 2)%nat).
  - unfold Scoring.bind at 1 2.
    destruct (fetchForm4s search 3 (n + 2)%nat) as [r3 k3]. simpl in R3.
    subst k3. cbn [fst].
    destruct r3 as [e3 | wider]; unfold Scoring.bind, Scoring.ret.
    + now destruct (scoreSignals first 10 (n + 4)%nat).
    + now destruct (scoreSignals wider 10 (n + 4)%nat).
Qed.

(** X24.  [FormScannerAgent.run] throws exactly when the first fetch
    throws.  When it has signals, they are those of one window alone, a
    window that holds an open-market purchase: the one-day window, scored
    from the third read of the clock on, or the three-day window when the
    one-day window held no purchase, scored from the fifth read on.  So a
    failed second fetch leaves a run without signals, never with those of
    the first window. *)
Theorem run_scores_one_window search n :
  (forall err,
     fst (run search n) = inl err <->
     fst (fetchForm4s search 1 (S n)) = inl err) /\
  (forall signals,
     fst (run search n) = inr signals -> signals <> [] ->
     exists filings,
       hadPurchases filings = true /\
       ((fst (fetchForm4s search 1 (S n)) = inr filings /\
         signals = fst (scoreSignals filings 10 (n + 2)%nat)) \/
        (fst (fetchForm4s search 3 (n + 2)%nat) = inr filings /\
         signals = fst (scoreSignals filings 10 (n + 4)%nat) /\
         exists first, fst (fetchForm4s search 1 (S n)) = inr first /\
                       hadPurchases first = false))).
Proof.
  rewrite run_eq.
  destruct (fst (fetchForm4s search 1 (S n))) as [err | first].
  - split.
    + intros e. simpl. split; intros [= ->]; reflexivity.
    + intros signals H. discriminate.
  - destruct (hadPurchases first) eqn:Eh.
    + split.
      * intros e. simpl. split; discriminate.
      * intros signals. simpl. intros [= <-] Hne. exists first. auto.
    + pose proof (scoreSignals_no_purchase first 10 (n + 4)%nat Eh) as H0.
      destruct (fst (fetchForm4s search 3 (n + 2)%nat)) as [e3 | wider].
      * split.
        -- intros e. simpl. split; discriminate.
        -- intros signals. simpl. intros [= <-] Hne. now rewrite H0 in Hne.
      * split.
        -- intros e. simpl. split; discriminate.
        -- intros signals. simpl. intros [= <-] Hne.
           destruct (hadPurchases wider) eqn:Ew.
           ++ exists wider. split; [exact Ew|]. right.
              repeat split; auto. exists first. auto.
           ++ now rewrite (scoreSignals_no_purchase wider 10 (n + 4)%nat Ew)
                in Hne.
Qed.

End FormScannerFacts.

(** ** The schedule command *)

Section WorkerFacts.
Import Js Worker.

Lemma parseScheduleCommand_fields (hours minutes : N) (isWeekdays : bool) :
  (hours <= 23 -> minutes <= 59 ->
   exists shift,
     shift <= 1 /\
     (if 24 <=? hours + 6 then hours + 6 - 24 else hours + 6) + 24 * shift =
       hours + 6 /\
     (if 24 <=? hours + 6 then hours + 6 - 24 else hours + 6) < 24 /\
     (if isWeekdays
      then (if 24 <=? hours + 6 then DayRange 2 6 else DayRange 1 5)
      else EveryDay) =
     (if isWeekdays then DayRange (1 + shift) (5 + shift) else EveryDay) /\
     1 <= (if 12 <? hours then hours - 12
           else if hours =? 0 then 12 else hours) <= 12 /\
     (if 12 <? hours then hours - 12
      else if hours =? 0 then 12 else hours) mod 12 = hours mod 12)%N.
Proof.
  intros Hh Hm.
  exists (if (24 <=? hours + 6)%N then 1%N else 0%N).
  destruct (24 <=? hours + 6)%N eqn:Er;
    [apply N.leb_le in Er | apply N.leb_gt in Er];
    (destruct (12 <? hours)%N eqn:E12;
       [apply N.ltb_lt in E12 | apply N.ltb_ge in E12]);
    (destruct (hours =? 0)%N eqn:E0;
       [apply N.eqb_eq in E0 | apply N.eqb_neq in E0]);
    destruct isWeekdays;
    repeat match goal with |- _ /\ _ => split end;
    try reflexivity; try lia;
    try (replace hours with (hours - 12 + 1 * 12)%N at 2 by lia;
         now rewrite N.Div0.mod_add);
    try (subst hours; reflexivity).
Qed.

(** X25.  When [parseScheduleCommand] accepts a time, the fields of its
    cron string are in range and denote the Central Standard Time it
    read, six hours later in UTC: the hour wraps at midnight, and the
    weekday range moves on by one day exactly when it wraps.  The time
    read is the one matched: as it stands for the 24-hour form, and for
    the 12-hour form with an hour up to twelve the hour modulo twelve,
    plus twelve for [pm].  The label shows that time on the twelve-hour
    clock. *)
Theorem parseScheduleCommand_is_CST_in_UTC timeMatch isWeekdays s :
  parseScheduleCommand timeMatch isWeekdays = Some s ->
  exists hours shift : N,
    (hours < 24 /\ shift <= 1 /\
     match timeMatch with
     | Some (H24 h m) => hours = h /\ cronMinutes s = m
     | Some (AmPm h m pm) =>
         (h <= 12 -> hours = h mod 12 + (if pm then 12 else 0)) /\
         cronMinutes s = match m with Some m => m | None => 0 end
     | None => False
     end /\
     cronHours s < 24 /\ cronMinutes s < 60 /\
     cronHours s + 24 * shift = hours + 6 /\
     cronDays s = (if isWeekdays then DayRange (1 + shift) (5 + shift)
                   else EveryDay) /\
     1 <= labelH12 s <= 12 /\
     labelH12 s mod 12 = hours mod 12 /\
     labelPM s = (12 <=? hours) /\
     labelMinutes s = cronMinutes s)%N.
Proof.
  unfold parseScheduleCommand.
  destruct timeMatch as [[h m pm | h m]|]; [| |discriminate].
  - set (hours := if (negb pm && _)%bool then 0%N else _).
    set (minutes := match m with Some m0 => m0 | None => 0%N end).
    destruct ((23 <? hours)%N || (59 <? minutes)%N)%bool eqn:E; [discriminate|].
    apply orb_false_elim in E. destruct E as [Eh Em].
    apply N.ltb_ge in Eh. apply N.ltb_ge in Em.
    intros [= <-].
    cbn [cronHours cronMinutes cronDays labelH12 labelMinutes labelPM].
    destruct (parseScheduleCommand_fields hours minutes isWeekdays Eh Em)
      as (shift & Hs & Hsum & Hlt & Hdays & Hl & Hmod).
    exists hours, shift.
    repeat match goal with |- _ /\ _ => split end;
      try reflexivity; try lia; try assumption.
    intros Hle. subst hours.
    destruct pm; simpl negb; simpl andb;
      (destruct (h =? 12)%N eqn:E12;
         [apply N.eqb_eq in E12; subst h | apply N.eqb_neq in E12]);
      simpl; try reflexivity.
    + destruct (h + 12 =? 12)%N eqn:E0; simpl; rewrite N.mod_small by lia; lia.
    + rewrite N.mod_small by lia. lia.
  - destruct ((23 <? h)%N || (59 <? m)%N)%bool eqn:E; [discriminate|].
    apply orb_false_elim in E. destruct E as [Eh Em].
    apply N.ltb_ge in Eh. apply N.ltb_ge in Em.
    intros [= <-].
    cbn [cronHours cronMinutes cronDays labelH12 labelMinutes labelPM].
    destruct (parseScheduleCommand_fields h m isWeekdays Eh Em)
      as (shift & Hs & Hsum & Hlt & Hdays & Hl & Hmod).
    exists h, shift.
    repeat match goal with |- _ /\ _ => split end;
      try reflexivity; try lia; try assumption.
Qed.

End WorkerFacts.

(** ** The answers of the approval route *)

Section ApprovalResponseFacts.
Import Js Db Handler Approval.
Context {host : Host}.

Lemma no_TradeLogged_added (old : list (Event * D1Database)) e d0 :
  (forall t, e <> TradeLogged t) ->
  forall t d, In (TradeLogged t, d) (old ++ [(e, d0)]) ->
              In (TradeLogged t, d) old.
Proof.
  intros He t d Hin. apply in_app_or in Hin.
  destruct Hin as [Hin | [Heq | []]]; [exact Hin|].
  inversion Heq; subst. exfalso. now apply (He t).
Qed.

(** X26.  [handleApprove] always answers, and it answers 200 only after
    the brokerage accepted an order for a recommendation that was PENDING:
    then the order, the position record and the APPROVED write follow one
    another, and nothing else happened.  Every other answer has a code of
    400 or more and leaves the table of positions and the trade records in
    the trace as they were. *)
Theorem handleApprove_200_only_with_an_accepted_order i env w :
  exists resp w',
    handleApprove i env w = (inr resp, w') /\
    ((statusCode resp = 200 /\
      exists r req order,
        Db.getRecommendation (db w) i = Some r /\ status r = PENDING /\
        postOrder env req = inr order /\
        body resp = TradeExecuted (action r) (Db.ticker r) /\
        trace w' =
          trace w ++
          [(OrderSubmitted req, db w);
           (TradeLogged (orderToTradeLog order r), db w);
           (StatusWritten i APPROVED,
            fst (Db.logTrade (db w) (orderToTradeLog order r)))] /\
        statusIs (db w') i APPROVED) \/
     (400 <= statusCode resp /\
      Db.positions (db w') = Db.positions (db w) /\
      forall t d, In (TradeLogged t, d) (trace w') ->
                  In (TradeLogged t, d) (trace w))).
Proof.
  destruct (handleApprove_cases i env w) as (resp & w' & Hrun & Hout).
  exists resp, w'. split; [exact Hrun|].
  destruct Hout as [Hn Hb Hc Hw | Hp Hb Hc Hd Ht | Hp Hb Hc Hd Ht
                   | Hp Hb Hc Hd Ht | e Hp Hb Hc Hd Ht
                   | r req order Hget Hst Hpost Hb Hc Ht Hs].
  - right. subst w'. rewrite Hc. repeat split; auto; lia.
  - right. rewrite Hc, Hd, Ht. repeat split; try lia.
    apply no_TradeLogged_added. discriminate.
  - right. rewrite Hc, Hd, Ht. repeat split; auto; lia.
  - right. rewrite Hd, Ht. repeat split; auto.
  - right. rewrite Hc, Hd. repeat split; try lia.
    destruct Ht as [-> | (req & _ & ->)]; [auto|].
    apply no_TradeLogged_added. discriminate.
  - left. split; [exact Hc|]. exists r, req, order. auto 10.
Qed.

End ApprovalResponseFacts.

(** ** Runs of the further properties *)

Section FurtherRuns.
Import Js Scoring Db Handler Approval DecisionAgent Scenario.

(** The length of the result on the batch of the scoring test. *)
Lemma scoreSignals_length_witness :
  0 <= 10 /\
  Z.of_nat (length (fst (scoreSignals (host := frozen) mockFilings 10 0%nat))) =
  Z.min 10 (Z.of_nat (length (purchasesOf mockFilings))).
Proof.
  assert (H : 0 <= 10) by lia.
  split; [exact H|].
  exact (scoreSignals_length (host := frozen) mockFilings 10 0%nat H).
Defined.

(** $50,000 against $100,000. *)
Lemma scoreValue_monotone_witness :
  (50000 <= 100000)%Q /\ scoreValue 50000 <= scoreValue 100000.
Proof.
  assert (H : (50000 <= 100000)%Q) by (apply Qle_bool_iff; reflexivity).
  split; [exact H|].
  exact (scoreValue_monotone 50000 100000 H).
Defined.

(** The batch of the scoring test, read backwards. *)
Lemma detectClusters_order_witness :
  Permutation mockFilings (rev mockFilings) /\
  has (detectClusters (host := frozen) mockFilings)
      (filingKey (mkFiling "CLUSTER" "Bob Jones" "Director" "2024-11-01" TxP 75000)) =
  has (detectClusters (host := frozen) (rev mockFilings))
      (filingKey (mkFiling "CLUSTER" "Bob Jones" "Director" "2024-11-01" TxP 75000)).
Proof.
  assert (H : Permutation mockFilings (rev mockFilings))
    by apply Permutation_rev.
  split; [exact H|].
  exact (detectClusters_order_independent (host := frozen) _ _ _ H).
Defined.

(** A batch of one purchase. *)
Lemma scoreSignals_single_purchase_witness :
  let f := mkFiling "MEGA" "Jane Doe" "CEO" "2024-11-01" TxP 1500000 in
  scoreSignals (host := frozen) [f] 10 0%nat =
  ([fst (scoreFiling (host := frozen) f 0%nat)],
   snd (scoreFiling (host := frozen) f 0%nat)) /\
  clusterBonus (scoreBreakdown (fst (scoreFiling (host := frozen) f 0%nat))) = 0.
Proof.
  intros f.
  apply (scoreSignals_single_purchase (host := frozen) f 10 0%nat).
  - reflexivity.
  - lia.
Defined.

(** Two BUYs of $300 and $400 on one ticker that is not held, against a
    counter of $1000. *)
Lemma two_BUYs_witness :
  accepted (fold_left (decideStep runContext)
                      [buy "AAA" (dollars 300); buy "AAA" (dollars 400)] funded) =
  accepted funded ++
  [recommendationFor runContext (buy "AAA" (dollars 300));
   recommendationFor runContext (buy "AAA" (dollars 400))].
Proof.
  apply (two_BUYs_on_one_ticker_both_accepted runContext funded
           (buy "AAA" (dollars 300)) (buy "AAA" (dollars 400))
           1000%Q 300%Q 400%Q).
  - reflexivity.
  - reflexivity.
  - reflexivity.
  - reflexivity.
  - vm_compute. reflexivity.
  - vm_compute. reflexivity.
  - vm_compute. reflexivity.
  - apply Qle_bool_iff. reflexivity.
  - apply Qle_bool_iff. reflexivity.
Defined.

(** Rejecting a PENDING recommendation, however old. *)
Lemma handleReject_witness :
  exists w',
    handleReject (host := frozen) (str "rec-1") (brokerage (Some (dollars 100)))
                 (worldWith staleBuy) =
      (inr (text RecommendationRejected 200), w') /\
    Db.getRecommendation (db w') (str "rec-1") =
      Some (setStatus REJECTED (toISOString t0) staleBuy) /\
    Db.positions (db w') = Db.positions (db (worldWith staleBuy)) /\
    trace w' = trace (worldWith staleBuy) ++
               [(StatusWritten (str "rec-1") REJECTED, db (worldWith staleBuy))].
Proof.
  apply (handleReject_resolves_PENDING (host := frozen) (str "rec-1")
           (brokerage (Some (dollars 100))) (worldWith staleBuy) staleBuy).
  - reflexivity.
  - reflexivity.
Defined.

(** The order of an approved BUY of $500 at a quote of $100: five shares. *)
Lemma handleApprove_order_witness :
  let w := worldWith freshBuy in
  let req := MarketBuyQty (str "AAPL") (Double.ofZ 5) in
  In (OrderSubmitted req, db w)
     (trace (snd (handleApprove (host := frozen) (str "rec-1")
                                (brokerage (Some (dollars 100))) w))) /\
  (In (OrderSubmitted req, db w) (trace w) \/
   exists r, Db.getRecommendation (db w) (str "rec-1") = Some r /\
             status r = PENDING /\ orderFor (brokerage (Some (dollars 100))) r req).
Proof.
  intros w req.
  assert (H : In (OrderSubmitted req, db w)
                 (trace (snd (handleApprove (host := frozen) (str "rec-1")
                                (brokerage (Some (dollars 100))) w))))
    by (vm_compute; left; reflexivity).
  split; [exact H|].
  exact (handleApprove_submits_the_order_of_the_recommendation
           (host := frozen) (str "rec-1") (brokerage (Some (dollars 100))) w
           req (db w) H).
Defined.

(** The quotient is rounded before it is floored: a BUY of $1000 at a quote
    of 1.6 is an order for 625 shares, not for the 624 that the exact
    quotient of the two doubles holds. *)
Example handleApprove_floors_the_rounded_quotient :
  let row := mkRow "rec-1" BUY PENDING (dollars 1000) "2024-11-01" None in
  map fst (trace (snd (handleApprove (host := frozen) (str "rec-1")
                         (brokerage (Some (Double.decimal 16 10)))
                         (worldWith row)))) =
  [ OrderSubmitted (MarketBuyQty (str "AAPL") (Double.ofZ 625));
    TradeLogged (orderToTradeLog filled row);
    StatusWritten (str "rec-1") APPROVED ].
Proof. vm_compute. reflexivity. Qed.

(** The scan scores after its fetch has read the clock: with a clock that
    shows 2024-11-01 at the first read and 2024-11-03 at the later ones,
    the purchase dated 2024-11-01 that the one-day window brings is scored
    two days after its date, at 60, not at the 80 of the day itself. *)
Example run_scores_after_the_fetch :
  option_map (map score)
    (match fst (FormScanner.run (host := passing) onePurchaseFound 0%nat) with
     | inr signals => Some signals
     | inl _ => None
     end) = Some [60].
Proof. vm_compute. reflexivity. Qed.

(** Three items in batches of two, the second rejected. *)
Lemma batchedSettle_witness :
  Edgar.batchedSettle settles 4 [0; 1; 2]%nat 2 =
  Some (flat_map (fun item => match settles item with
                              | Some filings => filings
                              | None => []
                              end) [0; 1; 2]%nat).
Proof.
  apply (batchedSettle_every_fulfilled_item settles [0; 1; 2]%nat 2 4).
  - lia.
  - simpl. lia.
Defined.

(** One item and a batch size of zero. *)
Lemma batchedSettle_zero_witness :
  [0%nat] <> [] /\ Edgar.batchedSettle settles 5 [0%nat] 0 = None.
Proof.
  assert (H : [0%nat] <> []) by discriminate.
  split; [exact H|].
  exact (batchedSettle_zero_never_returns settles [0%nat] 5 H).
Defined.

(** "schedule 6:30 PM weekdays". *)
Lemma parseScheduleCommand_witness :
  Worker.parseScheduleCommand (Some (Worker.AmPm 6 (Some 30%N) true)) true =
    Some eveningWeekdays /\
  exists hours shift : N,
    (hours < 24 /\ shift <= 1 /\
     ((6 <= 12 -> hours = 6 mod 12 + 12) /\
      Worker.cronMinutes eveningWeekdays = 30) /\
     Worker.cronHours eveningWeekdays < 24 /\
     Worker.cronMinutes eveningWeekdays < 60 /\
     Worker.cronHours eveningWeekdays + 24 * shift = hours + 6 /\
     Worker.cronDays eveningWeekdays =
       Worker.DayRange (1 + shift) (5 + shift) /\
     1 <= Worker.labelH12 eveningWeekdays <= 12 /\
     Worker.labelH12 eveningWeekdays mod 12 = hours mod 12 /\
     Worker.labelPM eveningWeekdays = (12 <=? hours) /\
     Worker.labelMinutes eveningWeekdays = Worker.cronMinutes eveningWeekdays)%N.
Proof.
  assert (H : Worker.parseScheduleCommand
                (Some (Worker.AmPm 6 (Some 30%N) true)) true =
              Some eveningWeekdays) by reflexivity.
  split; [exact H|].
  exact (parseScheduleCommand_is_CST_in_UTC _ _ _ H).
Defined.

End FurtherRuns.
